(** * Resource-scoped synchronized storage: mindsdb/interfaces/storage/fs.py

    A shallow embedding of the storage layer of [fs.py]: the local
    filesystem as a tree of directories and files, the object-store bucket
    as a finite map, and every function of the module as a computation in a
    state-and-exception monad.  Python exceptions keep the side effects
    performed before they were raised, so a computation returns its outcome
    together with the state it leaves behind. *)

From stdpp Require Import gmap strings.
From Stdlib Require Import Ascii DecimalString.

Open Scope string_scope.
Open Scope list_scope.

(** ** Python strings *)

Module PyStr.

(** [s.split('/')] *)
Fixpoint split_slash (s : string) : list string :=
  match s with
  | EmptyString => [EmptyString]
  | String c r =>
      if Ascii.eqb c "/"%char then EmptyString :: split_slash r
      else match split_slash r with
           | h :: t => String c h :: t
           | [] => [String c EmptyString]
           end
  end.

(** ['/'.join(l)] *)
Fixpoint join_slash (l : list string) : string :=
  match l with
  | [] => EmptyString
  | [x] => x
  | x :: r => x +:+ "/" +:+ join_slash r
  end.

Definition startswith_slash (s : string) : bool :=
  match s with
  | String c _ => Ascii.eqb c "/"%char
  | EmptyString => false
  end.

Fixpoint endswith_slash (s : string) : bool :=
  match s with
  | EmptyString => false
  | String c EmptyString => Ascii.eqb c "/"%char
  | String _ r => endswith_slash r
  end.

(** [s.replace(old, new)] for a non-empty [old]: the occurrences are
    replaced from left to right and do not overlap; [skip] counts the
    characters of a matched occurrence still to be dropped. *)
Fixpoint replace_from (old new : string) (skip : nat) (s : string) : string :=
  match s with
  | EmptyString => EmptyString
  | String c r =>
      match skip with
      | S k => replace_from old new k r
      | O =>
          if String.prefix old s
          then new +:+ replace_from old new (String.length old - 1) r
          else String c (replace_from old new 0 r)
      end
  end.

Definition replace (old new s : string) : string := replace_from old new 0 s.

(** [str(n)] for an [int] *)
Definition of_Z (z : Z) : string := NilZero.string_of_int (Z.to_int z).

(** [n] printed in decimal, zero-padded on the left to [width] digits *)
Fixpoint zeros (k : nat) : string :=
  match k with
  | O => EmptyString
  | S k' => String "0"%char (zeros k')
  end.

Definition zero_padded (width n : nat) : string :=
  let digits := NilZero.string_of_uint (Nat.to_uint n) in
  zeros (width - String.length digits) +:+ digits.

End PyStr.

(** ** posixpath and pathlib *)

Module posixpath.

(** [os.path.join(a, b)] *)
Definition join (a b : string) : string :=
  if PyStr.startswith_slash b then b
  else if (String.eqb a EmptyString || PyStr.endswith_slash a)%bool then a +:+ b
  else a +:+ "/" +:+ b.

Fixpoint drop_empty (l : list string) : list string :=
  match l with
  | x :: r => if String.eqb x EmptyString then drop_empty r else l
  | [] => []
  end.

(** [os.path.split(p)]: the head loses its trailing slashes unless it
    consists of slashes only. *)
Definition split (p : string) : string * string :=
  match rev (PyStr.split_slash p) with
  | [] => (EmptyString, EmptyString)
  | [t] => (EmptyString, t)
  | t :: rinit =>
      if forallb (String.eqb EmptyString) rinit
      then (PyStr.join_slash (rev rinit) +:+ "/", t)
      else (PyStr.join_slash (rev (drop_empty rinit)), t)
  end.

End posixpath.

(** A [pathlib.Path]: whether it is anchored at the root, and its parts.
    Empty and ['.'] components are dropped on construction, ['..'] is kept. *)
Record Path := mkPath { anchor : bool; parts : list string }.

Global Instance Path_eq_dec : EqDecision Path.
Proof. solve_decision. Defined.

Module pathlib.

Definition keep_part (c : string) : bool :=
  negb (String.eqb c EmptyString || String.eqb c ".")%bool.

(** [Path(s)] *)
Definition of_str (s : string) : Path :=
  {| anchor := PyStr.startswith_slash s;
     parts := List.filter keep_part (PyStr.split_slash s) |}.

(** [str(p)], also [os.fspath(p)] *)
Definition fspath (p : Path) : string :=
  if anchor p then "/" +:+ PyStr.join_slash (parts p)
  else match parts p with
       | [] => "."
       | _ => PyStr.join_slash (parts p)
       end.

(** [p / q] *)
Definition joinpath (p q : Path) : Path :=
  if anchor q then q
  else {| anchor := anchor p; parts := parts p ++ parts q |}.

Definition is_absolute (p : Path) : bool := anchor p.

(** [p.name] *)
Definition name (p : Path) : string := List.last (parts p) EmptyString.

(** [p.parent] *)
Definition parent (p : Path) : Path :=
  {| anchor := anchor p; parts := removelast (parts p) |}.

(** The lexical part of [Path.resolve()]: every ['..'] drops the
    component before it (at the root it is dropped itself).  The tree has
    no symbolic links, so nothing else is rewritten. *)
Fixpoint collapse (acc : list string) (l : list string) : list string :=
  match l with
  | [] => acc
  | c :: r =>
      if String.eqb c ".." then collapse (removelast acc) r
      else collapse (acc ++ [c]) r
  end.

End pathlib.

Notation "p // q" := (pathlib.joinpath p (pathlib.of_str q))
  (at level 40, left associativity).

(** ** Python exceptions *)

Inductive exn : Type :=
| FileNotFoundError
| NotADirectoryError
| IsADirectoryError
| FileExistsError
| OSError              (* any other errno: ENOTEMPTY, EBUSY, EINVAL *)
| SameFileError        (* shutil *)
| ReadError            (* shutil: not an archive *)
| ClientError          (* botocore: missing key, unreachable service *)
| KeyError
| ValueError
| RecursionError
| TypeError (msg : string)
| Exception (msg : string).

Definition is_OSError (e : exn) : bool :=
  match e with
  | FileNotFoundError | NotADirectoryError | IsADirectoryError
  | FileExistsError | OSError | SameFileError | ReadError => true
  | _ => false
  end.

(** ** Files, directories, archives, the bucket *)

Set Warnings "-register-all".

(** What a regular file holds: plain bytes, or a gzip-compressed tar
    archive.  The codec is outside the module, so an archive is kept as the
    list of its members, in order: a name and, for a regular file, its
    data ([None] is a directory member). *)
Inductive content : Type :=
| Bytes (b : string)
| Archive (members : list (string * option content)).

Abbreviation member := (string * option content)%type.

Inductive node : Type :=
| File (c : content)
| Dir (entries : list (string * node)).

Set Warnings "register-all".

Record datetime := mkDatetime {
  year : nat; month : nat; day : nat;
  hour : nat; minute : nat; second : nat; microsecond : nat
}.

Global Instance datetime_eq_dec : EqDecision datetime.
Proof. solve_decision. Defined.

Record s3_object := { body : content; LastModified : datetime }.

Record state := mkState {
  root : list (string * node);      (* the entries of "/" *)
  cwd : list string;                (* os.getcwd(), normalised *)
  posix : bool;                     (* os.name == 'posix' *)
  available : nat;                  (* psutil.virtual_memory().available *)
  bucket : gmap string s3_object;   (* the objects of the configured bucket *)
  s3_reachable : bool;              (* whether the object store answers *)
  s3_now : datetime                 (* the object store's clock *)
}.

(** The functions of other libraries that the module calls and whose
    results it only compares or stores. *)
Class Libs := {
  (** [hashlib.md5(data).hexdigest()] *)
  md5_hexdigest : content -> string;
  (** [checksumdir.dirhash] of a directory with these entries *)
  dirhash_of : list (string * node) -> string;
  (** [st_size] of a compressed archive file *)
  targz_size : list member -> nat;
  (** [datetime.strptime(text, dt_format)]; [None] is [ValueError] *)
  strptime : string -> option datetime
}.

(** ** Computations *)

Inductive result (A : Type) : Type :=
| Ok (a : A)
| Raise (e : exn).
Arguments Ok {A} a.
Arguments Raise {A} e.

Definition M (A : Type) : Type := state -> result A * state.

Definition ret {A} (a : A) : M A := fun s => (Ok a, s).

Definition raise {A} (e : exn) : M A := fun s => (Raise e, s).

Definition bind {A B} (m : M A) (k : A -> M B) : M B :=
  fun s => match m s with
           | (Ok a, s') => k a s'
           | (Raise e, s') => (Raise e, s')
           end.

Notation "'let!' x ':=' m 'in' k" := (bind m (fun x => k))
  (at level 10, x name, m at level 100, k at level 200).
Notation "m '>>' k" := (bind m (fun _ => k))
  (at level 100, k at level 200, right associativity).

(** [try: m except E: h] where [h] decides by the exception what to do *)
Definition try_except {A} (m : M A) (h : exn -> M A) : M A :=
  fun s => match m s with
           | (Ok a, s') => (Ok a, s')
           | (Raise e, s') => h e s'
           end.

(** [try: m except Exception: pass] *)
Definition try_pass (m : M unit) : M unit := try_except m (fun _ => ret tt).

(** [try: m finally: f] *)
Definition try_finally {A} (m : M A) (f : M unit) : M A :=
  fun s => match m s with
           | (r, s') => match f s' with
                        | (Ok _, s'') => (r, s'')
                        | (Raise e, s'') => (Raise e, s'')
                        end
           end.

Definition get_state : M state := fun s => (Ok s, s).
Definition set_state (s' : state) : M unit := fun _ => (Ok tt, s').

Definition when (b : bool) (m : M unit) : M unit := if b then m else ret tt.

(** ** The directory tree *)

Module Tree.

Fixpoint assoc (k : string) (es : list (string * node)) : option node :=
  match es with
  | [] => None
  | (k', v) :: r => if String.eqb k k' then Some v else assoc k r
  end.

(** The entry [k] is replaced where it stands; a new entry goes last. *)
Fixpoint assoc_set (k : string) (v : node) (es : list (string * node))
  : list (string * node) :=
  match es with
  | [] => [(k, v)]
  | (k', v') :: r =>
      if String.eqb k k' then (k, v) :: r else (k', v') :: assoc_set k v r
  end.

Fixpoint assoc_del (k : string) (es : list (string * node))
  : list (string * node) :=
  match es with
  | [] => []
  | (k', v') :: r =>
      if String.eqb k k' then assoc_del k r else (k', v') :: assoc_del k r
  end.

(** The node at the normalised path [p] below [n] *)
Fixpoint lookup (n : node) (p : list string) : option node :=
  match p with
  | [] => Some n
  | c :: q =>
      match n with
      | Dir es => match assoc c es with
                  | Some m => lookup m q
                  | None => None
                  end
      | File _ => None
      end
  end.

(** [x] put at [p]: the directory that is to hold it must exist. *)
Fixpoint place (n : node) (p : list string) (x : node) : option node :=
  match p with
  | [] => Some x
  | c :: q =>
      match n with
      | Dir es =>
          match q with
          | [] => Some (Dir (assoc_set c x es))
          | _ :: _ =>
              match assoc c es with
              | Some m => match place m q x with
                          | Some m' => Some (Dir (assoc_set c m' es))
                          | None => None
                          end
              | None => None
              end
          end
      | File _ => None
      end
  end.

(** The node at [p] removed with all below it; [p] must exist. *)
Fixpoint remove (n : node) (p : list string) : option node :=
  match p with
  | [] => None
  | c :: q =>
      match n with
      | Dir es =>
          match assoc c es with
          | Some m =>
              match q with
              | [] => Some (Dir (assoc_del c es))
              | _ :: _ => match remove m q with
                          | Some m' => Some (Dir (assoc_set c m' es))
                          | None => None
                          end
              end
          | None => None
          end
      | File _ => None
      end
  end.

End Tree.

(** ** The operating system: path resolution and system calls *)

Module os.

Definition root_node (s : state) : node := Dir (root s).

Definition with_root (es : list (string * node)) (s : state) : state :=
  mkState es (cwd s) (posix s) (available s) (bucket s)
          (s3_reachable s) (s3_now s).

Definition with_cwd (d : list string) (s : state) : state :=
  mkState (root s) d (posix s) (available s) (bucket s)
          (s3_reachable s) (s3_now s).

Definition with_bucket (b : gmap string s3_object) (s : state) : state :=
  mkState (root s) (cwd s) (posix s) (available s) b
          (s3_reachable s) (s3_now s).

(** Path resolution as the kernel does it, one component at a time from
    the directory [cur]: the directory walked through must exist when the
    next component is taken; an empty component or ['.'] stays, ['..']
    goes up.  The last component itself need not exist. *)
Fixpoint namei (r : node) (cur : list string) (comps : list string)
  : result (list string) :=
  match comps with
  | [] => Ok cur
  | c :: rest =>
      match Tree.lookup r cur with
      | Some (Dir _) =>
          if (String.eqb c EmptyString || String.eqb c ".")%bool
          then namei r cur rest
          else if String.eqb c ".." then namei r (removelast cur) rest
          else namei r (cur ++ [c]) rest
      | Some (File _) => Raise NotADirectoryError
      | None => Raise FileNotFoundError
      end
  end.

Definition resolve (path : string) : M (list string) := fun s =>
  if String.eqb path EmptyString then (Raise FileNotFoundError, s)
  else (namei (root_node s)
              (if PyStr.startswith_slash path then [] else cwd s)
              (PyStr.split_slash path), s).

Definition node_at (p : list string) : M (option node) := fun s =>
  (Ok (Tree.lookup (root_node s) p), s).

Definition put_node (p : list string) (x : node) : M unit := fun s =>
  match Tree.place (root_node s) p x with
  | Some (Dir es) => (Ok tt, with_root es s)
  | _ => (Raise OSError, s)
  end.

Definition del_node (p : list string) : M unit := fun s =>
  match Tree.remove (root_node s) p with
  | Some (Dir es) => (Ok tt, with_root es s)
  | _ => (Raise OSError, s)
  end.

(** [os.stat(path)] *)
Definition stat (path : string) : M node :=
  let! p := resolve path in
  let! n := node_at p in
  match n with
  | Some x => ret x
  | None => raise FileNotFoundError
  end.

(** [os.mkdir(path)] *)
Definition mkdir (path : string) : M unit :=
  let! p := resolve path in
  let! n := node_at p in
  match n with
  | Some _ => raise FileExistsError
  | None => put_node p (Dir [])
  end.

(** [os.remove(path)], [os.unlink(path)] *)
Definition remove (path : string) : M unit :=
  let! p := resolve path in
  let! n := node_at p in
  match n with
  | Some (File _) => del_node p
  | Some (Dir _) => raise IsADirectoryError
  | None => raise FileNotFoundError
  end.

(** [os.rmdir(path)] *)
Definition rmdir (path : string) : M unit :=
  let! p := resolve path in
  let! n := node_at p in
  match n with
  | Some (Dir []) => del_node p
  | Some (Dir (_ :: _)) => raise OSError
  | Some (File _) => raise NotADirectoryError
  | None => raise FileNotFoundError
  end.

(** [open(path, 'rb').read()]; [open(path, 'r')] fails the same way. *)
Definition read_file (path : string) : M content :=
  let! n := stat path in
  match n with
  | File c => ret c
  | Dir _ => raise IsADirectoryError
  end.

(** [open(path, 'wb').write(c)]: the file is created or truncated. *)
Definition write_file (path : string) (c : content) : M unit :=
  let! p := resolve path in
  let! n := node_at p in
  match n with
  | Some (Dir _) => raise IsADirectoryError
  | _ => put_node p (File c)
  end.

(** [os.getcwd()] *)
Definition getcwd : M string := fun s =>
  (Ok ("/" +:+ PyStr.join_slash (cwd s)), s).

(** [os.chdir(path)] *)
Definition chdir (path : string) : M unit :=
  let! p := resolve path in
  let! n := node_at p in
  match n with
  | Some (Dir _) => fun s => (Ok tt, with_cwd p s)
  | Some (File _) => raise NotADirectoryError
  | None => raise FileNotFoundError
  end.

Module path.

(** [os.path.exists], [os.path.isdir], [os.path.isfile]: false when
    [stat] fails. *)
Definition exists_ (p : string) : M bool :=
  try_except (stat p >> ret true) (fun _ => ret false).

Definition isdir (p : string) : M bool :=
  try_except (let! n := stat p in
              ret (match n with Dir _ => true | File _ => false end))
             (fun _ => ret false).

Definition isfile (p : string) : M bool :=
  try_except (let! n := stat p in
              ret (match n with File _ => true | Dir _ => false end))
             (fun _ => ret false).

(** [os.path.abspath(p)]: joined to the working directory and
    normalised as text. *)
Definition abspath (p : string) : M string := fun s =>
  let comps := List.filter pathlib.keep_part (PyStr.split_slash p) in
  let base := if PyStr.startswith_slash p then [] else cwd s in
  (Ok ("/" +:+ PyStr.join_slash (pathlib.collapse [] (base ++ comps))), s).

Definition dirname (p : string) : string := fst (posixpath.split p).
Definition basename (p : string) : string := snd (posixpath.split p).

End path.

(** [os.makedirs(name, exist_ok=...)], recursive on the head of [name];
    [fuel] bounds the recursion by the length of [name]. *)
Fixpoint makedirs_rec (fuel : nat) (name : string) (exist_ok : bool) : M unit :=
  match fuel with
  | O => raise RecursionError
  | S fuel' =>
      let (head0, tail0) := posixpath.split name in
      let (head, tail) := if String.eqb tail0 EmptyString
                          then posixpath.split head0 else (head0, tail0) in
      let mk :=
        try_except (mkdir name)
          (fun e => if is_OSError e
                    then let! d := path.isdir name in
                         if (negb exist_ok || negb d)%bool then raise e else ret tt
                    else raise e) in
      if (negb (String.eqb head EmptyString) && negb (String.eqb tail EmptyString))%bool
      then
        let! ex := path.exists_ head in
        if ex then mk
        else
          try_except (makedirs_rec fuel' head exist_ok)
            (fun e => match e with FileExistsError => ret tt | _ => raise e end) >>
          if String.eqb tail "." then ret tt else mk
      else mk
  end.

Definition makedirs (name : string) (exist_ok : bool) : M unit :=
  makedirs_rec (S (String.length name)) name exist_ok.

End os.

(** ** pathlib: the methods of [Path] that touch the filesystem *)

Module PathM.

Import pathlib.

Definition exists_ (p : Path) : M bool := os.path.exists_ (fspath p).
Definition is_file (p : Path) : M bool := os.path.isfile (fspath p).
Definition is_dir (p : Path) : M bool := os.path.isdir (fspath p).
Definition unlink (p : Path) : M unit := os.remove (fspath p).
Definition rmdir (p : Path) : M unit := os.rmdir (fspath p).

(** [p.write_text(data)] *)
Definition write_text (p : Path) (data : string) : M unit :=
  os.write_file (fspath p) (Bytes data).

(** [p.read_text()]; what is not text does not decode. *)
Definition read_text (p : Path) : M string :=
  let! c := os.read_file (fspath p) in
  match c with
  | Bytes b => ret b
  | Archive _ => raise ValueError
  end.

(** [p.mkdir(parents=False, exist_ok=...)] *)
Definition mkdir_plain (p : Path) (exist_ok : bool) : M unit :=
  try_except (os.mkdir (fspath p))
    (fun e =>
       match e with
       | FileNotFoundError => raise e
       | _ => if is_OSError e
              then let! d := is_dir p in
                   if (negb exist_ok || negb d)%bool then raise e else ret tt
              else raise e
       end).

(** [p.mkdir(parents=True, exist_ok=...)], [p] given by its parts in
    reverse: when the directory above is missing it is made first (with
    [exist_ok=True]) and the call is repeated without [parents]. *)
Fixpoint mkdir_parents (a : bool) (rparts : list string) (exist_ok : bool)
  : M unit :=
  let self := mkPath a (rev rparts) in
  try_except (os.mkdir (fspath self))
    (fun e =>
       match e with
       | FileNotFoundError =>
           match rparts with
           | [] => raise e
           | _ :: rparent =>
               mkdir_parents a rparent true >> mkdir_plain self exist_ok
           end
       | _ => if is_OSError e
              then let! d := is_dir self in
                   if (negb exist_ok || negb d)%bool then raise e else ret tt
              else raise e
       end).

Definition mkdir (p : Path) (parents exist_ok : bool) : M unit :=
  if parents then mkdir_parents (anchor p) (rev (parts p)) exist_ok
  else mkdir_plain p exist_ok.

(** [p.resolve()] *)
Definition resolve (p : Path) : M Path := fun s =>
  (Ok (mkPath true (collapse [] (if anchor p then parts p
                                  else cwd s ++ parts p))), s).

(** [list(p.iterdir())], in the order of the directory *)
Definition iterdir (p : Path) : M (list Path) :=
  let! n := os.stat (fspath p) in
  match n with
  | Dir es => ret (map (fun e => joinpath p (mkPath false [fst e])) es)
  | File _ => raise NotADirectoryError
  end.

End PathM.

(** [st_size] of a regular file *)
Definition st_size `{Libs} (c : content) : nat :=
  match c with
  | Bytes b => String.length b
  | Archive ms => targz_size ms
  end.

(** The sizes of all regular files below a directory, added up *)
Fixpoint tree_size `{Libs} (n : node) : nat :=
  match n with
  | File c => st_size c
  | Dir es =>
      (fix entries_size (es : list (string * node)) : nat :=
         match es with
         | [] => 0
         | (_, x) :: r => tree_size x + entries_size r
         end) es
  end.

(** ** tarfile *)

Module tarfile.

Fixpoint insert_sorted {A} (k : string) (v : A) (l : list (string * A))
  : list (string * A) :=
  match l with
  | [] => [(k, v)]
  | (k', v') :: r =>
      if String.leb k k' then (k, v) :: l else (k', v') :: insert_sorted k v r
  end.

Definition sort_by_name {A} (l : list (string * A)) : list (string * A) :=
  foldr (fun e acc => insert_sorted (fst e) (snd e) acc) [] l.

Fixpoint lstrip_slash (s : string) : string :=
  match s with
  | String c r => if Ascii.eqb c "/"%char then lstrip_slash r else s
  | EmptyString => s
  end.

(** The members that adding [n] under the name [arcname] appends: the
    node itself, then for a directory the entries below it, taken in the
    order of their names. *)
Fixpoint members_of (arcname : string) (n : node) : list member :=
  match n with
  | File c => [(arcname, Some c)]
  | Dir es =>
      (arcname, None) ::
      concat (map snd (sort_by_name
        ((fix below (es : list (string * node)) : list (string * list member) :=
            match es with
            | [] => []
            | (k, x) :: r => (k, members_of (posixpath.join arcname k) x) :: below r
            end) es)))
  end.

(** [tar.add(name)]: [name] is looked up from the working directory. *)
Definition add (name : string) : M (list member) :=
  let! n := os.stat name in
  ret (members_of (lstrip_slash name) n).

(** Extraction of one member below [path] *)
Definition extract (path : string) (m : member) : M unit :=
  let targetpath := posixpath.join path (fst m) in
  let upperdirs := os.path.dirname targetpath in
  (if String.eqb upperdirs EmptyString then ret tt
   else let! ex := os.path.exists_ upperdirs in
        if ex then ret tt else os.makedirs upperdirs false) >>
  match snd m with
  | Some c => os.write_file targetpath c
  | None => try_except (os.mkdir targetpath)
              (fun e => match e with
                        | FileExistsError => ret tt
                        | _ => raise e
                        end)
  end.

(** [tar.extractall(path)] *)
Fixpoint extractall (path : string) (ms : list member) : M unit :=
  match ms with
  | [] => ret tt
  | m :: r => extract path m >> extractall path r
  end.

End tarfile.

(** ** shutil *)

Module shutil.

(** [shutil.rmtree(path)] *)
Definition rmtree (path : string) : M unit :=
  let! p := os.resolve path in
  let! n := os.node_at p in
  match n with
  | Some (Dir _) => os.del_node p
  | Some (File _) => raise NotADirectoryError
  | None => raise FileNotFoundError
  end.

(** [shutil.rmtree(path, ignore_errors=True)] *)
Definition rmtree_ignore_errors (path : string) : M unit :=
  try_pass (rmtree path).

(** [shutil.copytree(src, dst)]: the entries of [src] are listed, [dst]
    is made (it must not exist) and receives them.  The copy is taken
    as a whole; [dst] is assumed not to lie below [src]. *)
Definition copytree (src dst : string) : M unit :=
  let! n := os.stat src in
  match n with
  | File _ => raise NotADirectoryError
  | Dir es =>
      os.makedirs dst false >>
      let! p := os.resolve dst in
      os.put_node p (Dir es)
  end.

Definition samefile (src dst : string) : M bool :=
  try_except (let! _ := os.stat src in
              let! _ := os.stat dst in
              let! p := os.resolve src in
              let! q := os.resolve dst in
              ret (bool_decide (p = q)))
             (fun _ => ret false).

(** [shutil.copy2(src, dst)] *)
Definition copy2 (src dst : string) : M unit :=
  let! d := os.path.isdir dst in
  let dst := if d then posixpath.join dst (os.path.basename src) else dst in
  let! same := samefile src dst in
  if same then raise SameFileError
  else let! c := os.read_file src in os.write_file dst c.

(** [shutil.make_archive(base_name, 'gztar', root_dir=..., base_dir=...)]:
    the archive file is opened for writing, which leaves an empty archive
    if adding [base_dir] fails; the working directory is restored. *)
Definition make_archive (base_name root_dir base_dir : string) : M string :=
  let! save_cwd := os.getcwd in
  let! abs_base := os.path.abspath base_name in
  let archive_name := abs_base +:+ ".tar.gz" in
  os.chdir root_dir >>
  try_finally
    (let archive_dir := os.path.dirname archive_name in
     let! ex := os.path.exists_ archive_dir in
     (if ex then ret tt else os.makedirs archive_dir false) >>
     os.write_file archive_name (Archive []) >>
     let! ms := tarfile.add base_dir in
     os.write_file archive_name (Archive ms) >>
     ret archive_name)
    (os.chdir save_cwd).

(** [shutil.unpack_archive(filename, extract_dir)] for a [.tar.gz] name *)
Definition unpack_archive (filename extract_dir : string) : M unit :=
  let! c := os.read_file filename in
  match c with
  | Archive ms => tarfile.extractall extract_dir ms
  | Bytes _ => raise ReadError
  end.

End shutil.

(** ** io.BytesIO *)

Module io.

(** A buffer: what was written to it, and whether the position is at
    its start (as after [seek(0)]) or, as writing leaves it, at its
    end. *)
Record BytesIO := mkBytesIO { getvalue : content; at_start : bool }.

(** [fh.read()]: the bytes from the position on; at the end there are
    none. *)
Definition read (fh : BytesIO) : content :=
  if at_start fh then getvalue fh else Bytes EmptyString.

(** The buffer on leaving [with tarfile.open(fileobj=fh, mode='w:gz')]:
    the archive of the members added has been written to it, and the
    position is behind what was written. *)
Definition written_by_tarfile (ms : list member) : BytesIO :=
  mkBytesIO (Archive ms) false.

End io.

(** ** The object-store client *)

Module s3.

Definition call {A} (m : M A) : M A := fun s =>
  if s3_reachable s then m s else (Raise ClientError, s).

(** [get_object_attributes(Key=key)['LastModified'].replace(tzinfo=None)] *)
Definition get_last_modified (key : string) : M datetime :=
  call (fun s => match bucket s !! key with
                 | Some o => (Ok (LastModified o), s)
                 | None => (Raise ClientError, s)
                 end).

Definition store (key : string) (c : content) : M unit := fun s =>
  (Ok tt, os.with_bucket (<[key := {| body := c; LastModified := s3_now s |}]> (bucket s)) s).

(** [upload_fileobj(fh, bucket, key)]: the client reads [fh] from its
    position on and stores what it has read. *)
Definition upload_fileobj (fh : io.BytesIO) (key : string) : M unit :=
  call (store key (io.read fh)).

(** [upload_file(filename, bucket, key)] *)
Definition upload_file (filename key : string) : M unit :=
  let! c := os.read_file filename in
  call (store key c).

(** [download_file(bucket, key, filename)] *)
Definition download_file (key filename : string) : M unit :=
  call (fun s => match bucket s !! key with
                 | Some o => os.write_file filename (body o) s
                 | None => (Raise ClientError, s)
                 end).

(** [delete_object(Bucket=bucket, Key=key)]: a missing key is no error. *)
Definition delete_object (key : string) : M unit :=
  call (fun s => (Ok tt, os.with_bucket (delete key (bucket s)) s)).

End s3.

(** ** fs.py: module-level functions *)

(** [checksumdir.dirhash(path)] *)
Definition dirhash `{Libs} (path : string) : M string :=
  let! d := os.path.isdir path in
  if d then
    let! n := os.stat path in
    match n with
    | Dir es => ret (dirhash_of es)
    | File _ => raise (TypeError "is not a directory.")
    end
  else raise (TypeError "is not a directory.").

Definition copy `{Libs} (src dst : string) : M unit :=
  let! d := os.path.isdir src in
  if d then
    let! ex := os.path.exists_ dst in
    let! same := (if ex then
                    let! a := dirhash src in
                    let! b := dirhash dst in
                    ret (String.eqb a b)
                  else ret false) in
    if same then ret tt
    else
      shutil.rmtree_ignore_errors dst >>
      shutil.copytree src dst
  else
    let! ex := os.path.exists_ dst in
    let! same := (if ex then
                    let! a := os.read_file src in
                    let! b := os.read_file dst in
                    ret (String.eqb (md5_hexdigest a) (md5_hexdigest b))
                  else ret false) in
    if same then ret tt
    else
      try_pass (os.remove dst) >>
      shutil.copy2 src dst.

(** [get_dir_size(path)]: [os.scandir] fails unless [path] is a directory;
    the recursion over the entries is [tree_size]. *)
Definition get_dir_size `{Libs} (path : string) : M nat :=
  let! n := os.stat path in
  match n with
  | Dir es => ret (tree_size (Dir es))
  | File _ => raise NotADirectoryError
  end.

(** The configuration and the request context, read by the constructors *)
Record Config := {
  paths : list (string * string);     (* config['paths'] *)
  location : string;                  (* config['permanent_storage']['location'] *)
  company_id : option Z               (* ctx.company_id *)
}.

Fixpoint dict_get (k : string) (d : list (string * string)) : M string :=
  match d with
  | [] => raise KeyError
  | (k', v) :: r => if String.eqb k k' then ret v else dict_get k r
  end.

(** The two implementations of [BaseFSStore], each with [self.storage] *)
Inductive BaseFSStore : Type :=
| LocalStore (storage : string)
| S3Store (storage : string).

(** ** class LocalFSStore *)

Module LocalFSStore.
Section methods.
Context `{Libs}.
Variable storage : string.

Definition get (local_name base_dir : string) : M unit :=
  let remote_name := local_name in
  let src := posixpath.join storage remote_name in
  let dest := posixpath.join base_dir local_name in
  let! ex := os.path.exists_ dest in
  let! stale := (if negb ex then ret true
                 else let! a := get_dir_size src in
                      let! b := get_dir_size dest in
                      ret (negb (Nat.eqb a b))) in
  if stale then copy src dest else ret tt.

(** [compression_level] has no default here: a call without it fails. *)
Definition put (local_name base_dir : string) (compression_level : option nat)
  : M unit :=
  match compression_level with
  | None => raise (TypeError "put() missing 1 required positional argument")
  | Some _ =>
      let remote_name := local_name in
      copy (posixpath.join base_dir local_name)
           (posixpath.join storage remote_name)
  end.

Definition delete (remote_name : string) : M unit :=
  let path := pathlib.of_str storage // remote_name in
  try_except
    (let! f := PathM.is_file path in
     if f then PathM.unlink path else shutil.rmtree (pathlib.fspath path))
    (fun e => match e with
              | FileNotFoundError => ret tt
              | _ => raise e
              end).

End methods.
End LocalFSStore.

(** ** class FileLock *)

Module FileLock.

Record t := {
  _local_path : Path;
  _local_file_name : string;
  _lock_file_path : Path
}.

Definition init (local_path : Path) : t :=
  {| _local_path := local_path;
     _local_file_name := "dir.lock";
     _lock_file_path := local_path // "dir.lock" |}.

(** [__enter__].  One process is modelled, so the non-blocking [flock]
    always succeeds; waiting for another holder is not described. *)
Definition enter (self : t) : M unit :=
  let! s := get_state in
  if negb (posix s) then ret tt
  else
    let! f := PathM.is_file (_lock_file_path self) in
    when (negb f)
      (try_pass (PathM.mkdir (_local_path self) true true >>
                 PathM.write_text (_lock_file_path self) EmptyString)) >>
    try_except
      (let! _ := os.read_file (pathlib.fspath (_lock_file_path self)) in ret tt)
      (fun e => match e with
                | ValueError | FileNotFoundError => raise FileNotFoundError
                | _ => raise e
                end).

(** [__exit__]: unlocking and closing leave the tree as it is. *)
Definition exit (self : t) : M unit := ret tt.

(** [with FileLock(path): body] *)
Definition with_ {A} (local_path : Path) (body : M A) : M A :=
  let self := init local_path in
  enter self >> try_finally body (exit self).

End FileLock.

(** ** class S3FSStore *)

(** [d.strftime('%d.%m.%y %H:%M:%S.%f')] *)
Definition strftime (d : datetime) : string :=
  PyStr.zero_padded 2 (day d) +:+ "." +:+
  PyStr.zero_padded 2 (month d) +:+ "." +:+
  PyStr.zero_padded 2 (year d mod 100) +:+ " " +:+
  PyStr.zero_padded 2 (hour d) +:+ ":" +:+
  PyStr.zero_padded 2 (minute d) +:+ ":" +:+
  PyStr.zero_padded 2 (second d) +:+ "." +:+
  PyStr.zero_padded 6 (microsecond d).

Module S3FSStore.
Section methods.
Context `{Libs}.

Definition _get_remote_last_modified (object_name : string) : M datetime :=
  s3.get_last_modified object_name.

Definition _get_local_last_modified (base_dir local_name : string)
  : M (option datetime) :=
  let last_modified_file_path :=
    pathlib.of_str base_dir // local_name // "last_modified.txt" in
  let! f := PathM.is_file last_modified_file_path in
  if negb f then ret None
  else
    let! last_modified_text := PathM.read_text last_modified_file_path in
    match strptime last_modified_text with
    | Some last_modified_datetime => ret (Some last_modified_datetime)
    | None => raise ValueError
    end.

Definition _save_local_last_modified (base_dir local_name : string)
    (last_modified : datetime) : M unit :=
  let last_modified_file_path :=
    pathlib.of_str base_dir // local_name // "last_modified.txt" in
  let last_modified_text := strftime last_modified in
  PathM.write_text last_modified_file_path last_modified_text.

Definition _download (base_dir remote_ziped_name local_ziped_path : string)
    (last_modified : option datetime) : M unit :=
  os.makedirs base_dir true >>
  s3.download_file remote_ziped_name local_ziped_path >>
  shutil.unpack_archive local_ziped_path base_dir >>
  (* os.system('chmod -R 777 ...'): permissions are not part of the tree *)
  os.remove local_ziped_path >>
  let! last_modified :=
    match last_modified with
    | None => _get_remote_last_modified remote_ziped_name
    | Some d => ret d
    end in
  _save_local_last_modified
    base_dir
    (PyStr.replace "tar.gz" EmptyString remote_ziped_name)
    last_modified.

Definition get (local_name base_dir : string) : M unit :=
  let remote_name := local_name in
  let remote_ziped_name := remote_name +:+ ".tar.gz" in
  let local_ziped_name := local_name +:+ ".tar.gz" in
  let local_ziped_path := posixpath.join base_dir local_ziped_name in
  let! local_last_modified := _get_local_last_modified base_dir local_name in
  let! remote_last_modified := _get_remote_last_modified remote_ziped_name in
  if bool_decide (local_last_modified = Some remote_last_modified)
  then ret tt
  else _download base_dir remote_ziped_name local_ziped_path
                 (Some remote_last_modified).

(** The loop of the in-memory branch: the test on the two reserved names
    is followed by [pass], and every entry is added by its bare name. *)
Fixpoint add_entries (entries : list Path) (tar : list member)
  : M (list member) :=
  match entries with
  | [] => ret tar
  | path :: rest =>
      let! f := PathM.is_file path in
      (if (f && (String.eqb (pathlib.name path) "dir.lock"
                 || String.eqb (pathlib.name path) "last_modified.txt"))%bool
       then ret tt
       else ret tt) >>
      let! ms := tarfile.add (pathlib.name path) in
      add_entries rest (tar ++ ms)
  end.

(** [sum(f.stat().st_size for f in dir_path.glob('**/*') if f.is_file())] *)
Definition glob_files_size (dir_path : Path) : M nat :=
  try_except (let! n := os.stat (pathlib.fspath dir_path) in
              ret (match n with
                   | Dir es => tree_size (Dir es)
                   | File _ => 0
                   end))
             (fun _ => ret 0).

Definition put (local_name base_dir : string) (compression_level : nat)
  : M unit :=
  let remote_name := local_name in
  let remote_zipped_name := remote_name +:+ ".tar.gz" in
  let! old_cwd := os.getcwd in
  let dir_path := pathlib.of_str base_dir // remote_name in
  let! dir_size := glob_files_size dir_path in
  let! s := get_state in
  (if Nat.ltb (dir_size * 2) (available s) then
     os.chdir base_dir >>
     let! entries := PathM.iterdir dir_path in
     let! tar := add_entries entries [] in
     let fh := io.written_by_tarfile tar in
     os.chdir old_cwd >>
     (* no [fh.seek(0)] before the upload *)
     s3.upload_fileobj fh remote_zipped_name
   else
     let! _ := shutil.make_archive (posixpath.join base_dir remote_name)
                                   base_dir local_name in
     s3.upload_file (posixpath.join base_dir remote_zipped_name)
                    remote_zipped_name >>
     os.remove (posixpath.join base_dir remote_zipped_name)) >>
  let! last_modified := _get_remote_last_modified remote_zipped_name in
  _save_local_last_modified base_dir local_name last_modified.

Definition delete (remote_name : string) : M unit :=
  s3.delete_object remote_name.

End methods.
End S3FSStore.

(** [FsStore()] *)
Definition FsStore (cfg : Config) : M BaseFSStore :=
  let storage_location := location cfg in
  if String.eqb storage_location "local" then
    let! storage := dict_get "storage" (paths cfg) in ret (LocalStore storage)
  else if String.eqb storage_location "s3" then
    let! storage := dict_get "storage" (paths cfg) in ret (S3Store storage)
  else raise (Exception ("Location: '" +:+ storage_location +:+ "' not supported")).

(** Dispatch of the three methods on the store held by a [FileStorage];
    [S3FSStore.put] defaults [compression_level] to 9. *)
Definition store_get `{Libs} (st : BaseFSStore) (local_name base_dir : string)
  : M unit :=
  match st with
  | LocalStore storage => LocalFSStore.get storage local_name base_dir
  | S3Store _ => S3FSStore.get local_name base_dir
  end.

Definition store_put `{Libs} (st : BaseFSStore) (local_name base_dir : string)
    (compression_level : option nat) : M unit :=
  match st with
  | LocalStore storage =>
      LocalFSStore.put storage local_name base_dir compression_level
  | S3Store _ =>
      S3FSStore.put local_name base_dir (default 9 compression_level)
  end.

Definition store_delete (st : BaseFSStore) (remote_name : string) : M unit :=
  match st with
  | LocalStore storage => LocalFSStore.delete storage remote_name
  | S3Store _ => S3FSStore.delete remote_name
  end.

(** ** class FileStorage *)

Module FileStorage.

Record t := {
  resource_group : string;
  resource_id : Z;
  root_dir : string;
  sync : bool;
  folder_name : string;
  fs_store : BaseFSStore;
  content_path : Path;
  resource_group_path : Path;
  folder_path : Path
}.

Section methods.
Context `{Libs}.

(** [f'{resource_group}_{ctx.company_id}_{resource_id}'] *)
Definition format_folder_name (resource_group : string) (cid : option Z)
  (resource_id : Z) : string :=
resource_group +:+ "_" +:+
match cid with Some c => PyStr.of_Z c | None => "None" end +:+ "_" +:+
PyStr.of_Z resource_id.

(** [FileStorage(resource_group, resource_id, root_dir, sync)] *)
Definition init (cfg : Config) (resource_group : string) (resource_id : Z)
  (root_dir : string) (sync : bool) : M t :=
let folder_name := format_folder_name resource_group (company_id cfg) resource_id in
let! fs_store := FsStore cfg in
let! content := dict_get root_dir (paths cfg) in
let content_path := pathlib.of_str content in
let resource_group_path := content_path // resource_group in
let folder_path := resource_group_path // folder_name in
let! ex := PathM.exists_ folder_path in
when (negb ex) (PathM.mkdir folder_path true true) >>
ret {| resource_group := resource_group;
       resource_id := resource_id;
       root_dir := root_dir;
       sync := sync;
       folder_name := folder_name;
       fs_store := fs_store;
       content_path := content_path;
       resource_group_path := resource_group_path;
       folder_path := folder_path |}.

Variable self : t.

Definition _push_no_lock (compression_level : nat) : M unit :=
store_put (fs_store self)
          (folder_name self)
          (pathlib.fspath (resource_group_path self))
          (Some compression_level).

Definition push (compression_level : nat) : M unit :=
FileLock.with_ (folder_path self) (_push_no_lock compression_level).

Definition push_path (path : string) : M unit :=
FileLock.with_ (folder_path self)
  (store_put (fs_store self)
             (posixpath.join (folder_name self) path)
             (pathlib.fspath (resource_group_path self))
             None).

Definition _pull_no_lock : M unit :=
try_pass (store_get (fs_store self)
                    (folder_name self)
                    (pathlib.fspath (resource_group_path self))).

Definition pull : M unit :=
FileLock.with_ (folder_path self) _pull_no_lock.


Definition file_set (name : string) (content : string) : M unit :=
FileLock.with_ (folder_path self)
  (when (sync self) _pull_no_lock >>
   let dest_abs_path := folder_path self // name in
   os.write_file (pathlib.fspath dest_abs_path) (Bytes content) >>
   when (sync self) (_push_no_lock 9)).

Definition file_get (name : string) : M content :=
FileLock.with_ (folder_path self)
  (when (sync self) _pull_no_lock >>
   let dest_abs_path := folder_path self // name in
   os.read_file (pathlib.fspath dest_abs_path)).

Definition add (path : string) (dest_rel_path : option string) : M unit :=
FileLock.with_ (folder_path self)
  (when (sync self) _pull_no_lock >>
   let path := pathlib.of_str path in
   let dest_abs_path :=
     match dest_rel_path with
     | None => folder_path self // pathlib.name path
     | Some d => folder_path self // d
     end in
   copy (pathlib.fspath path) (pathlib.fspath dest_abs_path) >>
   when (sync self) (_push_no_lock 9)).

Definition get_path (relative_path : string) : M Path :=
FileLock.with_ (folder_path self)
  (when (sync self) _pull_no_lock >>
   let relative_path := pathlib.of_str relative_path in
   if pathlib.is_absolute relative_path
   then raise (TypeError "FSStorage.get_path() got absolute path as argument")
   else
     let ret_path := pathlib.joinpath (folder_path self) relative_path in
     let! ex := PathM.exists_ ret_path in
     when (negb ex) (os.makedirs (pathlib.fspath ret_path) false) >>
     ret ret_path).

Definition _complete_removal : M unit :=
store_delete (fs_store self) (folder_name self) >>
shutil.rmtree (pathlib.fspath (folder_path self)).

Definition delete (relative_path : string) : M unit :=
FileLock.with_ (folder_path self)
  (let relative_path := pathlib.of_str relative_path in
   if pathlib.is_absolute relative_path
   then raise (TypeError "FSStorage.delete() got absolute path as argument")
   else
     let! path := PathM.resolve (pathlib.joinpath (folder_path self) relative_path) in
     let! top := PathM.resolve (folder_path self) in
     if bool_decide (path = top) then _complete_removal
     else
       when (sync self) _pull_no_lock >>
       let! ex := PathM.exists_ path in
       if negb ex then raise (Exception "Path does not exists")
       else
         let! f := PathM.is_file path in
         (if f then PathM.unlink path else PathM.rmdir path) >>
         when (sync self) (_push_no_lock 9)).

End methods.
End FileStorage.

(** ** class FileStorageFactory *)

Module FileStorageFactory.

Record t := { resource_group : string; root_dir : string; sync : bool }.

Definition call `{Libs} (self : t) (cfg : Config) (resource_id : Z)
  : M FileStorage.t :=
  FileStorage.init cfg (resource_group self) resource_id
                   (root_dir self) (sync self).

End FileStorageFactory.

(** ** A reference instantiation and sample states

    The library functions are instantiated so that the model can be run:
    the digest of a file is its data, the digest of a directory is the data
    of its files in order, and [strptime] reads the fixed-width text that
    [strftime] writes (two-digit years 00-68 are 20xx, 69-99 are 19xx). *)

Module Example.

Definition digit (c : ascii) : option nat :=
  let n := nat_of_ascii c in
  if ((48 <=? n) && (n <=? 57))%nat then Some (n - 48) else None.

Fixpoint number (acc : nat) (l : list ascii) : option nat :=
  match l with
  | [] => Some acc
  | c :: r => match digit c with
              | Some d => number (10 * acc + d) r
              | None => None
              end
  end.

Definition parse_timestamp (text : string) : option datetime :=
  match String.list_ascii_of_string text with
  | d1 :: d2 :: "."%char :: m1 :: m2 :: "."%char :: y1 :: y2 :: " "%char ::
    H1 :: H2 :: ":"%char :: M1 :: M2 :: ":"%char :: S1 :: S2 :: "."%char ::
    f1 :: f2 :: f3 :: f4 :: f5 :: f6 :: [] =>
      match number 0 [d1; d2], number 0 [m1; m2], number 0 [y1; y2],
            number 0 [H1; H2], number 0 [M1; M2], number 0 [S1; S2],
            number 0 [f1; f2; f3; f4; f5; f6] with
      | Some d, Some m, Some y, Some h, Some mi, Some s, Some f =>
          if ((1 <=? d) && (d <=? 31) && (1 <=? m) && (m <=? 12)
              && (h <? 24) && (mi <? 60) && (s <? 60))%nat
          then Some (mkDatetime (if (y <? 69)%nat then 2000 + y else 1900 + y)
                                m d h mi s f)
          else None
      | _, _, _, _, _, _, _ => None
      end
  | _ => None
  end.

Fixpoint all_bytes (n : node) : string :=
  match n with
  | File (Bytes b) => b
  | File (Archive _) => "<archive>"
  | Dir es =>
      (fix go (es : list (string * node)) : string :=
         match es with
         | [] => EmptyString
         | (_, x) :: r => all_bytes x +:+ go r
         end) es
  end.

Definition libs : Libs := {|
  md5_hexdigest c := match c with Bytes b => b | Archive _ => "<archive>" end;
  dirhash_of es := all_bytes (Dir es);
  targz_size ms := 512 * length ms;
  strptime := parse_timestamp
|}.

(** 5 March 2024, 14:02:11 *)
Definition t0 : datetime := mkDatetime 2024 3 5 14 2 11 0.

(** The storage of resource [predictor], id 5, of company 1, with the
    content root [/content] and the store root [/storage]. *)
Definition storage_of (st : BaseFSStore) (sync : bool) : FileStorage.t :=
  {| FileStorage.resource_group := "predictor";
     FileStorage.resource_id := 5;
     FileStorage.root_dir := "content";
     FileStorage.sync := sync;
     FileStorage.folder_name := "predictor_1_5";
     FileStorage.fs_store := st;
     FileStorage.content_path := mkPath true ["content"];
     FileStorage.resource_group_path := mkPath true ["content"; "predictor"];
     FileStorage.folder_path :=
       mkPath true ["content"; "predictor"; "predictor_1_5"] |}.

Definition remote (sync : bool) : FileStorage.t := storage_of (S3Store "/storage") sync.
Definition local (sync : bool) : FileStorage.t := storage_of (LocalStore "/storage") sync.

Definition cfg (loc : string) : Config :=
  {| paths := [("storage", "/storage"); ("content", "/content")];
     location := loc;
     company_id := Some 1%Z |}.

(** A machine whose resource group directory [/content/predictor] holds
    [group], with [avail] bytes of free memory and the bucket [b]. *)
Definition machine (group : list (string * node)) (avail : nat)
    (b : gmap string s3_object) : state :=
  mkState [("content", Dir [("predictor", Dir group)]); ("storage", Dir [])]
          [] true avail b true t0.

(** The resource directory after a first locked write of [model.pkl] *)
Definition resource : node :=
  Dir [("dir.lock", File (Bytes EmptyString));
       ("model.pkl", File (Bytes "weights"))].

(** The same after a push stamped it *)
Definition stamped_resource : node :=
  Dir [("dir.lock", File (Bytes EmptyString));
       ("model.pkl", File (Bytes "weights"));
       ("last_modified.txt", File (Bytes "05.03.24 14:02:11.000000"))].

(** The archive that the on-disk branch makes of [resource] *)
Definition pushed_archive : s3_object :=
  {| body := Archive [("predictor_1_5", None);
                      ("predictor_1_5/dir.lock", Some (Bytes EmptyString));
                      ("predictor_1_5/model.pkl", Some (Bytes "weights"))];
     LastModified := t0 |}.

(** The names of the members of the archive stored under [key] *)
Definition member_names (s : state) (key : string) : option (list string) :=
  match bucket s !! key with
  | Some {| body := Archive ms |} => Some (map fst ms)
  | _ => None
  end.

(** The node found at an absolute path given by its components *)
Definition at_path (s : state) (p : list string) : option node :=
  Tree.lookup (os.root_node s) p.

(** The tree that unpacking the object [key] of [s] into an empty
    directory [/out] gives *)
Definition unpacked (s : state) (key : string) : option node :=
  match bucket s !! key with
  | Some {| body := Archive ms |} =>
      at_path (snd (tarfile.extractall "/out" ms
                      (mkState [("out", Dir [])] [] true 0 ∅ true t0))) ["out"]
  | _ => None
  end.

End Example.

(** ** Notions used to state and prove the properties *)

(** A computation leaves the state related by [R] to the one it started in. *)
Definition stays (R : relation state) {A} (m : M A) : Prop :=
  forall s, R s (snd (m s)).

(** The observation [f] of the state is the same afterwards. *)
Definition same_on {X} (f : state -> X) : relation state :=
  fun s s' => f s' = f s.

Abbreviation preserves f := (stays (same_on f)).

(** A computation that leaves the whole state as it is *)
Abbreviation readonly := (preserves (fun s : state => s)).


(** Two normalised paths part ways at some component. *)
Fixpoint diverge (p q : list string) : bool :=
  match p, q with
  | c :: p', d :: q' => if String.eqb c d then diverge p' q' else true
  | _, _ => false
  end.

(** What a lookup found is a directory. *)
Definition is_dir_node (o : option node) : bool :=
  match o with Some (Dir _) => true | _ => false end.

(** The path that resolution yields when every directory on the way is there *)
Fixpoint lexical (cur comps : list string) : list string :=
  match comps with
  | [] => cur
  | c :: rest =>
      if (String.eqb c EmptyString || String.eqb c ".")%bool then lexical cur rest
      else if String.eqb c ".." then lexical (removelast cur) rest
      else lexical (cur ++ [c]) rest
  end.

(** Every directory of [r] is a directory of [r'], and whatever exists in
    [r] exists in [r']. *)
Definition dirs_preserved (r r' : node) : Prop :=
  forall x, (is_dir_node (Tree.lookup r x) = true ->
             is_dir_node (Tree.lookup r' x) = true) /\
            (Tree.lookup r x <> None -> Tree.lookup r' x <> None).

(** Nothing but the tree changed, and the tree lost no directory. *)
Definition grows : relation state := fun s s' =>
  cwd s' = cwd s /\ posix s' = posix s /\
  dirs_preserved (os.root_node s) (os.root_node s').

(** The string has no [/] in it. *)
Fixpoint no_slash (s : string) : bool :=
  match s with
  | EmptyString => true
  | String c r => negb (Ascii.eqb c "/"%char) && no_slash r
  end.

(** A name that is one component of a path and nothing else: not empty,
    not [.] or [..], without [/]. *)
Definition plain_name (c : string) : bool :=
  negb (String.eqb c EmptyString) && negb (String.eqb c ".")
  && negb (String.eqb c "..") && no_slash c.

(** The absolute path with the components [l], as text *)
Definition abs_str (l : list string) : string := "/" +:+ PyStr.join_slash l.

(** The tree is the same wherever a path is not a prefix of [l]. *)
Definition same_off (l : list string) : relation state := fun s s' =>
  forall x, ~ x `prefix_of` l ->
            Tree.lookup (os.root_node s') x = Tree.lookup (os.root_node s) x.

(** The state between two paths: [x] reads the same in [s'] as in [s], and
    is reached in [s'] if it was in [s]. *)
Definition untouched (q : list string) (s s' : state) : Prop :=
  posix s' = posix s /\
  (forall x, ~ q `prefix_of` x ->
             is_dir_node (Tree.lookup (os.root_node s) x) = true ->
             is_dir_node (Tree.lookup (os.root_node s') x) = true) /\
  (forall x, diverge q x = true ->
             Tree.lookup (os.root_node s') x = Tree.lookup (os.root_node s) x).

(** What a lookup found is a regular file. *)
Definition is_file_node (o : option node) : bool :=
  match o with
  | Some (File _) => true
  | _ => false
  end.

(** The file at [q], if there is one, is there afterwards with the same
    content. *)
Definition kept (q : list string) : relation state := fun s s' =>
  posix s' = posix s /\
  forall c, Tree.lookup (os.root_node s) q = Some (File c) ->
            Tree.lookup (os.root_node s') q = Some (File c).

(** The file at [q], if there is one, is still a file afterwards. *)
Definition file_kept (q : list string) : relation state := fun s s' =>
  posix s' = posix s /\
  (is_file_node (Tree.lookup (os.root_node s) q) = true ->
   is_file_node (Tree.lookup (os.root_node s') q) = true).

(** The object [key] of the bucket carries the reading of the store's
    clock. *)
Definition stamped (key : string) (s : state) : Prop :=
  exists o, bucket s !! key = Some o /\ LastModified o = s3_now s.

(** The resource directory is [fn] in the group directory [gp], both given
    by absolute paths of plain names. *)
Record plain_layout (self : FileStorage.t) (gp : list string) (fn : string)
  : Prop := {
  group_at : FileStorage.resource_group_path self = mkPath true gp;
  folder_named : FileStorage.folder_name self = fn;
  folder_at : FileStorage.folder_path self = mkPath true (gp ++ [fn]);
  group_below_root : gp <> [];
  layout_plain : forallb plain_name (gp ++ [fn]) = true
}.

(** A relative path all of whose components are plain names *)
Definition plain_relative (name : string) : bool :=
  forallb plain_name (PyStr.split_slash name).

(** The object store answers and holds the object [key]. *)
Definition serving (key : string) (s : state) : Prop :=
  s3_reachable s = true /\ is_Some (bucket s !! key).

(** From a state where the store serves [key], the computation keeps it
    so and does not fail with [ClientError]. *)
Definition no_client_error (key : string) {A} (m : M A) : Prop :=
  forall s, serving key s ->
            serving key (snd (m s)) /\ fst (m s) <> Raise ClientError.


(** The names below a directory are file names: plain, and no two alike
    in one directory. *)
Fixpoint valid_names (n : node) : bool :=
  match n with
  | File _ => true
  | Dir es =>
      (fix entries (es : list (string * node)) : bool :=
         match es with
         | [] => true
         | (k, x) :: r =>
             plain_name k && negb (existsb (String.eqb k) (map fst r))
             && valid_names x && entries r
         end) es
  end.

(** The members added for the entries of a directory, entry by entry *)
Definition members_below (arcname : string) (es : list (string * node))
  : list (string * list member) :=
  map (fun e => (fst e, tarfile.members_of (posixpath.join arcname (fst e)) (snd e))) es.

(** The file at [q], where it holds [c], holds [c] afterwards. *)
Definition holds (q : list string) (c : content) : relation state := fun s s' =>
  Tree.lookup (os.root_node s) q = Some (File c) ->
  Tree.lookup (os.root_node s') q = Some (File c).

(** No directory is lost. *)
Definition dirs_stay : relation state := fun s s' =>
  forall x, is_dir_node (Tree.lookup (os.root_node s) x) = true ->
            is_dir_node (Tree.lookup (os.root_node s') x) = true.

(** The path at which [_download] saves the marker: the name of the object
    without ['tar.gz'] in the base directory, and [last_modified.txt] in
    it. *)
Definition download_marker (gp : list string) (fn : string) : list string :=
  lexical [] (PyStr.split_slash
    (pathlib.fspath
       (pathlib.of_str (abs_str gp)
        // PyStr.replace "tar.gz" EmptyString (fn +:+ ".tar.gz")
        // "last_modified.txt"))).

(** The member [m] of an archive of the directory [fn] is named by a plain
    path below [fn], and if unpacking it in [gp] writes the file [q], it
    writes [c]. *)
Definition member_agrees (gp : list string) (fn : string) (q : list string)
    (c : content) (m : member) : Prop :=
  exists ks, forallb plain_name ks = true /\
             fst m = PyStr.join_slash (fn :: ks) /\
             forall c', snd m = Some c' -> gp ++ fn :: ks = q -> c' = c.

(** The path that [name] denotes in [s]: what [folder_path / name]
    resolves to. *)
Definition denotes (self : FileStorage.t) (name : string) (p : list string)
    (s : state) : Prop :=
  os.resolve (pathlib.fspath (FileStorage.folder_path self // name)) s = (Ok p, s).

(** Where the directories [a] and [b] have the same directory hash they
    have the same size. *)
Definition sizes_follow_hashes `{Libs} (a b : list string) (s : state) : Prop :=
  forall es es',
    Tree.lookup (os.root_node s) a = Some (Dir es) ->
    Tree.lookup (os.root_node s) b = Some (Dir es') ->
    dirhash_of es = dirhash_of es' -> tree_size (Dir es) = tree_size (Dir es').

(** The cases in which a file written by [file_set] is read back by
    [file_get]; [s1] is the state in which [file_set] returned and [p] the
    path that the name denotes there.  Without synchronization every name
    does.  With it, the resource directory is [fn] in [gp], of plain
    names, and
    - with the local store, kept in [sp] apart from the resource
      directory, [p] lies apart from the stored copy, and the lock file
      is in the resource directory, or it is missing there and the stored
      copy has the size of the resource directory if it has its hash;
    - with the remote store, [p] is neither the archive beside the
      resource directory nor the marker in it, and either the reading of
      the store's clock is the same after it was formatted and parsed, or
      [p] is not where a download saves its marker and the names in the
      resource directory are file names. *)
Inductive round_trip_case `{Libs} (self : FileStorage.t) (name : string)
    (s1 : state) : Prop :=
| unsynchronized :
    FileStorage.sync self = false ->
    round_trip_case self name s1
| with_local_store (gp sp : list string) (fn : string) (p : list string) :
    plain_layout self gp fn ->
    FileStorage.fs_store self = LocalStore (abs_str sp) ->
    sp <> [] ->
    forallb plain_name sp = true ->
    diverge (sp ++ [fn]) (gp ++ [fn]) = true ->
    denotes self name p s1 ->
    diverge (sp ++ [fn]) p = true ->
    (is_file_node (Tree.lookup (os.root_node s1) ((gp ++ [fn]) ++ ["dir.lock"])) = true
     \/ (Tree.lookup (os.root_node s1) ((gp ++ [fn]) ++ ["dir.lock"]) = None /\
         is_dir_node (Tree.lookup (os.root_node s1) (gp ++ [fn])) = true /\
         sizes_follow_hashes (gp ++ [fn]) (sp ++ [fn]) s1)) ->
    round_trip_case self name s1
| with_remote_store (gp : list string) (fn storage : string) (p : list string) :
    plain_layout self gp fn ->
    FileStorage.fs_store self = S3Store storage ->
    denotes self name p s1 ->
    p <> gp ++ [fn +:+ ".tar.gz"] ->
    p <> (gp ++ [fn]) ++ ["last_modified.txt"] ->
    (strptime (strftime (s3_now s1)) = Some (s3_now s1)
     \/ (p <> download_marker gp fn /\
         forall n, Tree.lookup (os.root_node s1) (gp ++ [fn]) = Some n ->
                   valid_names n = true)) ->
    round_trip_case self name s1.

(** * Properties *)

(** * Reasoning about computations *)

Lemma bind_Ok {A B} (m : M A) (k : A -> M B) s a s1 :
  m s = (Ok a, s1) -> bind m k s = k a s1.
Proof. intros E. unfold bind. now rewrite E. Qed.

Lemma bind_Raise {A B} (m : M A) (k : A -> M B) s e s1 :
  m s = (Raise e, s1) -> bind m k s = (Raise e, s1).
Proof. intros E. unfold bind. now rewrite E. Qed.

Lemma bind_inv {A B} (m : M A) (k : A -> M B) s r s' :
  bind m k s = (r, s') ->
  (exists a s1, m s = (Ok a, s1) /\ k a s1 = (r, s')) \/
  (exists e, m s = (Raise e, s') /\ r = Raise e).
Proof.
  unfold bind. destruct (m s) as [[a|e] s1] eqn:E; intros H.
  - left. eauto.
  - right. inversion H; subst. eauto.
Qed.

Lemma bind_Ok_inv {A B} (m : M A) (k : A -> M B) s b s' :
  bind m k s = (Ok b, s') ->
  exists a s1, m s = (Ok a, s1) /\ k a s1 = (Ok b, s').
Proof.
  intros H. apply bind_inv in H as [H | (e & _ & H)]; [exact H | discriminate].
Qed.

Lemma try_pass_Ok (m : M unit) s : try_pass m s = (Ok tt, snd (m s)).
Proof.
  unfold try_pass, try_except, ret. destruct (m s) as [[[]|e] s1]; reflexivity.
Qed.

Section stays.
Context (R : relation state) `{!Reflexive R} `{!Transitive R}.

Lemma stays_ret {A} (a : A) : stays R (ret a).
Proof. intros s. simpl. reflexivity. Qed.

Lemma stays_raise {A} e : stays R (@raise A e).
Proof. intros s. simpl. reflexivity. Qed.

Lemma stays_get_state : stays R get_state.
Proof. intros s. simpl. reflexivity. Qed.

Lemma stays_bind {A B} (m : M A) (k : A -> M B) :
  stays R m -> (forall a, stays R (k a)) -> stays R (bind m k).
Proof.
  intros Hm Hk s. unfold bind. specialize (Hm s).
  destruct (m s) as [[a|e] s1]; simpl in *; [|exact Hm].
  etransitivity; [exact Hm | apply Hk].
Qed.

Lemma stays_try_except {A} (m : M A) h :
  stays R m -> (forall e, stays R (h e)) -> stays R (try_except m h).
Proof.
  intros Hm Hh s. unfold try_except. specialize (Hm s).
  destruct (m s) as [[a|e] s1]; simpl in *; [exact Hm|].
  etransitivity; [exact Hm | apply Hh].
Qed.

Lemma stays_try_pass (m : M unit) : stays R m -> stays R (try_pass m).
Proof. intros Hm. apply stays_try_except; [exact Hm|]. intros e. apply stays_ret. Qed.

Lemma stays_try_finally {A} (m : M A) fin :
  stays R m -> stays R fin -> stays R (try_finally m fin).
Proof.
  intros Hm Hf s. unfold try_finally. specialize (Hm s).
  destruct (m s) as [r s1]. specialize (Hf s1).
  destruct (fin s1) as [[u|e] s2]; simpl in *; etransitivity; eauto.
Qed.

Lemma stays_when b (m : M unit) : stays R m -> stays R (when b m).
Proof. intros Hm. destruct b; [exact Hm | apply stays_ret]. Qed.

End stays.

Global Instance same_on_refl {X} (f : state -> X) : Reflexive (same_on f).
Proof. now intros s. Qed.

Global Instance same_on_trans {X} (f : state -> X) : Transitive (same_on f).
Proof. intros s1 s2 s3 H1 H2. unfold same_on in *. congruence. Qed.

(** Structural decomposition of a [preserves] goal *)
Ltac frame_step :=
  lazymatch goal with
  | |- stays _ (ret _) => apply stays_ret; typeclasses eauto
  | |- stays _ (raise _) => apply stays_raise; typeclasses eauto
  | |- stays _ get_state => apply stays_get_state; typeclasses eauto
  | |- stays _ (bind _ _) => apply stays_bind; [..| intros ?]; try typeclasses eauto
  | |- stays _ (try_pass _) => apply stays_try_pass; try typeclasses eauto
  | |- stays _ (try_except _ _) =>
      apply stays_try_except; [..| intros ?]; try typeclasses eauto
  | |- stays _ (try_finally _ _) => apply stays_try_finally; try typeclasses eauto
  | |- stays _ (when _ _) => apply stays_when; try typeclasses eauto
  | |- stays _ (match ?x with _ => _ end) => destruct x
  end.

Create HintDb frame.

Ltac frame := repeat first [solve [eauto with frame] | frame_step].

Lemma readonly_eq {A} (m : M A) s r s' : readonly m -> m s = (r, s') -> s' = s.
Proof. intros H E. specialize (H s). now rewrite E in H. Qed.

Lemma readonly_stays (R : relation state) `{!Reflexive R} {A} (m : M A) :
  readonly m -> stays R m.
Proof. intros H s. specialize (H s). unfold same_on in H. rewrite H. reflexivity. Qed.

Lemma resolve_readonly path : readonly (os.resolve path).
Proof. intros s. unfold os.resolve. now destruct (String.eqb _ _). Qed.

Lemma node_at_readonly p : readonly (os.node_at p).
Proof. now intros s. Qed.

#[global] Hint Resolve resolve_readonly node_at_readonly : frame.

Lemma stat_readonly path : readonly (os.stat path).
Proof. unfold os.stat. frame. Qed.
#[global] Hint Resolve stat_readonly : frame.

Lemma exists_readonly path : readonly (os.path.exists_ path).
Proof. unfold os.path.exists_. frame. Qed.

Lemma isdir_readonly path : readonly (os.path.isdir path).
Proof. unfold os.path.isdir. frame. Qed.

Lemma isfile_readonly path : readonly (os.path.isfile path).
Proof. unfold os.path.isfile. frame. Qed.

Lemma read_file_readonly path : readonly (os.read_file path).
Proof. unfold os.read_file. frame. Qed.

Lemma getcwd_readonly : readonly os.getcwd.
Proof. now intros s. Qed.

Lemma abspath_readonly p : readonly (os.path.abspath p).
Proof. now intros s. Qed.

#[global] Hint Resolve exists_readonly isdir_readonly isfile_readonly
  read_file_readonly getcwd_readonly abspath_readonly : frame.

Lemma Path_resolve_readonly p : readonly (PathM.resolve p).
Proof. now intros s. Qed.

Lemma Path_exists_readonly p : readonly (PathM.exists_ p).
Proof. apply exists_readonly. Qed.

Lemma Path_is_file_readonly p : readonly (PathM.is_file p).
Proof. apply isfile_readonly. Qed.

Lemma Path_is_dir_readonly p : readonly (PathM.is_dir p).
Proof. apply isdir_readonly. Qed.

Lemma Path_read_text_readonly p : readonly (PathM.read_text p).
Proof. unfold PathM.read_text. frame. Qed.

#[global] Hint Resolve Path_resolve_readonly Path_exists_readonly
  Path_is_file_readonly Path_is_dir_readonly Path_read_text_readonly : frame.

Lemma get_dir_size_readonly `{Libs} path : readonly (get_dir_size path).
Proof. unfold get_dir_size. frame. Qed.

Lemma dirhash_readonly `{Libs} path : readonly (dirhash path).
Proof. unfold dirhash. frame. Qed.

Lemma s3_get_last_modified_readonly key : readonly (s3.get_last_modified key).
Proof.
  intros s. unfold s3.get_last_modified, s3.call.
  destruct (s3_reachable s); [|reflexivity]. now destruct (bucket s !! key).
Qed.

Lemma get_local_last_modified_readonly `{Libs} base_dir local_name :
  readonly (S3FSStore._get_local_last_modified base_dir local_name).
Proof. unfold S3FSStore._get_local_last_modified. frame. Qed.

#[global] Hint Resolve get_dir_size_readonly dirhash_readonly
  s3_get_last_modified_readonly get_local_last_modified_readonly : frame.

(** ** What a failing [stat] implies *)

Lemma stat_cases path s :
  (exists n, os.stat path s = (Ok n, s)) \/ (exists e, os.stat path s = (Raise e, s)).
Proof.
  destruct (os.stat path s) as [[n|e] s'] eqn:E;
    pose proof (readonly_eq _ _ _ _ (stat_readonly path) E); subst; eauto.
Qed.

Lemma exists_false_stat path s :
  os.path.exists_ path s = (Ok false, s) -> exists e, os.stat path s = (Raise e, s).
Proof.
  unfold os.path.exists_, try_except, bind, ret.
  destruct (stat_cases path s) as [[n E]|[e E]]; rewrite E; [discriminate | eauto].
Qed.

Lemma exists_true_stat path s s' :
  os.path.exists_ path s = (Ok true, s') -> exists n, os.stat path s = (Ok n, s).
Proof.
  unfold os.path.exists_, try_except, bind, ret.
  destruct (stat_cases path s) as [[n E]|[e E]]; rewrite E; [eauto | discriminate].
Qed.

Lemma stat_Raise_isdir path s e :
  os.stat path s = (Raise e, s) -> os.path.isdir path s = (Ok false, s).
Proof. intros E. unfold os.path.isdir, try_except, bind. now rewrite E. Qed.

Lemma stat_Raise_exists path s e :
  os.stat path s = (Raise e, s) -> os.path.exists_ path s = (Ok false, s).
Proof. intros E. unfold os.path.exists_, try_except, bind. now rewrite E. Qed.

Lemma stat_Raise_isfile path s e :
  os.stat path s = (Raise e, s) -> os.path.isfile path s = (Ok false, s).
Proof. intros E. unfold os.path.isfile, try_except, bind. now rewrite E. Qed.

Lemma stat_Raise_read_file path s e :
  os.stat path s = (Raise e, s) -> os.read_file path s = (Raise e, s).
Proof. intros E. unfold os.read_file. now rewrite (bind_Raise _ _ _ _ _ E). Qed.

Lemma stat_Raise_remove path s e :
  os.stat path s = (Raise e, s) -> exists e', os.remove path s = (Raise e', s).
Proof.
  unfold os.stat, os.remove, bind, os.node_at.
  destruct (os.resolve path s) as [[p|e0] s0] eqn:E.
  - pose proof (readonly_eq _ _ _ _ (resolve_readonly path) E); subst s0.
    destruct (Tree.lookup (os.root_node s) p); [discriminate|]. intros _. eauto.
  - intros E'. inversion E'; subst. eauto.
Qed.


Lemma stat_Raise_samefile src dst s e :
  os.stat src s = (Raise e, s) -> shutil.samefile src dst s = (Ok false, s).
Proof. intros E. unfold shutil.samefile, try_except. now rewrite (bind_Raise _ _ _ _ _ E). Qed.

(** ** A store without the object: [get] fails and changes nothing *)

Lemma copy_missing_source `{Libs} src dst s e :
  os.stat src s = (Raise e, s) -> snd (copy src dst s) = s.
Proof.
  intros E. unfold copy.
  rewrite (bind_Ok _ _ _ _ _ (stat_Raise_isdir _ _ _ E)).
  destruct (os.path.exists_ dst s) as [[[]|e'] s'] eqn:Ex;
    pose proof (readonly_eq _ _ _ _ (exists_readonly dst) Ex); subst s'.
  - rewrite (bind_Ok _ _ _ _ _ Ex).
    rewrite bind_Raise with (e := e) (s1 := s); [reflexivity|].
    rewrite bind_Raise with (e := e) (s1 := s); [reflexivity|].
    now apply stat_Raise_read_file.
  - rewrite (bind_Ok _ _ _ _ _ Ex).
    unfold bind at 1. unfold ret at 1.
    apply exists_false_stat in Ex as [e' Ex].
    destruct (stat_Raise_remove _ _ _ Ex) as [e'' Er].
    rewrite bind_Ok with (a := tt) (s1 := s); [|rewrite try_pass_Ok, Er; reflexivity].
    unfold shutil.copy2.
    rewrite (bind_Ok _ _ _ _ _ (stat_Raise_isdir _ _ _ Ex)).
    rewrite (bind_Ok _ _ _ _ _ (stat_Raise_samefile _ _ _ _ E)).
    now rewrite (bind_Raise _ _ _ _ _ (stat_Raise_read_file _ _ _ E)).
  - unfold os.path.exists_, try_except, bind, ret in Ex.
    destruct (os.stat dst s) as [[?|?] ?]; discriminate.
Qed.


(** ** Running under the lock *)

Lemma with_lock_run {A} (p : Path) (body : M A) s s1 :
  FileLock.enter (FileLock.init p) s = (Ok tt, s1) ->
  FileLock.with_ p body s = body s1.
Proof.
  intros E. unfold FileLock.with_. rewrite (bind_Ok _ _ _ _ _ E).
  unfold try_finally, FileLock.exit, ret. now destruct (body s1).
Qed.

Lemma isfile_true_read path s s' :
  os.path.isfile path s = (Ok true, s') ->
  exists c, os.read_file path s = (Ok c, s).
Proof.
  unfold os.path.isfile, os.read_file, try_except, bind, ret.
  destruct (stat_cases path s) as [[n E]|[e E]]; rewrite E; [|discriminate].
  destruct n; [eauto | discriminate].
Qed.

Lemma enter_with_lock_file (p : Path) s :
  PathM.is_file (FileLock._lock_file_path (FileLock.init p)) s = (Ok true, s) ->
  FileLock.enter (FileLock.init p) s = (Ok tt, s).
Proof.
  intros Hf. unfold FileLock.enter, bind at 1, get_state.
  destruct (posix s); [simpl | reflexivity].
  rewrite (bind_Ok _ _ _ _ _ Hf). simpl. unfold bind at 1, ret at 1.
  destruct (isfile_true_read _ _ _ Hf) as [c Hr].
  unfold try_except. now rewrite (bind_Ok _ _ _ _ _ Hr).
Qed.

Section C5.
Context `{Libs}.
Variable self : FileStorage.t.
Let lock := FileLock.init (FileStorage.folder_path self).

(** C5 (amended).  For an absolute input path, once the directory lock is
  acquired, [delete] fails with [TypeError] and leaves exactly the state
  that acquiring the lock left; [get_path] fails with [TypeError] after
  the pull that synchronized mode performs before the check, and leaves
  the state of that pull.  Acquiring the lock changes nothing when the
  lock file is already there. *)
Theorem absolute_path_rejected_after_locking (path : string) (s s1 : state) :
pathlib.is_absolute (pathlib.of_str path) = true ->
FileLock.enter lock s = (Ok tt, s1) ->
FileStorage.delete self path s
= (Raise (TypeError "FSStorage.delete() got absolute path as argument"), s1)
/\ FileStorage.get_path self path s
   = (Raise (TypeError "FSStorage.get_path() got absolute path as argument"),
      snd (when (FileStorage.sync self) (FileStorage._pull_no_lock self) s1))
/\ (PathM.is_file (FileLock._lock_file_path lock) s = (Ok true, s) -> s1 = s).
Proof.
intros Habs He. repeat split.
- unfold FileStorage.delete. rewrite (with_lock_run _ _ _ _ He).
  now rewrite Habs.
- unfold FileStorage.get_path. rewrite (with_lock_run _ _ _ _ He).
  rewrite Habs. unfold bind, when, FileStorage._pull_no_lock.
  destruct (FileStorage.sync self); [|reflexivity].
  now rewrite try_pass_Ok.
- intros Hf. apply enter_with_lock_file in Hf. unfold lock in He. congruence.
Qed.

End C5.

(** * The directory tree *)

Module TreeFacts.
Import Tree.

Lemma assoc_set_same k v es : assoc k (assoc_set k v es) = Some v.
Proof.
  induction es as [|[k' v'] r IH]; simpl.
  - now rewrite String.eqb_refl.
  - destruct (String.eqb k k') eqn:E; simpl; rewrite ?E, ?String.eqb_refl; auto.
Qed.

Lemma assoc_set_other k k' v es :
  k <> k' -> assoc k' (assoc_set k v es) = assoc k' es.
Proof.
  intros Hne. induction es as [|[k0 v0] r IH]; simpl.
  - destruct (String.eqb_spec k' k); [congruence | reflexivity].
  - destruct (String.eqb_spec k k0) as [->|Hk]; simpl.
    + destruct (String.eqb_spec k' k0); [congruence | reflexivity].
    + now rewrite IH.
Qed.

Lemma assoc_del_same k es : assoc k (assoc_del k es) = None.
Proof.
  induction es as [|[k' v'] r IH]; simpl; [reflexivity|].
  destruct (String.eqb k k') eqn:E; simpl; rewrite ?E; auto.
Qed.

Lemma assoc_del_other k k' es :
  k <> k' -> assoc k' (assoc_del k es) = assoc k' es.
Proof.
  intros Hne. induction es as [|[k0 v0] r IH]; simpl; [reflexivity|].
  destruct (String.eqb_spec k k0) as [->|Hk]; simpl.
  - rewrite IH. destruct (String.eqb_spec k' k0); [congruence | reflexivity].
  - now rewrite IH.
Qed.

Lemma lookup_path_app n p q :
  lookup n (p ++ q) = match lookup n p with
                      | Some m => lookup m q
                      | None => None
                      end.
Proof.
  revert n. induction p as [|c p IH]; intros n; simpl; [reflexivity|].
  destruct n as [|es]; [reflexivity|]. destruct (assoc c es); auto.
Qed.

Lemma lookup_file_below c q : q <> [] -> lookup (File c) q = None.
Proof. now destruct q. Qed.

(** ** [place] *)

Lemma place_cons_inv c q n x n' :
  place n (c :: q) x = Some n' ->
  exists es m', n = Dir es /\ n' = Dir (assoc_set c m' es) /\
    match q with
    | [] => m' = x
    | _ :: _ => exists m, assoc c es = Some m /\ place m q x = Some m'
    end.
Proof.
  simpl. destruct n as [|es]; [discriminate|]. destruct q as [|d q].
  - intros [= <-]. eauto.
  - destruct (assoc c es) as [m|] eqn:Ea; [|discriminate].
    destruct (place m (d :: q) x) as [m'|] eqn:Ep; [|discriminate].
    intros [= <-]. exists es, m'. eauto.
Qed.

Lemma place_cons_inv_deep c q n x n' :
  q <> [] -> place n (c :: q) x = Some n' ->
  exists es m m', n = Dir es /\ assoc c es = Some m /\
    place m q x = Some m' /\ n' = Dir (assoc_set c m' es).
Proof.
  intros Hne Hp. apply place_cons_inv in Hp as (es & m' & -> & -> & Hq).
  destruct q; [congruence|]. destruct Hq as (m & Ha & Hq). eauto 10.
Qed.

Lemma place_lookup_same n p x n' :
  place n p x = Some n' -> lookup n' p = Some x.
Proof.
  revert n n'. induction p as [|c q IH]; intros n n' Hp.
  - simpl in *. congruence.
  - apply place_cons_inv in Hp as (es & m' & -> & -> & Hq).
    simpl. rewrite assoc_set_same. destruct q as [|d q].
    + now subst.
    + destruct Hq as (m & _ & Hq). now apply IH in Hq.
Qed.

Lemma place_lookup_below n p x n' q :
  place n p x = Some n' -> lookup n' (p ++ q) = lookup x q.
Proof. intros Hp. now rewrite lookup_path_app, (place_lookup_same _ _ _ _ Hp). Qed.

Lemma place_lookup_diverge n p x n' q :
  place n p x = Some n' -> diverge p q = true -> lookup n' q = lookup n q.
Proof.
  revert n n' q. induction p as [|c p IH]; intros n n' q Hp Hd; [discriminate|].
  destruct q as [|d q]; [discriminate|]. simpl in Hd.
  apply place_cons_inv in Hp as (es & m' & -> & -> & Hq). simpl.
  destruct (String.eqb_spec c d) as [->|Hne].
  - rewrite assoc_set_same. destruct p as [|c' p]; [discriminate|].
    destruct Hq as (m & -> & Hq). eauto.
  - now rewrite assoc_set_other.
Qed.

Lemma place_lookup_above n q c t x n' :
  place n (q ++ c :: t) x = Some n' ->
  is_dir_node (lookup n q) = true /\ is_dir_node (lookup n' q) = true.
Proof.
  revert n n'. induction q as [|d q IH]; intros n n' Hp.
  - simpl in Hp. apply place_cons_inv in Hp as (es & m' & -> & -> & _). now simpl.
  - simpl app in Hp.
    apply place_cons_inv_deep in Hp as (es & m & m' & -> & Ha & Hq & ->);
      [|now destruct q].
    simpl. rewrite assoc_set_same, Ha. now apply IH in Hq.
Qed.

Lemma place_exists n q c x :
  is_dir_node (lookup n q) = true -> exists n', place n (q ++ [c]) x = Some n'.
Proof.
  revert n. induction q as [|d q IH]; intros n Hd.
  - simpl in *. destruct n; [discriminate|]. eauto.
  - simpl in *. destruct n as [|es]; [discriminate|].
    destruct (assoc d es) as [m|]; [|discriminate].
    destruct (IH m Hd) as [m' ->].
    destruct (q ++ [c]) eqn:E; [now destruct q | eauto].
Qed.

Lemma place_root_dir es p x n' :
  p <> [] -> place (Dir es) p x = Some n' -> exists es', n' = Dir es'.
Proof.
  destruct p as [|c q]; [congruence|]. intros _ Hp.
  apply place_cons_inv in Hp as (? & ? & _ & -> & _). eauto.
Qed.

(** ** [remove] *)

Lemma remove_cons_inv c q n n' :
  remove n (c :: q) = Some n' ->
  exists es m, n = Dir es /\ assoc c es = Some m /\
    match q with
    | [] => n' = Dir (assoc_del c es)
    | _ :: _ => exists m', remove m q = Some m' /\ n' = Dir (assoc_set c m' es)
    end.
Proof.
  simpl. destruct n as [|es]; [discriminate|].
  destruct (assoc c es) as [m|] eqn:Ea; [|discriminate]. destruct q as [|d q].
  - intros [= <-]. eauto.
  - destruct (remove m (d :: q)) as [m'|] eqn:Er; [|discriminate].
    intros [= <-]. exists es, m. eauto.
Qed.

Lemma remove_cons_inv_deep c q n n' :
  q <> [] -> remove n (c :: q) = Some n' ->
  exists es m m', n = Dir es /\ assoc c es = Some m /\
    remove m q = Some m' /\ n' = Dir (assoc_set c m' es).
Proof.
  intros Hne Hr. apply remove_cons_inv in Hr as (es & m & -> & Ha & Hq).
  destruct q; [congruence|]. destruct Hq as (m' & Hq & ->). eauto 10.
Qed.

Lemma remove_lookup_same n p n' q :
  remove n p = Some n' -> lookup n' (p ++ q) = None.
Proof.
  revert n n'. induction p as [|c p IH]; intros n n' Hr; [discriminate|].
  apply remove_cons_inv in Hr as (es & m & -> & Ha & Hq). simpl.
  destruct p as [|d p].
  - subst n'. simpl. now rewrite assoc_del_same.
  - destruct Hq as (m' & Hq & ->). simpl. rewrite assoc_set_same.
    now apply IH in Hq.
Qed.

Lemma remove_lookup_diverge n p n' q :
  remove n p = Some n' -> diverge p q = true -> lookup n' q = lookup n q.
Proof.
  revert n n' q. induction p as [|c p IH]; intros n n' q Hr Hd; [discriminate|].
  destruct q as [|d q]; [discriminate|]. simpl in Hd.
  apply remove_cons_inv in Hr as (es & m & -> & Ha & Hq). simpl.
  destruct (String.eqb_spec c d) as [->|Hne].
  - destruct p as [|c' p]; [discriminate|].
    destruct Hq as (m' & Hq & ->). simpl. rewrite assoc_set_same, Ha. eauto.
  - destruct p as [|c' p].
    + subst n'. simpl. now rewrite assoc_del_other.
    + destruct Hq as (m' & Hq & ->). simpl. now rewrite assoc_set_other.
Qed.

Lemma remove_lookup_above n q c t n' :
  remove n (q ++ c :: t) = Some n' ->
  is_dir_node (lookup n q) = true /\ is_dir_node (lookup n' q) = true.
Proof.
  revert n n'. induction q as [|d q IH]; intros n n' Hr.
  - simpl in Hr. apply remove_cons_inv in Hr as (es & m & -> & _ & Hq).
    destruct t; [subst; now simpl | destruct Hq as (? & _ & ->); now simpl].
  - simpl app in Hr.
    apply remove_cons_inv_deep in Hr as (es & m & m' & -> & Ha & Hq & ->);
      [|now destruct q].
    simpl. rewrite assoc_set_same, Ha. now apply IH in Hq.
Qed.

Lemma remove_exists n p m :
  p <> [] -> lookup n p = Some m -> exists n', remove n p = Some n'.
Proof.
  revert n. induction p as [|c p IH]; intros n Hne Hl; [congruence|].
  simpl in *. destruct n as [|es]; [discriminate|].
  destruct (assoc c es) as [x|]; [|discriminate].
  destruct p as [|d p]; [eauto|].
  destruct (IH x ltac:(discriminate) Hl) as [x' ->]. eauto.
Qed.

Lemma remove_root_dir es p n' :
  remove (Dir es) p = Some n' -> exists es', n' = Dir es'.
Proof.
  destruct p as [|c q]; [discriminate|]. intros Hr.
  apply remove_cons_inv in Hr as (? & ? & _ & _ & Hq).
  destruct q; [eauto | destruct Hq as (? & _ & ->); eauto].
Qed.

(** ** How two paths relate *)

Lemma path_cases (p q : list string) :
  p = q \/ (exists c t, p = q ++ c :: t) \/ (exists c t, q = p ++ c :: t)
  \/ diverge p q = true.
Proof.
  revert q. induction p as [|c p IH]; intros [|d q].
  - now left.
  - right. right. left. now exists d, q.
  - right. left. now exists c, p.
  - simpl. destruct (String.eqb_spec c d) as [->|Hne]; [|now repeat right].
    destruct (IH q) as [->|[(c' & t & ->)|[(c' & t & ->)|Hd]]].
    + now left.
    + right. left. now exists c', t.
    + right. right. left. now exists c', t.
    + now repeat right.
Qed.

Lemma diverge_sym p q : diverge p q = diverge q p.
Proof.
  revert q. induction p as [|c p IH]; intros [|d q]; simpl; auto.
  rewrite (String.eqb_sym d c). destruct (String.eqb c d); auto.
Qed.

Lemma diverge_app_r p q t : diverge p q = true -> diverge p (q ++ t) = true.
Proof.
  revert q. induction p as [|c p IH]; intros [|d q]; simpl; try discriminate.
  destruct (String.eqb c d); auto.
Qed.

Lemma diverge_app_l p q t : diverge p q = true -> diverge (p ++ t) q = true.
Proof. rewrite !(diverge_sym _ q). apply diverge_app_r. Qed.

End TreeFacts.

Global Instance grows_refl : Reflexive grows.
Proof. intros s. repeat split; auto. Qed.

Global Instance grows_trans : Transitive grows.
Proof.
  intros s1 s2 s3 (C1 & P1 & D1) (C2 & P2 & D2). repeat split; try congruence.
  - intros Hx. now apply D2, D1.
  - intros Hx. now apply D2, D1.
Qed.

Import TreeFacts.

Lemma place_dirs_preserved r p x r' :
  Tree.place r p x = Some r' -> is_dir_node (Tree.lookup r p) = false ->
  dirs_preserved r r'.
Proof.
  intros Hp Hn q.
  destruct (path_cases p q) as [->|[(c & t & ->)|[(c & t & ->)|Hd]]].
  - split; [congruence|]. intros _. now rewrite (place_lookup_same _ _ _ _ Hp).
  - apply place_lookup_above in Hp as [_ Hp]. split; [auto|].
    intros _. now destruct (Tree.lookup r' q).
  - rewrite lookup_path_app.
    destruct (Tree.lookup r p) as [[|es]|]; simpl in *; split; congruence.
  - now rewrite (place_lookup_diverge _ _ _ _ _ Hp Hd).
Qed.

Lemma place_keeps_files r p x r' q c0 :
  Tree.place r p x = Some r' -> is_dir_node (Tree.lookup r p) = false ->
  q <> p -> Tree.lookup r q = Some (File c0) -> Tree.lookup r' q = Some (File c0).
Proof.
  intros Hp Hn Hne Hq.
  destruct (path_cases p q) as [->|[(c & t & ->)|[(c & t & ->)|Hd]]].
  - congruence.
  - apply place_lookup_above in Hp as [Hd _]. rewrite Hq in Hd. discriminate.
  - rewrite lookup_path_app in Hq.
    destruct (Tree.lookup r p) as [[|es]|]; simpl in *; congruence.
  - now rewrite (place_lookup_diverge _ _ _ _ _ Hp Hd).
Qed.

Lemma namei_lexical r cur comps p :
  os.namei r cur comps = Ok p -> p = lexical cur comps.
Proof.
  revert cur. induction comps as [|c rest IH]; intros cur; simpl.
  - congruence.
  - destruct (Tree.lookup r cur) as [[|es]|]; try discriminate.
    destruct (_ || _)%bool; [apply IH|].
    destruct (String.eqb c ".."); apply IH.
Qed.

Lemma namei_preserved r r' cur comps p :
  dirs_preserved r r' -> os.namei r cur comps = Ok p -> os.namei r' cur comps = Ok p.
Proof.
  intros Hd. revert cur. induction comps as [|c rest IH]; intros cur; simpl; [auto|].
  destruct (Tree.lookup r cur) as [[|es]|] eqn:El; try discriminate.
  assert (H' : is_dir_node (Tree.lookup r' cur) = true) by (apply Hd; now rewrite El).
  destruct (Tree.lookup r' cur) as [[|es']|]; try discriminate.
  destruct (_ || _)%bool; [apply IH|].
  destruct (String.eqb c ".."); apply IH.
Qed.

Lemma resolve_inv path s r s' :
  os.resolve path s = (r, s') ->
  s' = s /\ r = (if String.eqb path EmptyString then Raise FileNotFoundError
                 else os.namei (os.root_node s)
                        (if PyStr.startswith_slash path then [] else cwd s)
                        (PyStr.split_slash path)).
Proof.
  unfold os.resolve. destruct (String.eqb path EmptyString); intros [= <- <-]; auto.
Qed.

Lemma resolve_grows path s s' p :
  grows s s' -> os.resolve path s = (Ok p, s) -> os.resolve path s' = (Ok p, s').
Proof.
  intros (Hc & _ & Hd) Hr. apply resolve_inv in Hr as [_ Hr].
  unfold os.resolve. destruct (String.eqb path EmptyString); [discriminate|].
  rewrite Hc. symmetry in Hr. now rewrite (namei_preserved _ _ _ _ _ Hd Hr).
Qed.

Lemma resolve_lexical path s p :
  os.resolve path s = (Ok p, s) ->
  p = lexical (if PyStr.startswith_slash path then [] else cwd s)
              (PyStr.split_slash path).
Proof.
  intros Hr. apply resolve_inv in Hr as [_ Hr].
  destruct (String.eqb path EmptyString); [discriminate|].
  symmetry in Hr. now apply namei_lexical in Hr.
Qed.

(** ** What the system calls do to the tree *)

Lemma put_node_inv p x s s' :
  os.put_node p x s = (Ok tt, s') ->
  exists es', Tree.place (os.root_node s) p x = Some (Dir es') /\
              s' = os.with_root es' s.
Proof.
  unfold os.put_node. destruct (Tree.place _ p x) as [[|es']|]; try discriminate.
  intros [= <-]. eauto.
Qed.

Lemma del_node_inv p s s' :
  os.del_node p s = (Ok tt, s') ->
  exists es', Tree.remove (os.root_node s) p = Some (Dir es') /\
              s' = os.with_root es' s.
Proof.
  unfold os.del_node. destruct (Tree.remove _ p) as [[|es']|]; try discriminate.
  intros [= <-]. eauto.
Qed.

Lemma put_node_Raise p x s e s' : os.put_node p x s = (Raise e, s') -> s' = s.
Proof.
  unfold os.put_node. destruct (Tree.place _ p x) as [[|es']|]; congruence.
Qed.

Lemma del_node_Raise p s e s' : os.del_node p s = (Raise e, s') -> s' = s.
Proof.
  unfold os.del_node. destruct (Tree.remove _ p) as [[|es']|]; congruence.
Qed.

(** A step of a computation whose first action is read-only *)
Ltac ro_step H x E :=
  apply bind_inv in H as [(x & ?s & E & H)|(?e & E & ?)];
  [ match type of E with
    | ?m ?s0 = (_, ?s1) =>
        let Hs := fresh "Hs" in
        assert (Hs : s1 = s0)
          by (eapply (readonly_eq m); [solve [frame] | exact E]);
        subst s1
    end
  | try discriminate ].

Lemma write_file_inv path c s s' :
  os.write_file path c s = (Ok tt, s') ->
  exists p es',
    os.resolve path s = (Ok p, s) /\
    is_dir_node (Tree.lookup (os.root_node s) p) = false /\
    Tree.place (os.root_node s) p (File c) = Some (Dir es') /\
    s' = os.with_root es' s.
Proof.
  unfold os.write_file. intros H.
  ro_step H p Ep. ro_step H n En.
  unfold os.node_at in En. injection En as <-.
  destruct (Tree.lookup (os.root_node s) p) as [[|es]|] eqn:El;
    try discriminate;
    apply put_node_inv in H as (es' & Hp & ->); exists p, es'; rewrite ?El; auto.
Qed.

Lemma mkdir_inv path s s' :
  os.mkdir path s = (Ok tt, s') ->
  exists p es',
    os.resolve path s = (Ok p, s) /\
    Tree.lookup (os.root_node s) p = None /\
    Tree.place (os.root_node s) p (Dir []) = Some (Dir es') /\
    s' = os.with_root es' s.
Proof.
  unfold os.mkdir. intros H.
  ro_step H p Ep. ro_step H n En.
  unfold os.node_at in En. injection En as <-.
  destruct (Tree.lookup (os.root_node s) p) as [x|] eqn:El; [discriminate|].
  apply put_node_inv in H as (es' & Hp & ->). exists p, es'. auto.
Qed.

Lemma grows_with_root es' s :
  dirs_preserved (os.root_node s) (Dir es') -> grows s (os.with_root es' s).
Proof. intros Hd. split; [reflexivity|]. split; [reflexivity|]. exact Hd. Qed.

Lemma stays_Ok_or_same (R : relation state) `{!Reflexive R} {A} (m : M A) :
  (forall s a s', m s = (Ok a, s') -> R s s') ->
  (forall s e s', m s = (Raise e, s') -> s' = s) ->
  stays R m.
Proof.
  intros Hok Herr s. destruct (m s) as [[a|e] s'] eqn:E; simpl.
  - eauto.
  - apply Herr in E. subst. reflexivity.
Qed.

Lemma write_file_Raise path c s e s' :
  os.write_file path c s = (Raise e, s') -> s' = s.
Proof.
  unfold os.write_file. intros H.
  apply bind_inv in H as [(p & s1 & Ep & H)|(e1 & Ep & _)];
    [|now apply (readonly_eq _ _ _ _ (resolve_readonly path)) in Ep].
  apply (readonly_eq _ _ _ _ (resolve_readonly path)) in Ep as ->.
  unfold bind, os.node_at in H.
  destruct (Tree.lookup (os.root_node s) p) as [[|es]|];
    try (now apply put_node_Raise in H); now inversion H.
Qed.

Lemma mkdir_Raise path s e s' : os.mkdir path s = (Raise e, s') -> s' = s.
Proof.
  unfold os.mkdir. intros H.
  apply bind_inv in H as [(p & s1 & Ep & H)|(e1 & Ep & _)];
    [|now apply (readonly_eq _ _ _ _ (resolve_readonly path)) in Ep].
  apply (readonly_eq _ _ _ _ (resolve_readonly path)) in Ep as ->.
  unfold bind, os.node_at in H.
  destruct (Tree.lookup (os.root_node s) p) as [x|];
    [now inversion H | now apply put_node_Raise in H].
Qed.

Lemma write_file_grows path c : stays grows (os.write_file path c).
Proof.
  apply stays_Ok_or_same; [typeclasses eauto | |].
  - intros s [] s' H. apply write_file_inv in H as (p & es' & _ & Hn & Hp & ->).
    apply grows_with_root. eapply place_dirs_preserved; eauto.
  - intros s e s'. apply write_file_Raise.
Qed.

Lemma mkdir_grows path : stays grows (os.mkdir path).
Proof.
  apply stays_Ok_or_same; [typeclasses eauto | |].
  - intros s [] s' H. apply mkdir_inv in H as (p & es' & _ & Hn & Hp & ->).
    apply grows_with_root. eapply place_dirs_preserved; eauto. now rewrite Hn.
  - intros s e s'. apply mkdir_Raise.
Qed.

#[global] Hint Resolve write_file_grows mkdir_grows : frame.

Lemma readonly_grows {A} (m : M A) : readonly m -> stays grows m.
Proof. apply readonly_stays. typeclasses eauto. Qed.

#[global] Hint Extern 5 (stays grows _) =>
  (apply readonly_grows; solve [eauto with frame]) : frame.

Lemma mkdir_plain_grows p exist_ok : stays grows (PathM.mkdir_plain p exist_ok).
Proof. unfold PathM.mkdir_plain. frame. Qed.
#[global] Hint Resolve mkdir_plain_grows : frame.

Lemma mkdir_parents_grows a rparts exist_ok :
  stays grows (PathM.mkdir_parents a rparts exist_ok).
Proof.
  revert exist_ok. induction rparts as [|c r IH]; intros exist_ok; simpl; frame.
Qed.
#[global] Hint Resolve mkdir_parents_grows : frame.

Lemma Path_mkdir_grows p parents exist_ok : stays grows (PathM.mkdir p parents exist_ok).
Proof. unfold PathM.mkdir. destruct parents; eauto with frame. Qed.

Lemma Path_write_text_grows p data : stays grows (PathM.write_text p data).
Proof. apply write_file_grows. Qed.
#[global] Hint Resolve Path_mkdir_grows Path_write_text_grows : frame.

Lemma enter_grows l : stays grows (FileLock.enter l).
Proof. unfold FileLock.enter. frame. Qed.
#[global] Hint Resolve enter_grows : frame.

Import TreeFacts.

(** ** [stat] and its readers, in terms of the tree *)

Lemma stat_inv path s n s' :
  os.stat path s = (Ok n, s') ->
  s' = s /\ exists p, os.resolve path s = (Ok p, s) /\
                      Tree.lookup (os.root_node s) p = Some n.
Proof.
  intros H. pose proof (readonly_eq _ _ _ _ (stat_readonly path) H) as ->.
  split; [reflexivity|]. unfold os.stat in H.
  ro_step H p Ep. ro_step H o Eo. unfold os.node_at in Eo. injection Eo as <-.
  destruct (Tree.lookup (os.root_node s) p) as [x|] eqn:El; [|discriminate].
  injection H as <-. eauto.
Qed.

Lemma stat_intro path s p n :
  os.resolve path s = (Ok p, s) -> Tree.lookup (os.root_node s) p = Some n ->
  os.stat path s = (Ok n, s).
Proof.
  intros Hr Hl. unfold os.stat. rewrite (bind_Ok _ _ _ _ _ Hr).
  unfold bind, os.node_at. now rewrite Hl.
Qed.

Lemma read_file_inv path s c s' :
  os.read_file path s = (Ok c, s') -> os.stat path s = (Ok (File c), s).
Proof.
  unfold os.read_file. intros H. ro_step H n En.
  destruct n; [|discriminate]. now injection H as <-.
Qed.

Lemma read_file_intro path s c :
  os.stat path s = (Ok (File c), s) -> os.read_file path s = (Ok c, s).
Proof. intros E. unfold os.read_file. now rewrite (bind_Ok _ _ _ _ _ E). Qed.

Lemma isfile_intro path s c :
  os.stat path s = (Ok (File c), s) -> os.path.isfile path s = (Ok true, s).
Proof. intros E. unfold os.path.isfile, try_except. now rewrite (bind_Ok _ _ _ _ _ E). Qed.

Lemma isdir_intro path s es :
  os.stat path s = (Ok (Dir es), s) -> os.path.isdir path s = (Ok true, s).
Proof. intros E. unfold os.path.isdir, try_except. now rewrite (bind_Ok _ _ _ _ _ E). Qed.

Lemma exists_intro path s n :
  os.stat path s = (Ok n, s) -> os.path.exists_ path s = (Ok true, s).
Proof. intros E. unfold os.path.exists_, try_except. now rewrite (bind_Ok _ _ _ _ _ E). Qed.

Lemma isdir_true_inv path s s' :
  os.path.isdir path s = (Ok true, s') -> exists es, os.stat path s = (Ok (Dir es), s).
Proof.
  unfold os.path.isdir, try_except, bind, ret.
  destruct (stat_cases path s) as [[n E]|[e E]]; rewrite E; [|discriminate].
  destruct n; [discriminate | eauto].
Qed.

Lemma isdir_grows path s s' :
  grows s s' -> os.path.isdir path s = (Ok true, s) ->
  os.path.isdir path s' = (Ok true, s').
Proof.
  intros Hg Hd. apply isdir_true_inv in Hd as [es Hs].
  apply stat_inv in Hs as (_ & p & Hr & Hl).
  pose proof Hg as (_ & _ & Hdp).
  destruct (Hdp p) as [Hdp' _]. rewrite Hl in Hdp'. specialize (Hdp' eq_refl).
  destruct (Tree.lookup (os.root_node s') p) as [[|es']|] eqn:El'; try discriminate.
  eapply isdir_intro, stat_intro; [eapply resolve_grows|]; eauto.
Qed.

Lemma exists_grows path s s' :
  grows s s' -> os.path.exists_ path s = (Ok true, s) ->
  os.path.exists_ path s' = (Ok true, s').
Proof.
  intros Hg He. apply exists_true_stat in He as [n Hs].
  apply stat_inv in Hs as (_ & p & Hr & Hl).
  pose proof Hg as (_ & _ & Hdp).
  destruct (Hdp p) as [_ Hdp']. rewrite Hl in Hdp'. specialize (Hdp' ltac:(discriminate)).
  destruct (Tree.lookup (os.root_node s') p) as [n'|] eqn:El'; [|congruence].
  eapply exists_intro, stat_intro; [eapply resolve_grows|]; eauto.
Qed.

Lemma isdir_exists path s :
  os.path.isdir path s = (Ok true, s) -> os.path.exists_ path s = (Ok true, s).
Proof. intros Hd. apply isdir_true_inv in Hd as [es Hs]. eapply exists_intro; eauto. Qed.

(** ** Making directories *)

Lemma mkdir_isdir path s s' :
  os.mkdir path s = (Ok tt, s') -> os.path.isdir path s' = (Ok true, s').
Proof.
  intros H. pose proof (mkdir_grows path s) as Hg. rewrite H in Hg. simpl in Hg.
  apply mkdir_inv in H as (p & es' & Hr & Hn & Hp & ->).
  eapply isdir_intro, stat_intro; [exact (resolve_grows _ _ _ _ Hg Hr)|].
  simpl. apply (place_lookup_same _ _ _ _ Hp).
Qed.

(** The handler of a failed [mkdir]: the error is let through only when the
    directory is there. *)
Ltac isdir_handler :=
  unfold bind;
  match goal with
  | |- context [PathM.is_dir ?q ?s1] =>
      let Ed := fresh "Ed" in
      destruct (PathM.is_dir q s1) as [[[]|?] ?s2] eqn:Ed;
      simpl; try discriminate;
      pose proof (readonly_eq _ _ _ _ (Path_is_dir_readonly q) Ed) as ->;
      intros [= <-]; exact Ed
  end.

Lemma mkdir_plain_isdir p s s' :
  PathM.mkdir_plain p true s = (Ok tt, s') -> PathM.is_dir p s' = (Ok true, s').
Proof.
  unfold PathM.mkdir_plain, try_except.
  destruct (os.mkdir (pathlib.fspath p) s) as [[[]|e] s1] eqn:Em.
  - intros [= <-]. exact (mkdir_isdir _ _ _ Em).
  - destruct e; simpl; try discriminate; isdir_handler.
Qed.

Lemma mkdir_parents_isdir a rparts s s' :
  PathM.mkdir_parents a rparts true s = (Ok tt, s') ->
  PathM.is_dir (mkPath a (rev rparts)) s' = (Ok true, s').
Proof.
  destruct rparts as [|c r]; simpl; unfold try_except;
    match goal with |- context [os.mkdir ?q s] =>
      destruct (os.mkdir q s) as [[[]|e] s1] eqn:Em end.
  - intros [= <-]. exact (mkdir_isdir _ _ _ Em).
  - destruct e; simpl; try discriminate; isdir_handler.
  - intros [= <-]. exact (mkdir_isdir _ _ _ Em).
  - destruct e; simpl; try discriminate; try isdir_handler.
    intros H. apply bind_Ok_inv in H as ([] & s2 & _ & H).
    exact (mkdir_plain_isdir _ _ _ H).
Qed.

Import TreeFacts.

(** ** The constructor *)

Lemma dict_get_pure k d : exists r, forall s, dict_get k d s = (r, s).
Proof.
  induction d as [|[k' v] d IH]; simpl.
  - now exists (Raise KeyError).
  - destruct (String.eqb k k'); [now exists (Ok v) | exact IH].
Qed.

Lemma FsStore_pure cfg : exists r, forall s, FsStore cfg s = (r, s).
Proof.
  unfold FsStore. destruct (dict_get_pure "storage" (paths cfg)) as [r Hr].
  destruct (String.eqb (location cfg) "local");
    [|destruct (String.eqb (location cfg) "s3")].
  - destruct r as [v|e].
    + exists (Ok (LocalStore v)). intros s. now rewrite (bind_Ok _ _ _ _ _ (Hr s)).
    + exists (Raise e). intros s. now rewrite (bind_Raise _ _ _ _ _ (Hr s)).
  - destruct r as [v|e].
    + exists (Ok (S3Store v)). intros s. now rewrite (bind_Ok _ _ _ _ _ (Hr s)).
    + exists (Raise e). intros s. now rewrite (bind_Raise _ _ _ _ _ (Hr s)).
  - eexists. intros s. reflexivity.
Qed.

Section constructor.
Context `{Libs}.

(** A constructed instance has its directory, and constructing it again
    where the directory exists gives the same instance and changes
    nothing. *)
Lemma init_inv cfg g id rd sync s self s0 :
  FileStorage.init cfg g id rd sync s = (Ok self, s0) ->
  FileStorage.sync self = sync /\
  PathM.exists_ (FileStorage.folder_path self) s0 = (Ok true, s0) /\
  (forall s', PathM.exists_ (FileStorage.folder_path self) s' = (Ok true, s') ->
              FileStorage.init cfg g id rd sync s' = (Ok self, s')).
Proof.
  unfold FileStorage.init.
  destruct (FsStore_pure cfg) as [rs Hs].
  destruct (dict_get_pure rd (paths cfg)) as [rc Hc].
  intros H0.
  apply bind_Ok_inv in H0 as (st & s1 & E1 & H0).
  rewrite Hs in E1. injection E1 as -> <-.
  apply bind_Ok_inv in H0 as (content & s1 & E1 & H0).
  rewrite Hc in E1. injection E1 as -> <-.
  apply bind_Ok_inv in H0 as (ex & s1 & Eex & H0).
  pose proof (readonly_eq _ _ _ _ (Path_exists_readonly _) Eex) as ->.
  apply bind_Ok_inv in H0 as ([] & s1 & Emk & H0).
  injection H0 as <- <-. simpl. split; [reflexivity|]. split.
  - destruct ex; simpl in Emk.
    + now injection Emk as <-.
    + unfold PathM.mkdir in Emk. apply mkdir_parents_isdir in Emk.
      rewrite rev_involutive in Emk. now apply isdir_exists.
  - intros s' Hex. rewrite (bind_Ok _ _ _ _ _ (Hs s')).
    rewrite (bind_Ok _ _ _ _ _ (Hc s')). rewrite (bind_Ok _ _ _ _ _ Hex).
    reflexivity.
Qed.
End constructor.

Import TreeFacts.

(** ** The directory lock *)

Lemma with_lock_inv {A} (p : Path) (body : M A) s a s' :
  FileLock.with_ p body s = (Ok a, s') ->
  exists sl, FileLock.enter (FileLock.init p) s = (Ok tt, sl) /\
             body sl = (Ok a, s').
Proof.
  unfold FileLock.with_. intros H.
  apply bind_Ok_inv in H as ([] & sl & He & H). exists sl. split; [exact He|].
  unfold try_finally, FileLock.exit, ret in H.
  destruct (body sl) as [r s2]. now injection H as -> ->.
Qed.

Lemma enter_not_posix l s : posix s = false -> FileLock.enter l s = (Ok tt, s).
Proof. intros Hp. unfold FileLock.enter, bind, get_state. now rewrite Hp. Qed.

Lemma enter_inv l s sl :
  FileLock.enter l s = (Ok tt, sl) ->
  grows s sl /\
  (posix s = true ->
   exists c, os.read_file (pathlib.fspath (FileLock._lock_file_path l)) sl = (Ok c, sl)).
Proof.
  intros He. split.
  - pose proof (enter_grows l s) as Hg. now rewrite He in Hg.
  - intros Hp. unfold FileLock.enter, bind at 1, get_state in He.
    rewrite Hp in He. simpl in He.
    apply bind_Ok_inv in He as (f & s1 & _ & He).
    apply bind_Ok_inv in He as ([] & s2 & _ & He).
    unfold try_except in He.
    destruct (bind _ _ s2) as [[[]|e] s3] eqn:Er.
    + injection He as ->.
      apply bind_Ok_inv in Er as (c & s4 & Er & Hret). injection Hret as ->.
      pose proof (readonly_eq _ _ _ _ (read_file_readonly _) Er) as ->.
      exists c. exact Er.
    + destruct e; discriminate.
Qed.

Lemma read_after_write path c s s' :
  os.write_file path c s = (Ok tt, s') -> os.read_file path s' = (Ok c, s').
Proof.
  intros Hw. pose proof (write_file_grows path c s) as Hg. rewrite Hw in Hg.
  apply write_file_inv in Hw as (p & es' & Hr & _ & Hp & ->).
  apply read_file_intro. eapply stat_intro; [exact (resolve_grows _ _ _ _ Hg Hr)|].
  exact (place_lookup_same _ _ _ _ Hp).
Qed.

Lemma file_stays_file_after_write path c s s' q c0 :
  os.write_file path c s = (Ok tt, s') ->
  os.read_file q s = (Ok c0, s) ->
  exists c1, os.read_file q s' = (Ok c1, s').
Proof.
  intros Hw Hq. pose proof (write_file_grows path c s) as Hg. rewrite Hw in Hg.
  apply write_file_inv in Hw as (p & es' & Hr & Hn & Hp & ->).
  apply read_file_inv, stat_inv in Hq as (_ & pq & Hrq & Hlq).
  destruct (decide (pq = p)) as [->|Hne].
  - exists c. apply read_file_intro.
    eapply stat_intro; [exact (resolve_grows _ _ _ _ Hg Hrq)|].
    exact (place_lookup_same _ _ _ _ Hp).
  - exists c0. apply read_file_intro.
    eapply stat_intro; [exact (resolve_grows _ _ _ _ Hg Hrq)|].
    exact (place_keeps_files _ _ _ _ _ _ Hp Hn Hne Hlq).
Qed.

Lemma enter_again_after_write l s sl path c s1 :
  FileLock.enter l s = (Ok tt, sl) ->
  os.write_file path c sl = (Ok tt, s1) ->
  FileLock.enter l s1 = (Ok tt, s1).
Proof.
  intros He Hw. pose proof (write_file_grows path c sl) as Hg. rewrite Hw in Hg.
  apply enter_inv in He as [(_ & Hps & _) Hl]. destruct Hg as (_ & Hp1 & _).
  simpl in Hp1. destruct (posix s) eqn:Hp.
  - destruct (Hl eq_refl) as [c0 Hr].
    destruct (file_stays_file_after_write _ _ _ _ _ _ Hw Hr) as [c1 Hr1].
    destruct l as [lp ln lf]. simpl in *.
    unfold FileLock.enter, bind at 1, get_state.
    assert (Hp' : posix s1 = true) by congruence. rewrite Hp'. simpl.
    rewrite bind_Ok with (a := true) (s1 := s1);
      [|eapply isfile_intro, read_file_inv; exact Hr1].
    simpl. unfold bind at 1, ret at 1. unfold try_except.
    now rewrite (bind_Ok _ _ _ _ _ Hr1).
  - apply enter_not_posix. congruence.
Qed.

Section round_trip.
Context `{Libs}.

Lemma file_set_then_file_get_unsynced cfg g id rd name content s self s0 s1 :
  FileStorage.init cfg g id rd false s = (Ok self, s0) ->
  FileStorage.file_set self name content s0 = (Ok tt, s1) ->
  (let! fresh := FileStorage.init cfg g id rd false in
   FileStorage.file_get fresh name) s1 = (Ok (Bytes content), s1).
Proof.
  intros Hinit Hset. apply init_inv in Hinit as (Hsync & Hex & Hre).
  unfold FileStorage.file_set in Hset. rewrite Hsync in Hset. simpl in Hset.
  apply with_lock_inv in Hset as (sl & He & Hb).
  apply bind_Ok_inv in Hb as ([] & s2 & E2 & Hb).
  assert (s2 = sl) by (now injection E2). subst s2.
  apply bind_Ok_inv in Hb as ([] & s2 & Hw & Hb).
  assert (s2 = s1) by (now injection Hb). subst s2.
  assert (Hg : grows s0 s1).
  { transitivity sl.
    - pose proof (enter_grows (FileLock.init (FileStorage.folder_path self)) s0) as G.
      now rewrite He in G.
    - match type of Hw with os.write_file ?p _ _ = _ =>
        pose proof (write_file_grows p (Bytes content) sl) as G end.
      now rewrite Hw in G. }
  rewrite (bind_Ok _ _ _ _ _ (Hre s1 (exists_grows _ _ _ Hg Hex))).
  unfold FileStorage.file_get. rewrite Hsync. simpl.
  rewrite (with_lock_run _ _ _ _ (enter_again_after_write _ _ _ _ _ _ He Hw)).
  unfold bind at 1, ret at 1.
  exact (read_after_write _ _ _ _ Hw).
Qed.
End round_trip.

Import TreeFacts.

(** * Paths written with plain names *)

Module PlainFacts.

Lemma append_cons x (a b : string) : String x a +:+ b = String x (a +:+ b).
Proof. reflexivity. Qed.

Lemma append_nil (b : string) : EmptyString +:+ b = b.
Proof. reflexivity. Qed.

Lemma append_assoc (a b c : string) : (a +:+ b) +:+ c = a +:+ b +:+ c.
Proof.
  induction a as [|x a IH]; [reflexivity|]. rewrite !append_cons. now f_equal.
Qed.

Lemma split_no_slash c : no_slash c = true -> PyStr.split_slash c = [c].
Proof.
  induction c as [|a c IH]; simpl; [reflexivity|].
  destruct (Ascii.eqb a "/"); simpl; [discriminate|].
  intros Hc. now rewrite IH.
Qed.

Lemma split_app_slash c s :
  no_slash c = true ->
  PyStr.split_slash (c +:+ "/" +:+ s) = c :: PyStr.split_slash s.
Proof.
  induction c as [|a c IH]; [reflexivity|]. rewrite append_cons. simpl.
  destruct (Ascii.eqb a "/"); simpl; [discriminate|].
  intros Hc. now rewrite IH.
Qed.

Lemma plain_no_slash c : plain_name c = true -> no_slash c = true.
Proof. unfold plain_name. intros H. now apply andb_prop in H as [_ H]. Qed.

Lemma plain_not_special c :
  plain_name c = true ->
  (String.eqb c EmptyString || String.eqb c ".")%bool = false /\
  String.eqb c ".." = false.
Proof.
  unfold plain_name. intros H.
  apply andb_prop in H as [H _]. apply andb_prop in H as [H H3].
  apply andb_prop in H as [H1 H2].
  apply negb_true_iff in H1, H2, H3. now rewrite H1, H2, H3.
Qed.

Lemma split_join l :
  l <> [] -> forallb plain_name l = true ->
  PyStr.split_slash (PyStr.join_slash l) = l.
Proof.
  induction l as [|c l IH]; [congruence|]. intros _ Hl.
  apply andb_prop in Hl as [Hc Hl]. destruct l as [|d l].
  - simpl. now apply split_no_slash, plain_no_slash.
  - change (PyStr.join_slash (c :: d :: l))
      with (c +:+ "/" +:+ PyStr.join_slash (d :: l)).
    rewrite split_app_slash by now apply plain_no_slash.
    now rewrite IH.
Qed.

Lemma join_snoc l c :
  l <> [] -> PyStr.join_slash (l ++ [c]) = PyStr.join_slash l +:+ "/" +:+ c.
Proof.
  induction l as [|d l IH]; [congruence|]. intros _. destruct l as [|d' l].
  - reflexivity.
  - change (PyStr.join_slash ((d :: d' :: l) ++ [c]))
      with (d +:+ "/" +:+ PyStr.join_slash ((d' :: l) ++ [c])).
    rewrite IH by discriminate.
    change (PyStr.join_slash (d :: d' :: l))
      with (d +:+ "/" +:+ PyStr.join_slash (d' :: l)).
    now rewrite !append_assoc.
Qed.

(** ** Absolute paths *)

Lemma fspath_abs l : pathlib.fspath (mkPath true l) = abs_str l.
Proof. reflexivity. Qed.

Lemma abs_str_cons l : abs_str l = String "/" (PyStr.join_slash l).
Proof. reflexivity. Qed.

Lemma split_abs l :
  l <> [] -> forallb plain_name l = true ->
  PyStr.split_slash (abs_str l) = EmptyString :: l.
Proof. intros Hne Hl. rewrite abs_str_cons. simpl. now rewrite split_join. Qed.

Lemma abs_snoc l c :
  l <> [] -> abs_str (l ++ [c]) = abs_str l +:+ "/" +:+ c.
Proof.
  intros Hne. unfold abs_str. rewrite join_snoc by assumption.
  now rewrite append_assoc.
Qed.

(** ** Resolution of plain components *)

Lemma namei_plain r cur l :
  forallb plain_name l = true ->
  (forall x c t, l = x ++ c :: t -> is_dir_node (Tree.lookup r (cur ++ x)) = true) ->
  os.namei r cur l = Ok (cur ++ l).
Proof.
  revert cur. induction l as [|c l IH]; intros cur Hl Hd; simpl.
  - now rewrite app_nil_r.
  - apply andb_prop in Hl as [Hc Hl].
    pose proof (Hd [] c l eq_refl) as H0. rewrite app_nil_r in H0.
    destruct (Tree.lookup r cur) as [[|es]|]; try discriminate.
    destruct (plain_not_special _ Hc) as [-> ->].
    rewrite IH; [now rewrite <- app_assoc | exact Hl |].
    intros x c' t ->. rewrite <- app_assoc. apply (Hd (c :: x) c' t eq_refl).
Qed.

Lemma namei_plain_inv r cur l p :
  forallb plain_name l = true -> os.namei r cur l = Ok p ->
  p = cur ++ l /\
  (forall x c t, l = x ++ c :: t -> is_dir_node (Tree.lookup r (cur ++ x)) = true).
Proof.
  revert cur. induction l as [|c l IH]; intros cur Hl; simpl.
  - intros [= <-]. split; [now rewrite app_nil_r|]. intros [|??] ???; discriminate.
  - apply andb_prop in Hl as [Hc Hl].
    destruct (Tree.lookup r cur) as [[|es]|] eqn:El; try discriminate.
    destruct (plain_not_special _ Hc) as [-> ->]. intros Hn.
    apply IH in Hn as [-> Hd]; [|exact Hl]. split; [now rewrite <- app_assoc|].
    intros [|c0 x] c' t Heq.
    + now rewrite app_nil_r, El.
    + injection Heq as <- ->. specialize (Hd x c' t eq_refl).
      now rewrite <- app_assoc in Hd.
Qed.

Lemma resolve_abs l s :
  l <> [] -> forallb plain_name l = true ->
  os.resolve (abs_str l) s = (os.namei (os.root_node s) [] l, s).
Proof.
  intros Hne Hl. unfold os.resolve. rewrite split_abs by assumption.
  rewrite abs_str_cons. reflexivity.
Qed.

(** An absolute plain path resolves exactly when all directories above
    its last component are there, and then to its own components. *)
Lemma resolve_abs_Ok l s :
  l <> [] -> forallb plain_name l = true ->
  (forall x c t, l = x ++ c :: t ->
                 is_dir_node (Tree.lookup (os.root_node s) x) = true) ->
  os.resolve (abs_str l) s = (Ok l, s).
Proof.
  intros Hne Hl Hd. rewrite resolve_abs by assumption.
  now rewrite namei_plain.
Qed.

Lemma resolve_abs_inv l s p :
  l <> [] -> forallb plain_name l = true ->
  os.resolve (abs_str l) s = (Ok p, s) ->
  p = l /\
  (forall x c t, l = x ++ c :: t ->
                 is_dir_node (Tree.lookup (os.root_node s) x) = true).
Proof.
  intros Hne Hl Hr. rewrite resolve_abs in Hr by assumption.
  injection Hr as Hr. now apply namei_plain_inv in Hr.
Qed.

(** ** [os.path.join] and [os.path.split] *)

Lemma startswith_plain c : plain_name c = true -> PyStr.startswith_slash c = false.
Proof.
  intros Hc. apply plain_no_slash in Hc. destruct c as [|a c]; [reflexivity|].
  simpl in *. now destruct (Ascii.eqb a "/").
Qed.

Lemma endswith_append a b :
  b <> EmptyString -> PyStr.endswith_slash (a +:+ b) = PyStr.endswith_slash b.
Proof.
  intros Hb. induction a as [|x a IH]; [reflexivity|].
  rewrite append_cons. simpl. rewrite IH.
  destruct (a +:+ b) eqn:E; [|reflexivity].
  destruct a; [now rewrite append_nil in E | discriminate].
Qed.

Lemma endswith_plain c : plain_name c = true -> PyStr.endswith_slash c = false.
Proof.
  intros Hc. apply plain_no_slash in Hc.
  induction c as [|a c IH]; [reflexivity|]. simpl in *.
  destruct (Ascii.eqb a "/"); [discriminate|]. simpl in Hc.
  destruct c; [reflexivity | now apply IH].
Qed.

Lemma plain_not_empty c : plain_name c = true -> c <> EmptyString.
Proof. intros Hc ->. discriminate. Qed.

Lemma endswith_abs l :
  l <> [] -> forallb plain_name l = true -> PyStr.endswith_slash (abs_str l) = false.
Proof.
  intros Hne Hl. destruct (exists_last Hne) as (l' & c & ->).
  rewrite forallb_app in Hl. apply andb_prop in Hl as [_ Hc].
  simpl in Hc. rewrite andb_true_r in Hc.
  destruct l' as [|d l'].
  - unfold abs_str. simpl PyStr.join_slash.
    rewrite endswith_append by now apply plain_not_empty.
    now apply endswith_plain.
  - rewrite abs_snoc by discriminate.
    rewrite endswith_append; [|now destruct c].
    rewrite endswith_append by now apply plain_not_empty.
    now apply endswith_plain.
Qed.

Lemma join_abs l c :
  l <> [] -> forallb plain_name l = true -> plain_name c = true ->
  posixpath.join (abs_str l) c = abs_str (l ++ [c]).
Proof.
  intros Hne Hl Hc. unfold posixpath.join.
  rewrite startswith_plain by assumption.
  rewrite endswith_abs by assumption.
  rewrite abs_str_cons at 1. simpl. now rewrite abs_snoc.
Qed.

End PlainFacts.

Import TreeFacts PlainFacts.

(** ** Observations that changes of the tree and of the bucket leave alone *)

Lemma put_node_preserves {X} (f : state -> X) p x :
  (forall es s, f (os.with_root es s) = f s) -> preserves f (os.put_node p x).
Proof.
  intros Hf s. unfold os.put_node, same_on.
  destruct (Tree.place _ p x) as [[|es]|]; simpl; auto.
Qed.

Lemma del_node_preserves {X} (f : state -> X) p :
  (forall es s, f (os.with_root es s) = f s) -> preserves f (os.del_node p).
Proof.
  intros Hf s. unfold os.del_node, same_on.
  destruct (Tree.remove _ p) as [[|es]|]; simpl; auto.
Qed.

Lemma s3_delete_object_preserves {X} (f : state -> X) key :
  (forall b s, f (os.with_bucket b s) = f s) -> preserves f (s3.delete_object key).
Proof.
  intros Hf s. unfold s3.delete_object, s3.call, same_on.
  destruct (s3_reachable s); simpl; auto.
Qed.

#[global] Hint Extern 2 (stays (same_on _) (os.put_node _ _)) =>
  (apply put_node_preserves; reflexivity) : frame.
#[global] Hint Extern 2 (stays (same_on _) (os.del_node _)) =>
  (apply del_node_preserves; reflexivity) : frame.
#[global] Hint Extern 2 (stays (same_on _) (s3.delete_object _)) =>
  (apply s3_delete_object_preserves; reflexivity) : frame.

Lemma readonly_preserves {X A} (f : state -> X) (m : M A) :
  readonly m -> preserves f m.
Proof. intros Hm s. unfold same_on. now rewrite (Hm s). Qed.

#[global] Hint Extern 5 (stays (same_on ?f) _) =>
  (lazymatch f with
   | (fun s => s) => fail
   | _ => apply readonly_preserves; solve [eauto with frame]
   end) : frame.

Lemma rmtree_posix path : preserves posix (shutil.rmtree path).
Proof. unfold shutil.rmtree. frame. Qed.

Lemma remove_posix path : preserves posix (os.remove path).
Proof. unfold os.remove. frame. Qed.

#[global] Hint Resolve rmtree_posix remove_posix : frame.

Lemma store_delete_posix st name : preserves posix (store_delete st name).
Proof.
  destruct st; simpl.
  - unfold LocalFSStore.delete, PathM.unlink. frame.
  - unfold S3FSStore.delete. frame.
Qed.

(** ** Removal *)

Lemma rmtree_inv path s s' :
  shutil.rmtree path s = (Ok tt, s') ->
  exists p es',
    os.resolve path s = (Ok p, s) /\
    is_dir_node (Tree.lookup (os.root_node s) p) = true /\
    Tree.remove (os.root_node s) p = Some (Dir es') /\
    s' = os.with_root es' s.
Proof.
  unfold shutil.rmtree. intros H.
  ro_step H p Ep. ro_step H n En.
  unfold os.node_at in En. injection En as <-.
  destruct (Tree.lookup (os.root_node s) p) as [[|es]|] eqn:El; try discriminate.
  apply del_node_inv in H as (es' & Hp & ->). exists p, es'. rewrite El. auto.
Qed.

Lemma enter_posix l : preserves posix (FileLock.enter l).
Proof.
  intros s. pose proof (enter_grows l s) as (_ & Hp & _). exact Hp.
Qed.

(** ** Creation succeeds below an existing directory *)

Lemma put_node_succeeds q c x s :
  is_dir_node (Tree.lookup (os.root_node s) q) = true ->
  exists es', Tree.place (os.root_node s) (q ++ [c]) x = Some (Dir es') /\
              os.put_node (q ++ [c]) x s = (Ok tt, os.with_root es' s).
Proof.
  intros Hd. destruct (place_exists _ _ c x Hd) as [n' Hp].
  assert (Hne : q ++ [c] <> []) by now destruct q.
  destruct (place_root_dir _ _ _ _ Hne Hp) as [es' ->].
  exists es'. split; [exact Hp|]. unfold os.put_node. now rewrite Hp.
Qed.

Lemma mkdir_succeeds path q c s :
  os.resolve path s = (Ok (q ++ [c]), s) ->
  Tree.lookup (os.root_node s) (q ++ [c]) = None ->
  is_dir_node (Tree.lookup (os.root_node s) q) = true ->
  exists s', os.mkdir path s = (Ok tt, s').
Proof.
  intros Hr Hn Hd. destruct (put_node_succeeds q c (Dir []) s Hd) as (es' & _ & Hp).
  exists (os.with_root es' s). unfold os.mkdir.
  rewrite (bind_Ok _ _ _ _ _ Hr). unfold bind at 1, os.node_at. now rewrite Hn.
Qed.

Lemma write_file_succeeds path q c data s :
  os.resolve path s = (Ok (q ++ [c]), s) ->
  is_dir_node (Tree.lookup (os.root_node s) (q ++ [c])) = false ->
  is_dir_node (Tree.lookup (os.root_node s) q) = true ->
  exists s', os.write_file path data s = (Ok tt, s').
Proof.
  intros Hr Hn Hd. destruct (put_node_succeeds q c (File data) s Hd) as (es' & _ & Hp).
  exists (os.with_root es' s). unfold os.write_file.
  rewrite (bind_Ok _ _ _ _ _ Hr). unfold bind at 1, os.node_at.
  destruct (Tree.lookup (os.root_node s) (q ++ [c])) as [[|es]|]; try discriminate; exact Hp.
Qed.

Lemma mkdir_parents_first_try a rp exist_ok s s' :
  os.mkdir (pathlib.fspath (mkPath a (rev rp))) s = (Ok tt, s') ->
  PathM.mkdir_parents a rp exist_ok s = (Ok tt, s').
Proof.
  intros Hm. destruct rp; cbn -[pathlib.fspath rev os.mkdir];
    unfold try_except; now rewrite Hm.
Qed.

Lemma stat_missing_parent l c s :
  l <> [] -> forallb plain_name (l ++ [c]) = true ->
  Tree.lookup (os.root_node s) l = None ->
  exists e, os.stat (abs_str (l ++ [c])) s = (Raise e, s).
Proof.
  intros Hne Hl Hn.
  destruct (os.resolve (abs_str (l ++ [c])) s) as [[p|e] s'] eqn:Er;
    pose proof (readonly_eq _ _ _ _ (resolve_readonly _) Er) as ->.
  - apply resolve_abs_inv in Er as [_ Hd]; [|now destruct l|exact Hl].
    specialize (Hd l c [] eq_refl). rewrite Hn in Hd. discriminate.
  - exists e. unfold os.stat. now rewrite (bind_Raise _ _ _ _ _ Er).
Qed.

Lemma enter_posix_unfold l s :
  posix s = true ->
  FileLock.enter l s
  = (let! f := PathM.is_file (FileLock._lock_file_path l) in
     when (negb f)
       (try_pass (PathM.mkdir (FileLock._local_path l) true true >>
                  PathM.write_text (FileLock._lock_file_path l) EmptyString)) >>
     try_except
       (let! _ := os.read_file (pathlib.fspath (FileLock._lock_file_path l)) in ret tt)
       (fun e => match e with
                 | ValueError | FileNotFoundError => raise FileNotFoundError
                 | _ => raise e
                 end)) s.
Proof. intros Hp. unfold FileLock.enter, bind at 1, get_state. now rewrite Hp. Qed.

Section C4.
Context `{Libs}.
Variable self : FileStorage.t.
Variable l : list string.
Hypothesis Hfolder : FileStorage.folder_path self = mkPath true l.
Hypothesis Hplain : forallb plain_name l = true.
Hypothesis Hne : l <> [].

Let lock := FileLock.init (FileStorage.folder_path self).

Lemma delete_root_inv s s1 :
  FileStorage.delete self "." s = (Ok tt, s1) ->
  exists sd es',
    posix sd = posix s /\
    os.resolve (abs_str l) sd = (Ok l, sd) /\
    Tree.remove (os.root_node sd) l = Some (Dir es') /\
    s1 = os.with_root es' sd.
Proof.
  unfold FileStorage.delete. intros Hd.
  apply with_lock_inv in Hd as (sl & He & Hb).
  change (pathlib.of_str ".") with (mkPath false []) in Hb.
  simpl in Hb. unfold bind at 1 2, PathM.resolve in Hb.
  rewrite Hfolder in Hb. unfold pathlib.joinpath in Hb. simpl in Hb.
  rewrite app_nil_r in Hb. rewrite bool_decide_eq_true_2 in Hb by reflexivity.
  unfold FileStorage._complete_removal in Hb.
  apply bind_Ok_inv in Hb as ([] & sd & Hsd & Hrm).
  rewrite Hfolder, fspath_abs in Hrm.
  apply rmtree_inv in Hrm as (p & es' & Hr & _ & Hrem & ->).
  destruct (resolve_abs_inv _ _ _ Hne Hplain Hr) as [-> _].
  exists sd, es'. repeat split; auto.
  pose proof (store_delete_posix (FileStorage.fs_store self)
                (FileStorage.folder_name self) sl) as P1.
  rewrite Hsd in P1. pose proof (enter_posix lock s) as P2.
  unfold lock in P2. rewrite He in P2. unfold same_on in *. simpl in *. congruence.
Qed.

Lemma lock_path : FileLock._lock_file_path lock = mkPath true (l ++ ["dir.lock"]).
Proof. unfold lock. now rewrite Hfolder. Qed.

Lemma local_path : FileLock._local_path lock = mkPath true l.
Proof. unfold lock. now rewrite Hfolder. Qed.

Lemma plain_lock : forallb plain_name (l ++ ["dir.lock"]) = true.
Proof. rewrite forallb_app, Hplain. reflexivity. Qed.

(** After the full removal the directory is gone, and acquiring the lock
    again makes the directory and the lock file anew. *)
Lemma removed_then_locked sd es' :
  posix sd = true ->
  os.resolve (abs_str l) sd = (Ok l, sd) ->
  Tree.remove (os.root_node sd) l = Some (Dir es') ->
  let s1 := os.with_root es' sd in
  PathM.exists_ (FileStorage.folder_path self) s1 = (Ok false, s1) /\
  exists s2,
    FileLock.enter lock s1 = (Ok tt, s2) /\
    PathM.is_dir (FileStorage.folder_path self) s2 = (Ok true, s2) /\
    PathM.is_file (FileLock._lock_file_path lock) s2 = (Ok true, s2).
Proof.
  intros Hposix Hr Hrem s1.
  destruct (resolve_abs_inv _ _ _ Hne Hplain Hr) as [_ Hdirs].
  assert (Hgone : Tree.lookup (os.root_node s1) l = None).
  { pose proof (remove_lookup_same _ _ _ [] Hrem) as G. now rewrite app_nil_r in G. }
  assert (Hdirs1 : forall x c t, l = x ++ c :: t ->
            is_dir_node (Tree.lookup (os.root_node s1) x) = true).
  { intros x c t ->. now apply remove_lookup_above in Hrem. }
  assert (Hr1 : os.resolve (abs_str l) s1 = (Ok l, s1))
    by now apply resolve_abs_Ok.
  split.
  { unfold PathM.exists_. rewrite Hfolder, fspath_abs.
    apply stat_Raise_exists with FileNotFoundError.
    unfold os.stat. rewrite (bind_Ok _ _ _ _ _ Hr1).
    unfold bind, os.node_at. now rewrite Hgone. }
  destruct (exists_last Hne) as (q & c & Hl).
  (* the directory is made *)
  assert (Hq : is_dir_node (Tree.lookup (os.root_node s1) q) = true)
    by (apply (Hdirs1 q c []); exact Hl).
  destruct (mkdir_succeeds (abs_str l) q c s1) as [s2 Hmk]; rewrite <- ?Hl; auto.
  pose proof (mkdir_isdir _ _ _ Hmk) as Hd2.
  pose proof (mkdir_grows (abs_str l) s1) as Hg12. rewrite Hmk in Hg12. simpl in Hg12.
  (* the lock file is written *)
  pose proof Hmk as Hmk'.
  apply mkdir_inv in Hmk' as (p & es2 & Hrp & _ & Hp2 & Hs2).
  rewrite Hr1 in Hrp. injection Hrp as <-.
  assert (Hl2 : Tree.lookup (os.root_node s2) l = Some (Dir [])).
  { rewrite Hs2. exact (place_lookup_same _ _ _ _ Hp2). }
  assert (Hrl : os.resolve (abs_str (l ++ ["dir.lock"])) s2
                = (Ok (l ++ ["dir.lock"]), s2)).
  { apply resolve_abs_Ok; [now destruct l | exact plain_lock |].
    intros x c' t Heq.
    destruct (decide (x = l)) as [->|Hx]; [now rewrite Hl2|].
    assert (exists t', l = x ++ c' :: t') as [t' Hxl].
    { destruct t as [|d t] using rev_ind.
      - apply app_inj_tail in Heq as [-> _]. congruence.
      - clear IHt. rewrite app_comm_cons, app_assoc in Heq.
        apply app_inj_tail in Heq as [-> _]. eauto. }
    destruct Hg12 as (_ & _ & Hkeep). apply Hkeep. eapply Hdirs1; eauto. }
  destruct (write_file_succeeds (abs_str (l ++ ["dir.lock"])) l "dir.lock"
              (Bytes EmptyString) s2) as [s3 Hw]; auto.
  { rewrite lookup_path_app, Hl2. reflexivity. }
  { now rewrite Hl2. }
  pose proof (read_after_write _ _ _ _ Hw) as Hread.
  pose proof (write_file_grows (abs_str (l ++ ["dir.lock"])) (Bytes EmptyString) s2)
    as Hg23. rewrite Hw in Hg23. simpl in Hg23.
  exists s3. repeat split.
  - rewrite enter_posix_unfold by exact Hposix.
    rewrite lock_path, local_path.
    rewrite bind_Ok with (a := false) (s1 := s1).
    2:{ destruct (stat_missing_parent l "dir.lock" s1 Hne plain_lock Hgone) as [e He].
        unfold PathM.is_file. rewrite fspath_abs.
        exact (stat_Raise_isfile _ _ _ He). }
    cbn [negb when]. rewrite bind_Ok with (a := tt) (s1 := s3).
    2:{ rewrite try_pass_Ok.
        rewrite bind_Ok with (a := tt) (s1 := s2).
        - unfold PathM.write_text. rewrite fspath_abs. now rewrite Hw.
        - unfold PathM.mkdir. apply mkdir_parents_first_try.
          cbn [anchor parts]. rewrite rev_involutive, fspath_abs. exact Hmk. }
    unfold try_except. rewrite fspath_abs. now rewrite (bind_Ok _ _ _ _ _ Hread).
  - unfold PathM.is_dir. rewrite Hfolder, fspath_abs.
    exact (isdir_grows _ _ _ Hg23 Hd2).
  - rewrite lock_path. unfold PathM.is_file. rewrite fspath_abs.
    eapply isfile_intro, read_file_inv. exact Hread.
Qed.

(** C4 (amended).  After [delete()] on the resource root the local
    resource directory is gone, but the instance keeps no deleted state:
    the lock acquisition that opens every further operation on it
    succeeds and makes the resource directory and its lock file anew,
    and [pull], for one, returns normally after it. *)
Theorem delete_root_keeps_instance_usable s s1 :
  posix s = true ->
  FileStorage.delete self "." s = (Ok tt, s1) ->
  PathM.exists_ (FileStorage.folder_path self) s1 = (Ok false, s1) /\
  exists s2,
    FileLock.enter lock s1 = (Ok tt, s2) /\
    PathM.is_dir (FileStorage.folder_path self) s2 = (Ok true, s2) /\
    PathM.is_file (FileLock._lock_file_path lock) s2 = (Ok true, s2) /\
    FileStorage.pull self s1
    = (Ok tt, snd (store_get (FileStorage.fs_store self)
                     (FileStorage.folder_name self)
                     (pathlib.fspath (FileStorage.resource_group_path self)) s2)).
Proof.
  intros Hposix Hd.
  apply delete_root_inv in Hd as (sd & es' & Hp & Hr & Hrem & ->).
  destruct (removed_then_locked sd es') as (Hgone & s2 & He & Hdir & Hfile);
    [congruence | exact Hr | exact Hrem |].
  split; [exact Hgone|]. exists s2. repeat split; try assumption.
  unfold FileStorage.pull. rewrite (with_lock_run _ _ _ _ He).
  unfold FileStorage._pull_no_lock. now rewrite try_pass_Ok.
Qed.
End C4.

Import TreeFacts PlainFacts.

Global Instance same_off_refl l : Reflexive (same_off l).
Proof. now intros s x. Qed.

Global Instance same_off_trans l : Transitive (same_off l).
Proof. intros s1 s2 s3 H1 H2 x Hx. now rewrite H2, H1. Qed.

Module MakedirsFacts.

Lemma stays_bind_known (R : relation state) {A B} (m : M A) (k : A -> M B) a0 :
  (forall s, m s = (Ok a0, s)) -> stays R (k a0) -> stays R (bind m k).
Proof. intros Hm Hk s. rewrite (bind_Ok _ _ _ _ _ (Hm s)). apply Hk. Qed.

Lemma readonly_same_off l {A} (m : M A) : readonly m -> stays (same_off l) m.
Proof. apply readonly_stays. typeclasses eauto. Qed.

Lemma prefix_snoc_middle (x l : list string) c t :
  x = l ++ c :: t -> ~ x `prefix_of` l.
Proof.
  intros -> [k Hk]. apply (f_equal length) in Hk.
  rewrite !length_app in Hk. simpl in Hk. lia.
Qed.

Lemma place_new_same_off r p x r' q :
  Tree.place r p x = Some r' -> Tree.lookup r p = None ->
  Tree.lookup x [] = Some x -> (forall c t, Tree.lookup x (c :: t) = None) ->
  ~ q `prefix_of` p -> Tree.lookup r' q = Tree.lookup r q.
Proof.
  intros Hp Hn _ Hx Hq.
  destruct (path_cases p q) as [->|[(c & t & ->)|[(c & t & ->)|Hd]]].
  - destruct Hq. reflexivity.
  - destruct Hq. now exists (c :: t).
  - rewrite (place_lookup_below _ _ _ _ _ Hp), Hx.
    now rewrite lookup_path_app, Hn.
  - exact (place_lookup_diverge _ _ _ _ _ Hp Hd).
Qed.

Lemma mkdir_same_off l l' :
  l' `prefix_of` l -> l' <> [] -> forallb plain_name l' = true ->
  stays (same_off l) (os.mkdir (abs_str l')).
Proof.
  intros Hpre Hne Hl. apply stays_Ok_or_same; [typeclasses eauto | |].
  - intros s [] s' Hm. apply mkdir_inv in Hm as (p & es' & Hr & Hn & Hp & ->).
    apply resolve_abs_inv in Hr as [-> _]; [|assumption..].
    intros x Hx. simpl.
    apply (place_new_same_off _ _ _ _ _ Hp Hn); [reflexivity | reflexivity |].
    intros Hxl. apply Hx. now transitivity l'.
  - intros s e s'. apply mkdir_Raise.
Qed.

Lemma split_abs_snoc l c :
  l <> [] -> forallb plain_name (l ++ [c]) = true ->
  posixpath.split (abs_str (l ++ [c])) = (abs_str l, c).
Proof.
  intros Hne Hl. unfold posixpath.split.
  rewrite split_abs by (assumption || now destruct l).
  change (rev (EmptyString :: l ++ [c])) with (rev (l ++ [c]) ++ [EmptyString]).
  rewrite rev_app_distr. cbn [rev app].
  rewrite forallb_app in Hl. apply andb_prop in Hl as [Hl _].
  destruct (exists_last Hne) as (l' & d & ->).
  rewrite forallb_app in Hl. apply andb_prop in Hl as [_ Hd].
  cbn [forallb] in Hd. rewrite andb_true_r in Hd.
  rewrite rev_app_distr. cbn [rev app forallb posixpath.drop_empty].
  assert (Hd' : String.eqb EmptyString d = false).
  { destruct d; [discriminate | reflexivity]. }
  assert (Hd'' : String.eqb d EmptyString = false).
  { destruct d; [discriminate | reflexivity]. }
  rewrite Hd', Hd''. cbn [andb].
  change (d :: rev l' ++ [EmptyString]) with ((d :: rev l') ++ [EmptyString]).
  rewrite rev_app_distr. cbn [rev app]. rewrite rev_involutive.
  unfold abs_str.
  destruct (l' ++ [d]) eqn:E; [now destruct l'|]. reflexivity.
Qed.

Lemma split_abs_single c :
  plain_name c = true -> posixpath.split (abs_str [c]) = ("/", c).
Proof.
  intros Hc. unfold posixpath.split.
  rewrite split_abs by (try discriminate; simpl; now rewrite Hc).
  reflexivity.
Qed.

Lemma exists_root s : os.path.exists_ "/" s = (Ok true, s).
Proof. reflexivity. Qed.

Lemma makedirs_rec_grows fuel name exist_ok :
  stays grows (os.makedirs_rec fuel name exist_ok).
Proof.
  revert name. induction fuel as [|fuel IH]; intros name; simpl; [frame|].
  destruct (posixpath.split name) as [head0 tail0].
  destruct (if String.eqb tail0 EmptyString then _ else _) as [head tail].
  destruct (_ && _)%bool; frame.
Qed.

Lemma makedirs_grows name exist_ok : stays grows (os.makedirs name exist_ok).
Proof. apply makedirs_rec_grows. Qed.

Lemma makedirs_rec_same_off l fuel l' exist_ok :
  l' `prefix_of` l -> l' <> [] -> forallb plain_name l' = true ->
  stays (same_off l) (os.makedirs_rec fuel (abs_str l') exist_ok).
Proof.
  revert l'. induction fuel as [|fuel IH]; intros l' Hpre Hne Hl.
  - simpl. apply stays_raise. typeclasses eauto.
  - pose proof (mkdir_same_off l l' Hpre Hne Hl) as Hmk.
    assert (Hro : forall {A} (m : M A), readonly m -> stays (same_off l) m)
      by (intros; now apply readonly_same_off).
    destruct (exists_last Hne) as (l0 & c & ->).
    assert (Hc : plain_name c = true).
    { rewrite forallb_app in Hl. apply andb_prop in Hl as [_ Hc].
      simpl in Hc. now rewrite andb_true_r in Hc. }
    assert (Hc0 : String.eqb c EmptyString = false) by (destruct c; auto; discriminate).
    assert (Hc1 : String.eqb c "." = false).
    { destruct (plain_not_special _ Hc) as [Hs _].
      now apply orb_false_elim in Hs as [_ Hs]. }
    cbn [os.makedirs_rec]. destruct l0 as [|d l0].
    + change ([] ++ [c]) with [c] in *.
      rewrite split_abs_single by assumption.
      cbv beta iota zeta. rewrite !Hc0.
      change (String.eqb "/" EmptyString) with false. cbn [negb andb].
      apply stays_bind_known with (a0 := true); [intros; apply exists_root|].
      apply stays_try_except; try typeclasses eauto; [exact Hmk|].
      intros e. destruct (is_OSError e); [|apply stays_raise; typeclasses eauto].
      apply stays_bind; try typeclasses eauto; [apply Hro; eauto with frame|].
      intros dd. destruct (_ || _)%bool;
        [apply stays_raise | apply stays_ret]; typeclasses eauto.
    + rewrite split_abs_snoc by (assumption || discriminate).
      assert (Hh : String.eqb (abs_str (d :: l0)) EmptyString = false) by reflexivity.
      cbv beta iota zeta. rewrite !Hc0, Hh. cbn [negb andb].
      assert (Hmk' : stays (same_off l)
               (try_except (os.mkdir (abs_str ((d :: l0) ++ [c])))
                  (fun e => if is_OSError e
                            then let! dd := os.path.isdir (abs_str ((d :: l0) ++ [c])) in
                                 if (negb exist_ok || negb dd)%bool
                                 then raise e else ret tt
                            else raise e))).
      { apply stays_try_except; try typeclasses eauto; [exact Hmk|].
        intros e. destruct (is_OSError e); [|apply stays_raise; typeclasses eauto].
        apply stays_bind; try typeclasses eauto; [apply Hro; eauto with frame|].
        intros dd. destruct (_ || _)%bool;
          [apply stays_raise | apply stays_ret]; typeclasses eauto. }
      apply stays_bind; try typeclasses eauto; [apply Hro; eauto with frame|].
      intros [|]; [exact Hmk'|].
      apply stays_bind; try typeclasses eauto.
      * apply stays_try_except; try typeclasses eauto.
        -- apply IH; [|discriminate|].
           ++ transitivity ((d :: l0) ++ [c]); [now exists [c] | exact Hpre].
           ++ rewrite forallb_app in Hl. now apply andb_prop in Hl as [Hl _].
        -- intros e. destruct e;
             (apply stays_raise || apply stays_ret); typeclasses eauto.
      * intros _. rewrite Hc1. exact Hmk'.
Qed.

(** With [exist_ok=False] a successful [makedirs] ends in a successful
    [mkdir] of the path itself. *)
Lemma makedirs_rec_Ok_mkdir l fuel s s' :
  l <> [] -> forallb plain_name l = true ->
  os.makedirs_rec fuel (abs_str l) false s = (Ok tt, s') ->
  exists sm, grows s sm /\ same_off l s sm /\
             os.mkdir (abs_str l) sm = (Ok tt, s').
Proof.
  intros Hne Hl. destruct fuel as [|fuel]; [discriminate|].
  destruct (exists_last Hne) as (l0 & c & ->).
  assert (Hc : plain_name c = true).
  { rewrite forallb_app in Hl. apply andb_prop in Hl as [_ Hc].
    simpl in Hc. now rewrite andb_true_r in Hc. }
  assert (Hc0 : String.eqb c EmptyString = false) by (destruct c; auto; discriminate).
  assert (Hc1 : String.eqb c "." = false).
  { destruct (plain_not_special _ Hc) as [Hs _].
    now apply orb_false_elim in Hs as [_ Hs]. }
  assert (Hmk : forall sm,
    try_except (os.mkdir (abs_str (l0 ++ [c])))
      (fun e => if is_OSError e
                then let! dd := os.path.isdir (abs_str (l0 ++ [c])) in
                     if (negb false || negb dd)%bool then raise e else ret tt
                else raise e) sm = (Ok tt, s') ->
    os.mkdir (abs_str (l0 ++ [c])) sm = (Ok tt, s')).
  { intros sm. unfold try_except.
    destruct (os.mkdir (abs_str (l0 ++ [c])) sm) as [[[]|e] s2]; [auto|].
    destruct (is_OSError e); [|discriminate].
    unfold bind. destruct (os.path.isdir _ s2) as [[dd|?] ?]; discriminate. }
  cbn [os.makedirs_rec]. destruct l0 as [|d l0].
  - change ([] ++ [c]) with [c] in *.
    rewrite split_abs_single by assumption.
    cbv beta iota zeta. rewrite !Hc0.
    change (String.eqb "/" EmptyString) with false. cbn [negb andb].
    rewrite (bind_Ok _ _ _ _ _ (exists_root s)). cbv beta iota.
    intros H. exists s. split; [reflexivity|]. split; [reflexivity|]. now apply Hmk.
  - rewrite split_abs_snoc by (assumption || discriminate).
    assert (Hh : String.eqb (abs_str (d :: l0)) EmptyString = false) by reflexivity.
    cbv beta iota zeta. rewrite !Hc0, Hh. cbn [negb andb]. intros H.
    apply bind_Ok_inv in H as (ex & s1 & Eex & H).
    pose proof (readonly_eq _ _ _ _ (exists_readonly _) Eex) as ->.
    destruct ex.
    + exists s. split; [reflexivity|]. split; [reflexivity|]. now apply Hmk.
    + apply bind_Ok_inv in H as ([] & sm & Erec & H).
      rewrite Hc1 in H. exists sm. split; [|split; [|now apply Hmk]].
      * match type of Erec with ?m s = _ =>
          assert (G : stays grows m) end.
        { apply stays_try_except; try typeclasses eauto;
            [apply makedirs_rec_grows|].
          intros e. destruct e; (apply stays_raise || apply stays_ret);
            typeclasses eauto. }
        specialize (G s). now rewrite Erec in G.
      * match type of Erec with ?m s = _ =>
          assert (G : stays (same_off ((d :: l0) ++ [c])) m) end.
        { apply stays_try_except; try typeclasses eauto.
          - apply makedirs_rec_same_off; [now exists [c] | discriminate |].
            rewrite forallb_app in Hl. now apply andb_prop in Hl as [Hl _].
          - intros e. destruct e; (apply stays_raise || apply stays_ret);
              typeclasses eauto. }
        specialize (G s). now rewrite Erec in G.
Qed.

End MakedirsFacts.

Import TreeFacts PlainFacts MakedirsFacts.

(** ** Paths that an operation at [q] does not concern *)

Lemma diverge_not_prefix a b :
  diverge a b = true -> ~ a `prefix_of` b /\ ~ b `prefix_of` a.
Proof.
  revert b. induction a as [|c a IH]; intros [|d b] Hd; try discriminate.
  simpl in Hd. destruct (String.eqb_spec c d) as [->|Hne].
  - destruct (IH _ Hd) as [H1 H2]. split; intros [k Hk]; injection Hk as Hk.
    + apply H1. now exists k.
    + apply H2. now exists k.
  - split; intros [k Hk]; injection Hk as Hk; congruence.
Qed.

Lemma not_prefix_cases q x :
  ~ q `prefix_of` x -> (exists c t, q = x ++ c :: t) \/ diverge q x = true.
Proof.
  intros Hn. destruct (path_cases q x) as [Heq|[Hl|[(c & t & Heq)|Hd]]].
  - destruct Hn. now rewrite Heq.
  - now left.
  - destruct Hn. exists (c :: t). exact Heq.
  - now right.
Qed.

Lemma place_keeps_dir_off r q n r' x :
  Tree.place r q n = Some r' -> ~ q `prefix_of` x ->
  is_dir_node (Tree.lookup r x) = true -> is_dir_node (Tree.lookup r' x) = true.
Proof.
  intros Hp Hn Hd. destruct (not_prefix_cases _ _ Hn) as [(c & t & ->)|Hdv].
  - now apply place_lookup_above in Hp.
  - now rewrite (place_lookup_diverge _ _ _ _ _ Hp Hdv).
Qed.

Lemma remove_keeps_dir_off r q r' x :
  Tree.remove r q = Some r' -> ~ q `prefix_of` x ->
  is_dir_node (Tree.lookup r x) = true -> is_dir_node (Tree.lookup r' x) = true.
Proof.
  intros Hp Hn Hd. destruct (not_prefix_cases _ _ Hn) as [(c & t & ->)|Hdv].
  - now apply remove_lookup_above in Hp.
  - now rewrite (remove_lookup_diverge _ _ _ _ Hp Hdv).
Qed.

Lemma rmtree_Raise path s e s' : shutil.rmtree path s = (Raise e, s') -> s' = s.
Proof.
  unfold shutil.rmtree. intros H.
  apply bind_inv in H as [(p & s1 & Ep & H)|(e1 & Ep & _)];
    [|now apply (readonly_eq _ _ _ _ (resolve_readonly path)) in Ep].
  apply (readonly_eq _ _ _ _ (resolve_readonly path)) in Ep as ->.
  unfold bind, os.node_at in H.
  destruct (Tree.lookup (os.root_node s) p) as [[|es]|];
    try (now apply del_node_Raise in H); now inversion H.
Qed.

(** What [shutil.copytree] did when it succeeded *)
Lemma copytree_inv src dst s s' :
  shutil.copytree src dst s = (Ok tt, s') ->
  exists es sb q,
    os.stat src s = (Ok (Dir es), s) /\
    os.makedirs dst false s = (Ok tt, sb) /\
    os.resolve dst sb = (Ok q, sb) /\
    os.put_node q (Dir es) sb = (Ok tt, s').
Proof.
  unfold shutil.copytree. intros H.
  ro_step H n En. destruct n as [|es]; [discriminate|].
  apply bind_Ok_inv in H as ([] & sb & Hmk & H).
  ro_step H q Erq. exists es, sb, q. auto.
Qed.

Lemma untouched_refl q s : untouched q s s.
Proof. repeat split; auto. Qed.

Lemma untouched_trans q s1 s2 s3 :
  untouched q s1 s2 -> untouched q s2 s3 -> untouched q s1 s3.
Proof.
  intros (P1 & D1 & L1) (P2 & D2 & L2). repeat split; try congruence; auto.
  intros x Hx. now rewrite L2, L1.
Qed.

Lemma untouched_place q n s es' :
  Tree.place (os.root_node s) q n = Some (Dir es') ->
  untouched q s (os.with_root es' s).
Proof.
  intros Hp. repeat split.
  - intros x Hx Hd. simpl. exact (place_keeps_dir_off _ _ _ _ _ Hp Hx Hd).
  - intros x Hx. simpl. exact (place_lookup_diverge _ _ _ _ _ Hp Hx).
Qed.

Lemma untouched_remove q s es' :
  Tree.remove (os.root_node s) q = Some (Dir es') ->
  untouched q s (os.with_root es' s).
Proof.
  intros Hp. repeat split.
  - intros x Hx Hd. simpl. exact (remove_keeps_dir_off _ _ _ _ Hp Hx Hd).
  - intros x Hx. simpl. exact (remove_lookup_diverge _ _ _ _ Hp Hx).
Qed.

Lemma untouched_grows_same_off q s s' :
  grows s s' -> same_off q s s' -> untouched q s s'.
Proof.
  intros (_ & Hp & Hd) Hs. repeat split; [exact Hp | |].
  - intros x _ Hx. now apply Hd.
  - intros x Hx. apply Hs. now apply diverge_not_prefix in Hx as [_ Hx].
Qed.

(** A plain absolute path outside [q] resolves and reads the same. *)
Lemma untouched_stat q s s' x n :
  untouched q s s' -> x <> [] -> forallb plain_name x = true ->
  diverge q x = true ->
  os.stat (abs_str x) s = (Ok n, s) -> os.stat (abs_str x) s' = (Ok n, s').
Proof.
  intros (_ & Hd & Hl) Hne Hpl Hdv Hs.
  apply stat_inv in Hs as (_ & p & Hr & Hn).
  apply resolve_abs_inv in Hr as [-> Hdirs]; [|assumption..].
  eapply stat_intro.
  - apply resolve_abs_Ok; [assumption..|].
    intros y c t Heq. apply Hd; [|eauto].
    intros Hq. apply diverge_not_prefix in Hdv as [Hdv _]. apply Hdv.
    transitivity y; [exact Hq|]. subst x. now exists (c :: t).
  - rewrite Hl by assumption. exact Hn.
Qed.

Import TreeFacts PlainFacts MakedirsFacts.

Section copy_directory.
Context `{Libs}.

Lemma dirhash_inv path s a s' :
  dirhash path s = (Ok a, s') ->
  exists es, os.stat path s = (Ok (Dir es), s) /\ a = dirhash_of es.
Proof.
  unfold dirhash. intros Hh. ro_step Hh d Ed. destruct d; [|discriminate].
  ro_step Hh n En. destruct n as [|es]; [discriminate|].
  injection Hh as <-. eauto.
Qed.

Lemma dirhash_intro path s es :
  os.stat path s = (Ok (Dir es), s) -> dirhash path s = (Ok (dirhash_of es), s).
Proof.
  intros Hs. unfold dirhash. rewrite (bind_Ok _ _ _ _ _ (isdir_intro _ _ _ Hs)).
  now rewrite (bind_Ok _ _ _ _ _ Hs).
Qed.

(** Equal directory hashes: [copy] returns at once. *)
Lemma copy_same_hash src dst s es es' :
  os.stat src s = (Ok (Dir es), s) -> os.stat dst s = (Ok (Dir es'), s) ->
  dirhash_of es = dirhash_of es' ->
  copy src dst s = (Ok tt, s).
Proof.
  intros Hs Hd Heq. unfold copy.
  rewrite (bind_Ok _ _ _ _ _ (isdir_intro _ _ _ Hs)).
  rewrite (bind_Ok _ _ _ _ _ (exists_intro _ _ _ Hd)).
  rewrite bind_Ok with (a := true) (s1 := s); [reflexivity|].
  rewrite (bind_Ok _ _ _ _ _ (dirhash_intro _ _ _ Hs)).
  rewrite (bind_Ok _ _ _ _ _ (dirhash_intro _ _ _ Hd)).
  rewrite Heq. now rewrite String.eqb_refl.
Qed.

(** Equal file hashes: [copy] returns at once. *)
Lemma copy_same_md5 src dst s a b :
  os.stat src s = (Ok (File a), s) -> os.stat dst s = (Ok (File b), s) ->
  md5_hexdigest a = md5_hexdigest b ->
  copy src dst s = (Ok tt, s).
Proof.
  intros Hs Hd Heq. unfold copy.
  rewrite bind_Ok with (a := false) (s1 := s);
    [|unfold os.path.isdir, try_except; now rewrite (bind_Ok _ _ _ _ _ Hs)].
  rewrite (bind_Ok _ _ _ _ _ (exists_intro _ _ _ Hd)).
  rewrite bind_Ok with (a := true) (s1 := s); [reflexivity|].
  rewrite (bind_Ok _ _ _ _ _ (read_file_intro _ _ _ Hs)).
  rewrite (bind_Ok _ _ _ _ _ (read_file_intro _ _ _ Hd)).
  rewrite Heq. now rewrite String.eqb_refl.
Qed.

Variables p q : list string.
Hypothesis Hp : forallb plain_name p = true.
Hypothesis Hq : forallb plain_name q = true.
Hypothesis Hpne : p <> [].
Hypothesis Hqne : q <> [].
Hypothesis Hdiv : diverge q p = true.

(** The tree removed at [q] (if it was there) and copied there anew *)
Lemma recopied s s1 :
  (shutil.rmtree_ignore_errors (abs_str q) >>
   shutil.copytree (abs_str p) (abs_str q)) s = (Ok tt, s1) ->
  untouched q s s1 /\
  exists es, os.stat (abs_str p) s1 = (Ok (Dir es), s1) /\
             os.stat (abs_str q) s1 = (Ok (Dir es), s1).
Proof.
  intros H0. apply bind_Ok_inv in H0 as ([] & sa & Hrm & Hcp).
  assert (Ua : untouched q s sa).
  { unfold shutil.rmtree_ignore_errors in Hrm. rewrite try_pass_Ok in Hrm.
    injection Hrm as <-.
    destruct (shutil.rmtree (abs_str q) s) as [[[]|e] s'] eqn:Er; simpl.
    - apply rmtree_inv in Er as (q' & es' & Hr & _ & Hrem & ->).
      apply resolve_abs_inv in Hr as [-> _]; [|assumption..].
      now apply untouched_remove.
    - apply rmtree_Raise in Er as ->. apply untouched_refl. }
  apply copytree_inv in Hcp as (es & sb & q' & Hst & Hmk & Hrq & Hput).
  unfold os.makedirs in Hmk.
  apply (makedirs_rec_Ok_mkdir q _ _ _ Hqne Hq) in Hmk as (sm & Gm & Sm & Hmk).
  assert (Um : untouched q sa sm) by now apply untouched_grows_same_off.
  pose proof Hmk as Hmk'.
  apply mkdir_inv in Hmk' as (q0 & esb & Hr0 & _ & Hpl & ->).
  apply resolve_abs_inv in Hr0 as [-> _]; [|assumption..].
  assert (Ub : untouched q sm (os.with_root esb sm))
    by exact (untouched_place _ _ _ _ Hpl).
  pose proof Hrq as Hrq'.
  apply resolve_abs_inv in Hrq' as [-> Hdirs]; [|assumption..].
  apply put_node_inv in Hput as (es1 & Hpl1 & ->).
  assert (U1 : untouched q (os.with_root esb sm) (os.with_root es1 (os.with_root esb sm)))
    by exact (untouched_place _ _ _ _ Hpl1).
  assert (Ua1 : untouched q sa (os.with_root es1 (os.with_root esb sm))).
  { eapply untouched_trans; [exact Um|]. eapply untouched_trans; eauto. }
  split; [eapply untouched_trans; eauto|].
  exists es. split.
  - exact (untouched_stat _ _ _ _ _ Ua1 Hpne Hp Hdiv Hst).
  - eapply stat_intro.
    + apply resolve_abs_Ok; [assumption..|].
      intros y c t Heq. destruct U1 as (_ & D1 & _). apply D1; [|eauto].
      subst q. apply prefix_snoc_middle with (c := c) (t := t). reflexivity.
    + simpl. exact (place_lookup_same _ _ _ _ Hpl1).
Qed.

(** A successful [copy] of the directory [p] to [q] leaves both with
    the same directory hash and does not concern what lies off [q]. *)
Lemma copy_dir_result s s1 :
  os.path.isdir (abs_str p) s = (Ok true, s) ->
  copy (abs_str p) (abs_str q) s = (Ok tt, s1) ->
  untouched q s s1 /\
  exists es es',
    os.stat (abs_str p) s1 = (Ok (Dir es), s1) /\
    os.stat (abs_str q) s1 = (Ok (Dir es'), s1) /\
    dirhash_of es = dirhash_of es'.
Proof.
  intros Hd H0. unfold copy in H0. rewrite (bind_Ok _ _ _ _ _ Hd) in H0.
  ro_step H0 present Eex. destruct present.
  - ro_step H0 same Es.
    apply bind_Ok_inv in Es as (a & sx & Ea & Es).
    pose proof (readonly_eq _ _ _ _ (dirhash_readonly _) Ea) as ->.
    apply bind_Ok_inv in Es as (b & sx & Eb & Es).
    pose proof (readonly_eq _ _ _ _ (dirhash_readonly _) Eb) as ->.
    injection Es as <-.
    destruct (String.eqb_spec a b) as [->|Hne].
    + assert (s1 = s) by (now injection H0). subst s1.
      apply dirhash_inv in Ea as (es & Hs & Ha).
      apply dirhash_inv in Eb as (es' & Hs' & Hb).
      split; [apply untouched_refl|]. exists es, es'. repeat split; auto. congruence.
    + apply recopied in H0 as (U & es & H1 & H2). split; [exact U|].
      exists es, es. auto.
  - apply bind_Ok_inv in H0 as (same & sx & Es & H0).
    injection Es as <- <-.
    apply recopied in H0 as (U & es & H1 & H2). split; [exact U|].
    exists es, es. auto.
Qed.

End copy_directory.

Import TreeFacts PlainFacts MakedirsFacts.

Lemma forallb_app_l {A} (f : A -> bool) l1 l2 :
  forallb f (l1 ++ l2) = true -> forallb f l1 = true.
Proof. rewrite forallb_app. intros H. now apply andb_prop in H. Qed.

Lemma forallb_app_r {A} (f : A -> bool) l1 l2 :
  forallb f (l1 ++ l2) = true -> forallb f l2 = true.
Proof. rewrite forallb_app. intros H. now apply andb_prop in H. Qed.

(** The lock file of a plain directory was read: the directory is there. *)
Lemma locked_directory p s c :
  p <> [] -> forallb plain_name p = true ->
  os.read_file (abs_str (p ++ ["dir.lock"])) s = (Ok c, s) ->
  os.path.isdir (abs_str p) s = (Ok true, s).
Proof.
  intros Hne Hp Hr. apply read_file_inv, stat_inv in Hr as (_ & x & Hr & _).
  apply resolve_abs_inv in Hr as [-> Hd];
    [|now destruct p|rewrite forallb_app, Hp; reflexivity].
  pose proof (Hd p "dir.lock" [] eq_refl) as Hdir.
  destruct (Tree.lookup (os.root_node s) p) as [[|es]|] eqn:El; try discriminate.
  eapply isdir_intro, stat_intro; [|exact El].
  apply resolve_abs_Ok; [assumption..|].
  intros y c' t ->. apply (Hd y c' (t ++ ["dir.lock"])).
  now rewrite <- app_assoc.
Qed.

Section C9.
Context `{Libs}.
Variable self : FileStorage.t.
Variables sp gp : list string.
Variable fn : string.
Hypothesis Hstore :
  FileStorage.fs_store self = LocalStore (pathlib.fspath (mkPath true sp)).
Hypothesis Hgroup : FileStorage.resource_group_path self = mkPath true gp.
Hypothesis Hname : FileStorage.folder_name self = fn.
Hypothesis Hfolder : FileStorage.folder_path self = mkPath true (gp ++ [fn]).
Hypothesis Hplain : forallb plain_name (sp ++ gp ++ [fn]) = true.
Hypothesis Hsp : sp <> [].
Hypothesis Hgp : gp <> [].
Hypothesis Hdiv : diverge (sp ++ [fn]) (gp ++ [fn]) = true.

Let src := posixpath.join (pathlib.fspath (FileStorage.resource_group_path self))
                          (FileStorage.folder_name self).
Let dst := posixpath.join (pathlib.fspath (mkPath true sp))
                          (FileStorage.folder_name self).

Lemma plain_sp : forallb plain_name sp = true.
Proof. exact (forallb_app_l _ _ _ Hplain). Qed.

Lemma plain_gp : forallb plain_name gp = true.
Proof. exact (forallb_app_l _ _ _ (forallb_app_r _ _ _ Hplain)). Qed.

Lemma plain_fn : plain_name fn = true.
Proof.
  pose proof (forallb_app_r _ _ _ (forallb_app_r _ _ _ Hplain)) as Hf.
  simpl in Hf. now rewrite andb_true_r in Hf.
Qed.

Lemma plain_p : forallb plain_name (gp ++ [fn]) = true.
Proof. exact (forallb_app_r _ _ _ Hplain). Qed.

Lemma plain_q : forallb plain_name (sp ++ [fn]) = true.
Proof. rewrite forallb_app, plain_sp. simpl. now rewrite plain_fn. Qed.

Lemma src_eq : src = abs_str (gp ++ [fn]).
Proof.
  unfold src. rewrite Hgroup, Hname, fspath_abs.
  apply join_abs; [exact Hgp | exact plain_gp | exact plain_fn].
Qed.

Lemma dst_eq : dst = abs_str (sp ++ [fn]).
Proof.
  unfold dst. rewrite Hname, fspath_abs.
  apply join_abs; [exact Hsp | exact plain_sp | exact plain_fn].
Qed.

Lemma push_eq cl s :
  FileStorage.push self cl s
  = FileLock.with_ (mkPath true (gp ++ [fn])) (copy src dst) s.
Proof.
  unfold FileStorage.push, FileStorage._push_no_lock.
  now rewrite Hfolder, Hstore.
Qed.

(** C9.  [copy], which is all that [put] of the local store does,
    returns without writing when source and destination are directories
    of equal directory hash, or files of equal file hash.  With the local
    store, after a successful [push] the directory hashes of the resource
    directory and of its copy in the store are equal, so a second [push]
    finds them equal, copies nothing and leaves the whole state as it
    is. *)
Theorem push_twice_writes_once s s1 cl cl' :
  posix s = true ->
  FileStorage.push self cl s = (Ok tt, s1) ->
  (forall local_name base_dir cl0,
      LocalFSStore.put (pathlib.fspath (mkPath true sp)) local_name base_dir (Some cl0)
      = copy (posixpath.join base_dir local_name)
             (posixpath.join (pathlib.fspath (mkPath true sp)) local_name)) /\
  (forall a b s' es es',
      os.stat a s' = (Ok (Dir es), s') -> os.stat b s' = (Ok (Dir es'), s') ->
      dirhash_of es = dirhash_of es' -> copy a b s' = (Ok tt, s')) /\
  (forall a b s' c c',
      os.stat a s' = (Ok (File c), s') -> os.stat b s' = (Ok (File c'), s') ->
      md5_hexdigest c = md5_hexdigest c' -> copy a b s' = (Ok tt, s')) /\
  FileStorage.push self cl' s1 = (Ok tt, s1) /\
  exists h, dirhash src s1 = (Ok h, s1) /\ dirhash dst s1 = (Ok h, s1).
Proof.
  intros Hposix Hpush.
  split; [reflexivity|].
  split; [exact (fun a b s' es es' => copy_same_hash a b s' es es')|].
  split; [exact (fun a b s' c c' => copy_same_md5 a b s' c c')|].
  rewrite push_eq in *. rewrite src_eq, dst_eq in *.
  clear src dst.
  assert (Hpne : gp ++ [fn] <> []) by now destruct gp.
  assert (Hqne : sp ++ [fn] <> []) by now destruct sp.
  apply with_lock_inv in Hpush as (sl & He & Hcopy).
  pose proof He as He'. apply enter_inv in He' as [(_ & Hpl & _) Hlock].
  destruct (Hlock Hposix) as [c Hread]. clear Hlock.
  change (pathlib.fspath
            (FileLock._lock_file_path (FileLock.init (mkPath true (gp ++ [fn])))))
    with (abs_str ((gp ++ [fn]) ++ ["dir.lock"])) in Hread.
  pose proof (locked_directory _ _ _ Hpne plain_p Hread) as Hdir.
  destruct (copy_dir_result _ _ plain_p plain_q Hpne Hqne Hdiv _ _ Hdir Hcopy)
    as (U & es & es' & Hs & Hd & Hh).
  assert (Hc1 : copy (abs_str (gp ++ [fn])) (abs_str (sp ++ [fn])) s1 = (Ok tt, s1))
    by exact (copy_same_hash _ _ _ _ _ Hs Hd Hh).
  split.
  - rewrite with_lock_run with (s1 := s1); [exact Hc1|].
    apply enter_with_lock_file.
    change (PathM.is_file
              (FileLock._lock_file_path (FileLock.init (mkPath true (gp ++ [fn])))) s1)
      with (os.path.isfile (abs_str ((gp ++ [fn]) ++ ["dir.lock"])) s1).
    eapply isfile_intro.
    eapply (untouched_stat _ _ _ _ _ U); [now destruct gp | | | ].
    + rewrite forallb_app, plain_p. reflexivity.
    + now apply diverge_app_r.
    + exact (read_file_inv _ _ _ _ Hread).
  - exists (dirhash_of es). split; [now apply dirhash_intro|].
    rewrite Hh. now apply dirhash_intro.
Qed.
End C9.

Import TreeFacts PlainFacts MakedirsFacts.

(** * What a synchronization leaves in place *)

Global Instance kept_refl q : Reflexive (kept q).
Proof. now intros s. Qed.

Global Instance kept_trans q : Transitive (kept q).
Proof. intros s1 s2 s3 [P1 K1] [P2 K2]. split; [congruence | auto]. Qed.

Global Instance file_kept_refl q : Reflexive (file_kept q).
Proof. now intros s. Qed.

Global Instance file_kept_trans q : Transitive (file_kept q).
Proof. intros s1 s2 s3 [P1 K1] [P2 K2]. split; [congruence | auto]. Qed.

Lemma kept_file_kept q s s' : kept q s s' -> file_kept q s s'.
Proof.
  intros [P K]. split; [exact P|].
  destruct (Tree.lookup (os.root_node s) q) as [[c|]|]; try discriminate.
  intros _. now rewrite (K c eq_refl).
Qed.

Lemma stays_kept_file_kept q {A} (m : M A) :
  stays (kept q) m -> stays (file_kept q) m.
Proof. intros Hm s. apply kept_file_kept, Hm. Qed.

(** ** Paths of plain names *)

Lemma lookup_above_dir r x c t n :
  Tree.lookup r (x ++ c :: t) = Some n -> is_dir_node (Tree.lookup r x) = true.
Proof.
  rewrite lookup_path_app. destruct (Tree.lookup r x) as [[|es]|]; auto; discriminate.
Qed.

Lemma stat_plain l s n :
  l <> [] -> forallb plain_name l = true ->
  Tree.lookup (os.root_node s) l = Some n -> os.stat (abs_str l) s = (Ok n, s).
Proof.
  intros Hne Hl Hn. eapply stat_intro; [|exact Hn].
  apply resolve_abs_Ok; [assumption..|].
  intros x c t ->. exact (lookup_above_dir _ _ _ _ _ Hn).
Qed.

Lemma stat_plain_inv l s n s' :
  l <> [] -> forallb plain_name l = true ->
  os.stat (abs_str l) s = (Ok n, s') -> Tree.lookup (os.root_node s) l = Some n.
Proof.
  intros Hne Hl Hs. apply stat_inv in Hs as (_ & p & Hr & Hn).
  now apply resolve_abs_inv in Hr as [-> _].
Qed.

Lemma read_plain l s c :
  l <> [] -> forallb plain_name l = true ->
  Tree.lookup (os.root_node s) l = Some (File c) ->
  os.read_file (abs_str l) s = (Ok c, s).
Proof. intros Hne Hl Hn. apply read_file_intro. now apply stat_plain. Qed.

Lemma isfile_plain l s :
  l <> [] -> forallb plain_name l = true ->
  os.path.isfile (abs_str l) s
  = (Ok (is_file_node (Tree.lookup (os.root_node s) l)), s).
Proof.
  intros Hne Hl. destruct (stat_cases (abs_str l) s) as [[n E]|[e E]].
  - rewrite (stat_plain_inv _ _ _ _ Hne Hl E).
    unfold os.path.isfile, try_except, bind. rewrite E. now destruct n.
  - rewrite (stat_Raise_isfile _ _ _ E).
    destruct (Tree.lookup (os.root_node s) l) as [n|] eqn:El; [|reflexivity].
    rewrite (stat_plain _ _ _ Hne Hl El) in E. discriminate.
Qed.

Lemma of_str_plain c : plain_name c = true -> pathlib.of_str c = mkPath false [c].
Proof.
  intros Hc. unfold pathlib.of_str.
  rewrite startswith_plain by assumption.
  rewrite split_no_slash by now apply plain_no_slash.
  simpl. unfold pathlib.keep_part.
  destruct (plain_not_special _ Hc) as [-> _]. reflexivity.
Qed.

Lemma filter_keep_plain l :
  forallb plain_name l = true -> List.filter pathlib.keep_part l = l.
Proof.
  induction l as [|c l IH]; [reflexivity|]. simpl. intros Hl.
  apply andb_prop in Hl as [Hc Hl]. unfold pathlib.keep_part at 1.
  destruct (plain_not_special _ Hc) as [-> _]. simpl. now rewrite IH.
Qed.

Lemma of_str_abs l :
  l <> [] -> forallb plain_name l = true ->
  pathlib.of_str (abs_str l) = mkPath true l.
Proof.
  intros Hne Hl. unfold pathlib.of_str. rewrite split_abs by assumption.
  rewrite abs_str_cons. simpl. now rewrite filter_keep_plain.
Qed.

Lemma joinpath_plain a l c :
  plain_name c = true -> mkPath a l // c = mkPath a (l ++ [c]).
Proof. intros Hc. now rewrite of_str_plain. Qed.

Lemma plain_snoc l c :
  forallb plain_name l = true -> plain_name c = true ->
  forallb plain_name (l ++ [c]) = true.
Proof. intros Hl Hc. rewrite forallb_app, Hl. simpl. now rewrite Hc. Qed.

Lemma snoc_not_nil {A} (l : list A) c : l ++ [c] <> [].
Proof. now destruct l. Qed.

(** ** Steps that keep a file *)

Lemma kept_with_root q es' s :
  (forall c, Tree.lookup (os.root_node s) q = Some (File c) ->
             Tree.lookup (Dir es') q = Some (File c)) ->
  kept q s (os.with_root es' s).
Proof. intros Hk. split; [reflexivity | exact Hk]. Qed.

Lemma readonly_kept q {A} (m : M A) : readonly m -> stays (kept q) m.
Proof. apply readonly_stays. typeclasses eauto. Qed.

Lemma readonly_file_kept q {A} (m : M A) : readonly m -> stays (file_kept q) m.
Proof. apply readonly_stays. typeclasses eauto. Qed.

#[global] Hint Extern 5 (stays (kept _) _) =>
  (apply readonly_kept; solve [eauto with frame]) : frame.
#[global] Hint Extern 5 (stays (file_kept _) _) =>
  (apply readonly_file_kept; solve [eauto with frame]) : frame.
#[global] Hint Extern 8 (stays (file_kept _) _) =>
  (apply stays_kept_file_kept; solve [eauto with frame]) : frame.

Lemma mkdir_kept q path : stays (kept q) (os.mkdir path).
Proof.
  apply stays_Ok_or_same; [typeclasses eauto | |].
  - intros s [] s' H. apply mkdir_inv in H as (p & es' & _ & Hn & Hp & ->).
    apply kept_with_root. intros c Hq.
    apply (place_keeps_files _ _ _ _ _ _ Hp); [now rewrite Hn | congruence | exact Hq].
  - intros s e s'. apply mkdir_Raise.
Qed.

Lemma write_file_file_kept q path c : stays (file_kept q) (os.write_file path c).
Proof.
  apply stays_Ok_or_same; [typeclasses eauto | |].
  - intros s [] s' H. apply write_file_inv in H as (p & es' & _ & Hn & Hp & ->).
    split; [reflexivity|].
    change (os.root_node (os.with_root es' s)) with (Dir es').
    destruct (decide (q = p)) as [->|Hne].
    + now rewrite (place_lookup_same _ _ _ _ Hp).
    + destruct (Tree.lookup (os.root_node s) q) as [[c0|]|] eqn:Hq; try discriminate.
      now rewrite (place_keeps_files _ _ _ _ _ _ Hp Hn Hne Hq).
  - intros s e s'. apply write_file_Raise.
Qed.

Lemma write_file_kept q l c :
  l <> [] -> forallb plain_name l = true -> l <> q ->
  stays (kept q) (os.write_file (abs_str l) c).
Proof.
  intros Hne Hl Hq. apply stays_Ok_or_same; [typeclasses eauto | |].
  - intros s [] s' H. apply write_file_inv in H as (p & es' & Hr & Hn & Hp & ->).
    apply resolve_abs_inv in Hr as [-> _]; [|assumption..].
    apply kept_with_root. intros c0 Hc0.
    apply (place_keeps_files _ _ _ _ _ _ Hp Hn); [congruence | exact Hc0].
  - intros s e s'. apply write_file_Raise.
Qed.

Lemma remove_inv path s s' :
  os.remove path s = (Ok tt, s') ->
  exists p c es',
    os.resolve path s = (Ok p, s) /\
    Tree.lookup (os.root_node s) p = Some (File c) /\
    Tree.remove (os.root_node s) p = Some (Dir es') /\
    s' = os.with_root es' s.
Proof.
  unfold os.remove. intros H.
  ro_step H p Ep. ro_step H n En.
  unfold os.node_at in En. injection En as <-.
  destruct (Tree.lookup (os.root_node s) p) as [[c|es]|] eqn:El; try discriminate.
  apply del_node_inv in H as (es' & Hp & ->). exists p, c, es'. auto.
Qed.

Lemma remove_Raise path s e s' : os.remove path s = (Raise e, s') -> s' = s.
Proof.
  unfold os.remove. intros H.
  apply bind_inv in H as [(p & s1 & Ep & H)|(e1 & Ep & _)];
    [|now apply (readonly_eq _ _ _ _ (resolve_readonly path)) in Ep].
  apply (readonly_eq _ _ _ _ (resolve_readonly path)) in Ep as ->.
  unfold bind, os.node_at in H.
  destruct (Tree.lookup (os.root_node s) p) as [[c|es]|];
    try (now apply del_node_Raise in H); now inversion H.
Qed.

(** Removing one file leaves every other file as it is. *)
Lemma remove_keeps_files r p r' q c c0 :
  Tree.remove r p = Some r' -> Tree.lookup r p = Some (File c) ->
  q <> p -> Tree.lookup r q = Some (File c0) -> Tree.lookup r' q = Some (File c0).
Proof.
  intros Hr Hp Hne Hq.
  destruct (path_cases p q) as [->|[(d & t & ->)|[(d & t & ->)|Hd]]].
  - congruence.
  - apply lookup_above_dir in Hp. rewrite Hq in Hp. discriminate.
  - apply lookup_above_dir in Hq. rewrite Hp in Hq. discriminate.
  - now rewrite (remove_lookup_diverge _ _ _ _ Hr Hd).
Qed.

Lemma remove_kept q l :
  l <> [] -> forallb plain_name l = true -> l <> q ->
  stays (kept q) (os.remove (abs_str l)).
Proof.
  intros Hne Hl Hq. apply stays_Ok_or_same; [typeclasses eauto | |].
  - intros s [] s' H. apply remove_inv in H as (p & c & es' & Hr & Hp & Hrem & ->).
    apply resolve_abs_inv in Hr as [-> _]; [|assumption..].
    apply kept_with_root. intros c0 Hc0.
    apply (remove_keeps_files _ _ _ _ _ _ Hrem Hp); [congruence | exact Hc0].
  - intros s e s'. apply remove_Raise.
Qed.

(** What changes the working directory or the bucket only *)
Lemma chdir_kept q path : stays (kept q) (os.chdir path).
Proof.
  intros s. unfold os.chdir, bind, os.node_at.
  destruct (os.resolve path s) as [[p|e] s1] eqn:Er;
    pose proof (readonly_eq _ _ _ _ (resolve_readonly path) Er) as ->;
    [|reflexivity].
  destruct (Tree.lookup (os.root_node s) p) as [[c|es]|]; simpl; try reflexivity.
  now split.
Qed.

Lemma s3_call_store_kept q key c : stays (kept q) (s3.call (s3.store key c)).
Proof.
  intros s. unfold s3.call. destruct (s3_reachable s); [|reflexivity].
  now split.
Qed.

Lemma upload_fileobj_kept q fh key : stays (kept q) (s3.upload_fileobj fh key).
Proof. apply s3_call_store_kept. Qed.

#[global] Hint Resolve mkdir_kept write_file_file_kept chdir_kept
  s3_call_store_kept upload_fileobj_kept : frame.

Lemma upload_file_kept q filename key : stays (kept q) (s3.upload_file filename key).
Proof. unfold s3.upload_file. frame. Qed.

Lemma download_file_file_kept q key filename :
  stays (file_kept q) (s3.download_file key filename).
Proof.
  intros s. unfold s3.download_file, s3.call.
  destruct (s3_reachable s); [|reflexivity].
  destruct (bucket s !! key); [apply write_file_file_kept | reflexivity].
Qed.

#[global] Hint Resolve upload_file_kept download_file_file_kept : frame.

Lemma makedirs_rec_kept q fuel name exist_ok :
  stays (kept q) (os.makedirs_rec fuel name exist_ok).
Proof.
  revert name. induction fuel as [|fuel IH]; intros name; simpl; [frame|].
  destruct (posixpath.split name) as [head0 tail0].
  destruct (if String.eqb tail0 EmptyString then _ else _) as [head tail].
  destruct (_ && _)%bool; frame.
Qed.

Lemma makedirs_kept q name exist_ok : stays (kept q) (os.makedirs name exist_ok).
Proof. apply makedirs_rec_kept. Qed.
#[global] Hint Resolve makedirs_kept : frame.

Lemma Path_write_text_file_kept q p data :
  stays (file_kept q) (PathM.write_text p data).
Proof. apply write_file_file_kept. Qed.
#[global] Hint Resolve Path_write_text_file_kept : frame.

(** ** Archives *)

Lemma tarfile_add_readonly name : readonly (tarfile.add name).
Proof. unfold tarfile.add. frame. Qed.

Lemma iterdir_readonly p : readonly (PathM.iterdir p).
Proof. unfold PathM.iterdir. frame. Qed.

#[global] Hint Resolve tarfile_add_readonly iterdir_readonly : frame.

Lemma extract_file_kept q path m : stays (file_kept q) (tarfile.extract path m).
Proof. unfold tarfile.extract. frame. Qed.
#[global] Hint Resolve extract_file_kept : frame.

Lemma extractall_file_kept q path ms : stays (file_kept q) (tarfile.extractall path ms).
Proof. induction ms as [|m r IH]; simpl; frame. Qed.
#[global] Hint Resolve extractall_file_kept : frame.

Lemma unpack_archive_file_kept q filename extract_dir :
  stays (file_kept q) (shutil.unpack_archive filename extract_dir).
Proof. unfold shutil.unpack_archive. frame. Qed.
#[global] Hint Resolve unpack_archive_file_kept : frame.

Import TreeFacts PlainFacts MakedirsFacts.

(** * The remote store on plain paths *)

Lemma no_slash_append a b : no_slash (a +:+ b) = (no_slash a && no_slash b)%bool.
Proof.
  induction a as [|x a IH]; [reflexivity|]. rewrite append_cons. simpl.
  rewrite IH. now rewrite andb_assoc.
Qed.

Lemma plain_targz c : plain_name c = true -> plain_name (c +:+ ".tar.gz") = true.
Proof.
  intros Hc. pose proof (plain_no_slash _ Hc) as Hs.
  unfold plain_name. rewrite no_slash_append, Hs.
  destruct c as [|a [|b [|d r]]]; [discriminate|..]; rewrite !append_cons; simpl;
    repeat match goal with
           | |- context [Ascii.eqb ?x ?y] => destruct (Ascii.eqb x y)
           end; reflexivity.
Qed.

Lemma collapse_plain acc l :
  forallb plain_name l = true -> pathlib.collapse acc l = acc ++ l.
Proof.
  revert acc. induction l as [|c l IH]; intros acc Hl; simpl.
  - now rewrite app_nil_r.
  - simpl in Hl. apply andb_prop in Hl as [Hc Hl].
    destruct (plain_not_special _ Hc) as [_ ->].
    rewrite IH by assumption. now rewrite <- app_assoc.
Qed.

Lemma abspath_abs l s :
  l <> [] -> forallb plain_name l = true ->
  os.path.abspath (abs_str l) s = (Ok (abs_str l), s).
Proof.
  intros Hne Hl. unfold os.path.abspath. rewrite split_abs by assumption.
  rewrite abs_str_cons at 1. simpl.
  rewrite filter_keep_plain by assumption.
  now rewrite collapse_plain.
Qed.

Lemma abs_append l c t :
  l <> [] -> abs_str (l ++ [c]) +:+ t = abs_str (l ++ [c +:+ t]).
Proof. intros Hne. rewrite !abs_snoc by assumption. now rewrite !append_assoc. Qed.

Lemma snoc_inj {A} (l l' : list A) c c' : l ++ [c] = l' ++ [c'] -> l = l' /\ c = c'.
Proof. intros E. now apply app_inj_tail in E. Qed.

Lemma snoc_longer {A} (l : list A) c d e : l ++ [c] <> (l ++ [d]) ++ [e].
Proof.
  intros E. apply (f_equal length) in E. rewrite !length_app in E. simpl in E. lia.
Qed.

Lemma call_store_stamped key c s s' :
  s3.call (s3.store key c) s = (Ok tt, s') -> stamped key s'.
Proof.
  unfold s3.call, s3.store. destruct (s3_reachable s); [|discriminate].
  intros [= <-]. eexists. simpl. split; [apply lookup_insert_eq | reflexivity].
Qed.

Lemma stamped_with_root key es s : stamped key s -> stamped key (os.with_root es s).
Proof. intros (o & Ho & Ht). now exists o. Qed.

Section remote_store.
Context `{Libs}.
Variable gp : list string.
Variable fn : string.
Hypothesis Hgp : gp <> [].
Hypothesis Hpl : forallb plain_name gp = true.
Hypothesis Hfn : plain_name fn = true.

Let base := abs_str gp.
Let zipped := gp ++ [fn +:+ ".tar.gz"].
Let marker := (gp ++ [fn]) ++ ["last_modified.txt"].

Lemma plain_folder : forallb plain_name (gp ++ [fn]) = true.
Proof. now apply plain_snoc. Qed.

Lemma plain_zipped : forallb plain_name zipped = true.
Proof. apply plain_snoc; [assumption | now apply plain_targz]. Qed.

Lemma plain_marker : forallb plain_name marker = true.
Proof. apply plain_snoc; [exact plain_folder | reflexivity]. Qed.

Lemma zipped_path : posixpath.join base (fn +:+ ".tar.gz") = abs_str zipped.
Proof. apply join_abs; [assumption.. | now apply plain_targz]. Qed.

Lemma folder_path_str : posixpath.join base fn = abs_str (gp ++ [fn]).
Proof. now apply join_abs. Qed.

Lemma marker_path :
  pathlib.of_str base // fn // "last_modified.txt" = mkPath true marker.
Proof.
  unfold base. rewrite of_str_abs by assumption.
  rewrite joinpath_plain by assumption. now rewrite joinpath_plain.
Qed.

Lemma folder_path_of_base : pathlib.of_str base // fn = mkPath true (gp ++ [fn]).
Proof.
  unfold base. rewrite of_str_abs by assumption. now rewrite joinpath_plain.
Qed.

(** [get] may write any file that the archive names, and takes away
    none but the downloaded archive. *)
Lemma s3_get_file_kept q :
  q <> zipped -> stays (file_kept q) (S3FSStore.get fn base).
Proof.
  intros Hq. unfold S3FSStore.get. rewrite zipped_path.
  assert (Hrm : stays (file_kept q) (os.remove (abs_str zipped))).
  { apply stays_kept_file_kept, remove_kept;
      [apply snoc_not_nil | exact plain_zipped | congruence]. }
  unfold S3FSStore._download, S3FSStore._save_local_last_modified,
    S3FSStore._get_remote_last_modified.
  frame.
Qed.

Lemma add_entries_readonly entries tar :
  readonly (S3FSStore.add_entries entries tar).
Proof.
  revert tar. induction entries as [|path rest IH]; intros tar; simpl; frame.
Qed.

Lemma glob_files_size_readonly p : readonly (S3FSStore.glob_files_size p).
Proof. unfold S3FSStore.glob_files_size. frame. Qed.

(** The archive that [make_archive] writes beside the resource directory
    is the one file it touches. *)
Lemma make_archive_kept q :
  q <> zipped ->
  stays (kept q) (shutil.make_archive (posixpath.join base fn) base fn).
Proof.
  intros Hq. rewrite folder_path_str. unfold shutil.make_archive.
  apply stays_bind; [typeclasses eauto | frame |]. intros save_cwd.
  apply stays_bind_known with (a0 := abs_str (gp ++ [fn])).
  { intros s. apply abspath_abs; [apply snoc_not_nil | exact plain_folder]. }
  rewrite abs_append by assumption. fold zipped.
  assert (Hw : forall c, stays (kept q) (os.write_file (abs_str zipped) c)).
  { intros c. apply write_file_kept;
      [apply snoc_not_nil | exact plain_zipped | congruence]. }
  frame.
Qed.

(** [put] touches the archive beside the resource directory and the
    marker in it, and no other file. *)
Lemma s3_put_kept q cl :
  q <> zipped -> q <> marker -> stays (kept q) (S3FSStore.put fn base cl).
Proof.
  intros Hq Hm. unfold S3FSStore.put.
  rewrite zipped_path.
  unfold S3FSStore._save_local_last_modified, S3FSStore._get_remote_last_modified.
  rewrite marker_path. unfold PathM.write_text. rewrite fspath_abs.
  assert (Hrm : stays (kept q) (os.remove (abs_str zipped))).
  { apply remove_kept; [apply snoc_not_nil | exact plain_zipped | congruence]. }
  assert (Hw : forall c, stays (kept q) (os.write_file (abs_str marker) c)).
  { intros c. apply write_file_kept;
      [apply snoc_not_nil | exact plain_marker | congruence]. }
  pose proof (make_archive_kept q Hq) as Hmk.
  pose proof add_entries_readonly as Ha.
  pose proof glob_files_size_readonly as Hg.
  frame.
Qed.

Lemma s3_put_marker cl s s1 :
  S3FSStore.put fn base cl s = (Ok tt, s1) ->
  exists o,
    s3_reachable s1 = true /\
    bucket s1 !! (fn +:+ ".tar.gz") = Some o /\
    LastModified o = s3_now s1 /\
    Tree.lookup (os.root_node s1) marker
    = Some (File (Bytes (strftime (LastModified o)))).
Proof.
  unfold S3FSStore.put. intros H0.
  apply bind_Ok_inv in H0 as (old_cwd & sa & _ & H0).
  apply bind_Ok_inv in H0 as (dir_size & sb & _ & H0).
  apply bind_Ok_inv in H0 as (sx & sb' & Hget & H0).
  apply bind_Ok_inv in H0 as ([] & sc & Hbranch & H0).
  assert (Hst : stamped (fn +:+ ".tar.gz") sc).
  { destruct (Nat.ltb _ _).
    - apply bind_Ok_inv in Hbranch as ([] & s2 & _ & Hbranch).
      apply bind_Ok_inv in Hbranch as (entries & s3 & _ & Hbranch).
      apply bind_Ok_inv in Hbranch as (fh & s4 & _ & Hbranch).
      apply bind_Ok_inv in Hbranch as ([] & s5 & _ & Hbranch).
      exact (call_store_stamped _ _ _ _ Hbranch).
    - apply bind_Ok_inv in Hbranch as (archive & s2 & _ & Hbranch).
      apply bind_Ok_inv in Hbranch as ([] & s3 & Hup & Hrm).
      unfold s3.upload_file in Hup.
      apply bind_Ok_inv in Hup as (c & s4 & _ & Hup).
      apply call_store_stamped in Hup.
      apply remove_inv in Hrm as (p & c0 & es' & _ & _ & _ & ->).
      now apply stamped_with_root. }
  apply bind_Ok_inv in H0 as (t & sc' & Ht & Hsave).
  pose proof (readonly_eq _ _ _ _ (s3_get_last_modified_readonly _) Ht) as ->.
  unfold S3FSStore._get_remote_last_modified, s3.get_last_modified, s3.call in Ht.
  destruct (s3_reachable sc) eqn:Hreach; [|discriminate].
  destruct Hst as (o & Ho & Hnow). rewrite Ho in Ht. injection Ht as <-.
  unfold S3FSStore._save_local_last_modified in Hsave.
  rewrite marker_path in Hsave. unfold PathM.write_text in Hsave.
  rewrite fspath_abs in Hsave.
  apply write_file_inv in Hsave as (p & es' & Hr & _ & Hp & ->).
  apply resolve_abs_inv in Hr as [-> _];
    [|apply snoc_not_nil | exact plain_marker].
  exists o. repeat split; auto.
  exact (place_lookup_same _ _ _ _ Hp).
Qed.

(** With the marker showing the timestamp of the archive in the bucket,
    [get] returns at once. *)
Lemma s3_get_fresh s o :
  s3_reachable s = true ->
  bucket s !! (fn +:+ ".tar.gz") = Some o ->
  Tree.lookup (os.root_node s) marker
  = Some (File (Bytes (strftime (LastModified o)))) ->
  strptime (strftime (LastModified o)) = Some (LastModified o) ->
  S3FSStore.get fn base s = (Ok tt, s).
Proof.
  intros Hreach Ho Hm Hcodec. unfold S3FSStore.get.
  unfold S3FSStore._get_local_last_modified. rewrite marker_path.
  unfold PathM.is_file, PathM.read_text. rewrite fspath_abs.
  pose proof (snoc_not_nil (gp ++ [fn]) "last_modified.txt") as Hne.
  fold marker in Hne.
  rewrite bind_Ok with (a := Some (LastModified o)) (s1 := s).
  - unfold S3FSStore._get_remote_last_modified, s3.get_last_modified, s3.call.
    unfold bind at 1. rewrite Hreach, Ho.
    now rewrite bool_decide_eq_true_2.
  - rewrite (bind_Ok _ _ _ _ _ (isfile_plain _ s Hne plain_marker)).
    rewrite Hm. cbn [is_file_node negb].
    rewrite bind_Ok with (a := strftime (LastModified o)) (s1 := s).
    + now rewrite Hcodec.
    + now rewrite (bind_Ok _ _ _ _ _ (read_plain _ _ _ Hne plain_marker Hm)).
Qed.

End remote_store.

Import TreeFacts PlainFacts MakedirsFacts.

(** * The local store on plain paths *)

Section local_store.
Context `{Libs}.
Variables sp gp : list string.
Variable fn : string.
Hypothesis Hsp : sp <> [].
Hypothesis Hgp : gp <> [].
Hypothesis Hpsp : forallb plain_name sp = true.
Hypothesis Hpgp : forallb plain_name gp = true.
Hypothesis Hfn : plain_name fn = true.

Lemma get_dir_size_dir path s es :
  os.stat path s = (Ok (Dir es), s) ->
  get_dir_size path s = (Ok (tree_size (Dir es)), s).
Proof. intros Hs. unfold get_dir_size. now rewrite (bind_Ok _ _ _ _ _ Hs). Qed.

(** Where the resource directory and its stored copy have the same
    directory hash, [get] changes nothing. *)
Lemma local_get_same_hash s es es' :
  os.stat (abs_str (gp ++ [fn])) s = (Ok (Dir es), s) ->
  os.stat (abs_str (sp ++ [fn])) s = (Ok (Dir es'), s) ->
  dirhash_of es = dirhash_of es' ->
  LocalFSStore.get (abs_str sp) fn (abs_str gp) s = (Ok tt, s).
Proof.
  intros Hl Hs Hh. unfold LocalFSStore.get.
  rewrite !join_abs by assumption.
  rewrite (bind_Ok _ _ _ _ _ (exists_intro _ _ _ Hl)). cbn [negb].
  rewrite bind_Ok with (a := negb (Nat.eqb (tree_size (Dir es')) (tree_size (Dir es))))
                       (s1 := s).
  - destruct (negb _); [|reflexivity].
    now apply (copy_same_hash _ _ _ es' es).
  - rewrite (bind_Ok _ _ _ _ _ (get_dir_size_dir _ _ _ Hs)).
    now rewrite (bind_Ok _ _ _ _ _ (get_dir_size_dir _ _ _ Hl)).
Qed.

End local_store.

Import TreeFacts PlainFacts MakedirsFacts.

(** * The layout of a resource directory *)

Lemma split_slash_not_nil s : PyStr.split_slash s <> [].
Proof.
  destruct s as [|a r]; simpl; [discriminate|].
  destruct (Ascii.eqb a "/"); [discriminate|]. now destruct (PyStr.split_slash r).
Qed.

Lemma split_slash_single s c : PyStr.split_slash s = [c] -> s = c.
Proof.
  revert c. induction s as [|a r IH]; intros c; simpl.
  - now intros [= <-].
  - destruct (Ascii.eqb a "/").
    + intros [= _ E]. now apply split_slash_not_nil in E.
    + destruct (PyStr.split_slash r) as [|h t] eqn:E; [now apply split_slash_not_nil in E|].
      intros [= <- ->]. now rewrite (IH h eq_refl).
Qed.

Lemma of_str_plain_relative name :
  plain_relative name = true ->
  pathlib.of_str name = mkPath false (PyStr.split_slash name).
Proof.
  unfold plain_relative. intros Hn. unfold pathlib.of_str.
  rewrite filter_keep_plain by assumption. f_equal.
  destruct name as [|a r]; [reflexivity|]. simpl in *.
  destruct (Ascii.eqb a "/"); [discriminate | reflexivity].
Qed.

Section plain_resource.
Context `{Libs}.
Variable self : FileStorage.t.
Variable gp : list string.
Variable fn : string.
Hypothesis Hlayout : plain_layout self gp fn.
Variable name : string.
Hypothesis Hname : plain_relative name = true.

Let folder := gp ++ [fn].
Let target := folder ++ PyStr.split_slash name.
Let lock := folder ++ ["dir.lock"].

Lemma target_below_folder :
  exists c t, PyStr.split_slash name = c :: t /\ target = folder ++ c :: t.
Proof.
  unfold target. destruct (PyStr.split_slash name) as [|c t] eqn:E; [|eauto].
  now apply split_slash_not_nil in E.
Qed.

Lemma target_not_nil : target <> [].
Proof. destruct target_below_folder as (c & t & _ & ->). now destruct folder. Qed.

Lemma plain_group : forallb plain_name gp = true.
Proof. exact (forallb_app_l _ _ _ (layout_plain _ _ _ Hlayout)). Qed.

Lemma plain_folder_name : plain_name fn = true.
Proof.
  pose proof (forallb_app_r _ _ _ (layout_plain _ _ _ Hlayout)) as Hf.
  simpl in Hf. now rewrite andb_true_r in Hf.
Qed.

Lemma plain_target : forallb plain_name target = true.
Proof.
  unfold target, folder.
  rewrite forallb_app, (layout_plain _ _ _ Hlayout). exact Hname.
Qed.

Lemma plain_lock_path : forallb plain_name lock = true.
Proof. apply plain_snoc; [exact (layout_plain _ _ _ Hlayout) | reflexivity]. Qed.

Lemma target_path :
  pathlib.fspath (FileStorage.folder_path self // name) = abs_str target.
Proof.
  rewrite (folder_at _ _ _ Hlayout). now rewrite of_str_plain_relative.
Qed.

Lemma lock_file_path :
  pathlib.fspath (FileLock._lock_file_path
                    (FileLock.init (FileStorage.folder_path self)))
  = abs_str lock.
Proof. now rewrite (folder_at _ _ _ Hlayout). Qed.

Lemma group_path :
  pathlib.fspath (FileStorage.resource_group_path self) = abs_str gp.
Proof. now rewrite (group_at _ _ _ Hlayout). Qed.

Lemma lock_not_zipped : lock <> gp ++ [fn +:+ ".tar.gz"].
Proof. intros E. exact (snoc_longer _ _ _ _ (eq_sym E)). Qed.

Lemma lock_not_marker : lock <> folder ++ ["last_modified.txt"].
Proof. intros E. now apply snoc_inj in E as [_ E]. Qed.

End plain_resource.

(** * Failures of the object store *)

Section no_client_error.
Variable key : string.

Lemma nce_ret {A} (a : A) : no_client_error key (ret a).
Proof. intros s Hs. now split. Qed.

Lemma nce_raise {A} e : e <> ClientError -> no_client_error key (@raise A e).
Proof. intros He s Hs. split; [exact Hs|]. simpl. congruence. Qed.

Lemma nce_get_state : no_client_error key get_state.
Proof. intros s Hs. now split. Qed.

Lemma nce_bind {A B} (m : M A) (k : A -> M B) :
  no_client_error key m -> (forall a, no_client_error key (k a)) ->
  no_client_error key (bind m k).
Proof.
  intros Hm Hk s Hs. unfold bind. destruct (Hm s Hs) as [H1 H2].
  destruct (m s) as [[a|e] s1]; simpl in *; [now apply Hk|].
  split; [exact H1 | intros [= ->]; now apply H2].
Qed.

Lemma nce_try_except {A} (m : M A) h :
  no_client_error key m ->
  (forall e, e <> ClientError -> no_client_error key (h e)) ->
  no_client_error key (try_except m h).
Proof.
  intros Hm Hh s Hs. unfold try_except. destruct (Hm s Hs) as [H1 H2].
  destruct (m s) as [[a|e] s1]; simpl in *; [now split|].
  apply Hh; [congruence | exact H1].
Qed.

Lemma nce_try_pass (m : M unit) :
  no_client_error key m -> no_client_error key (try_pass m).
Proof. intros Hm. apply nce_try_except; [exact Hm|]. intros e _. apply nce_ret. Qed.

Lemma nce_readonly {A} (m : M A) :
  readonly m -> (forall s, fst (m s) <> Raise ClientError) ->
  no_client_error key m.
Proof. intros Hr He s Hs. split; [now rewrite (Hr s) | apply He]. Qed.

Lemma nce_with_root {A} (r : result A) es s :
  serving key s -> r <> Raise ClientError ->
  serving key (snd (r, os.with_root es s)) /\ fst (r, os.with_root es s) <> Raise ClientError.
Proof. now split. Qed.

Lemma namei_error r cur comps e :
  os.namei r cur comps = Raise e -> e <> ClientError.
Proof.
  revert cur. induction comps as [|c rest IH]; intros cur; simpl; [discriminate|].
  destruct (Tree.lookup r cur) as [[|es]|]; try (intros [= <-]; discriminate).
  destruct (_ || _)%bool; [apply IH|]. destruct (String.eqb c ".."); apply IH.
Qed.

Lemma nce_resolve path : no_client_error key (os.resolve path).
Proof.
  apply nce_readonly; [apply resolve_readonly|]. intros s. unfold os.resolve.
  destruct (String.eqb path EmptyString); [discriminate|]. simpl.
  destruct (os.namei _ _ _) as [p|e] eqn:E; [discriminate|].
  apply namei_error in E. congruence.
Qed.

Lemma nce_node_at p : no_client_error key (os.node_at p).
Proof. intros s Hs. now split. Qed.

Lemma nce_put_node p x : no_client_error key (os.put_node p x).
Proof.
  intros s Hs. unfold os.put_node.
  destruct (Tree.place _ p x) as [[|es]|]; now split.
Qed.

Lemma nce_del_node p : no_client_error key (os.del_node p).
Proof.
  intros s Hs. unfold os.del_node.
  destruct (Tree.remove _ p) as [[|es]|]; now split.
Qed.

End no_client_error.

Ltac nce_step :=
  lazymatch goal with
  | |- no_client_error _ (ret _) => apply nce_ret
  | |- no_client_error _ (raise _) => apply nce_raise; congruence
  | |- no_client_error _ get_state => apply nce_get_state
  | |- no_client_error _ (bind _ _) => apply nce_bind; [| intros ?]
  | |- no_client_error _ (try_pass _) => apply nce_try_pass
  | |- no_client_error _ (try_except _ _) => apply nce_try_except; [| intros ? ?]
  | |- no_client_error _ (when ?b _) => destruct b; cbn [when]
  | |- no_client_error _ (match ?x with _ => _ end) => destruct x
  end.

Create HintDb nce.

Ltac nce := repeat first [solve [eauto with nce] | nce_step].

#[global] Hint Resolve nce_resolve nce_node_at nce_put_node nce_del_node : nce.

Section store_failures.
Context `{Libs}.
Variable key : string.

Lemma nce_stat path : no_client_error key (os.stat path).
Proof. unfold os.stat. nce. Qed.
Hint Resolve nce_stat : nce.

Lemma nce_mkdir path : no_client_error key (os.mkdir path).
Proof. unfold os.mkdir. nce. Qed.

Lemma nce_remove path : no_client_error key (os.remove path).
Proof. unfold os.remove. nce. Qed.

Lemma nce_read_file path : no_client_error key (os.read_file path).
Proof. unfold os.read_file. nce. Qed.

Lemma nce_write_file path c : no_client_error key (os.write_file path c).
Proof. unfold os.write_file. nce. Qed.

Lemma nce_exists path : no_client_error key (os.path.exists_ path).
Proof. unfold os.path.exists_. nce. Qed.

Lemma nce_isdir path : no_client_error key (os.path.isdir path).
Proof. unfold os.path.isdir. nce. Qed.

Hint Resolve nce_mkdir nce_remove nce_read_file nce_write_file nce_exists
  nce_isdir : nce.

Lemma nce_makedirs_rec fuel name exist_ok :
  no_client_error key (os.makedirs_rec fuel name exist_ok).
Proof.
  revert name exist_ok. induction fuel as [|fuel IH]; intros name exist_ok; simpl; [nce|].
  destruct (posixpath.split name) as [head0 tail0].
  destruct (if String.eqb tail0 EmptyString then _ else _) as [head tail].
  destruct (_ && _)%bool; nce.
Qed.

Lemma nce_makedirs name exist_ok : no_client_error key (os.makedirs name exist_ok).
Proof. apply nce_makedirs_rec. Qed.
Hint Resolve nce_makedirs : nce.

Lemma nce_extract path m : no_client_error key (tarfile.extract path m).
Proof. unfold tarfile.extract. nce. Qed.
Hint Resolve nce_extract : nce.

Lemma nce_extractall path ms : no_client_error key (tarfile.extractall path ms).
Proof. induction ms as [|m r IH]; simpl; nce. Qed.
Hint Resolve nce_extractall : nce.

Lemma nce_unpack_archive filename extract_dir :
  no_client_error key (shutil.unpack_archive filename extract_dir).
Proof. unfold shutil.unpack_archive. nce. Qed.

Lemma nce_download_file filename : no_client_error key (s3.download_file key filename).
Proof.
  intros s Hs. unfold s3.download_file, s3.call.
  destruct Hs as [Hr [o Ho]]. rewrite Hr, Ho.
  apply nce_write_file. split; eauto.
Qed.

Hint Resolve nce_unpack_archive nce_download_file : nce.

Lemma nce_download base_dir local_ziped_path d :
  no_client_error key (S3FSStore._download base_dir key local_ziped_path (Some d)).
Proof.
  unfold S3FSStore._download, S3FSStore._save_local_last_modified, PathM.write_text.
  nce.
Qed.

End store_failures.

(** When [get] fails with [ClientError] (the object is not there, or the
    store does not answer), nothing was changed. *)
Lemma s3_get_client_error `{Libs} local_name base_dir s s' :
  S3FSStore.get local_name base_dir s = (Raise ClientError, s') -> s' = s.
Proof.
  unfold S3FSStore.get. intros H0.
  apply bind_inv in H0 as [(l & s1 & El & H0)|(e & El & _)];
    pose proof (readonly_eq _ _ _ _ (get_local_last_modified_readonly _ _) El) as ->;
    [|reflexivity].
  apply bind_inv in H0 as [(r & s1 & Er & H0)|(e & Er & _)];
    pose proof (readonly_eq _ _ _ _ (s3_get_last_modified_readonly _) Er) as ->;
    [|reflexivity].
  destruct (bool_decide _); [discriminate|].
  exfalso.
  assert (Hs : serving (local_name +:+ ".tar.gz") s).
  { unfold S3FSStore._get_remote_last_modified, s3.get_last_modified, s3.call in Er.
    destruct (s3_reachable s) eqn:Hr; [|discriminate].
    destruct (bucket s !! _) eqn:Eb; [|discriminate]. split; eauto. }
  destruct (nce_download _ base_dir (posixpath.join base_dir (local_name +:+ ".tar.gz"))
              r s Hs) as [_ Hno].
  rewrite H0 in Hno. now apply Hno.
Qed.


Section C6.
Context `{Libs}.
Variable self : FileStorage.t.
Let lock := FileLock.init (FileStorage.folder_path self).
Let base := pathlib.fspath (FileStorage.resource_group_path self).
Let store := FileStorage.fs_store self.


End C6.

Import TreeFacts PlainFacts MakedirsFacts.

(** * The members of an archive and the tree they were taken from *)

Lemma valid_names_cons k x r :
  valid_names (Dir ((k, x) :: r))
  = (plain_name k && negb (existsb (String.eqb k) (map fst r))
     && valid_names x && valid_names (Dir r))%bool.
Proof. reflexivity. Qed.

Lemma assoc_not_listed k es :
  existsb (String.eqb k) (map fst es) = false -> Tree.assoc k es = None.
Proof.
  induction es as [|[k' v] r IH]; [reflexivity|]. simpl.
  intros Hk. apply orb_false_elim in Hk as [Hk Hr]. rewrite Hk. now apply IH.
Qed.

Lemma assoc_listed k es :
  existsb (String.eqb k) (map fst es) = true -> Tree.assoc k es <> None.
Proof.
  induction es as [|[k' v] r IH]; [discriminate|]. simpl.
  destruct (String.eqb k k'); [discriminate|]. simpl. exact IH.
Qed.

(** In a directory of valid names every entry listed is the one that a
    lookup of its name finds. *)
Lemma valid_entry es k x :
  valid_names (Dir es) = true -> In (k, x) es ->
  plain_name k = true /\ valid_names x = true /\ Tree.assoc k es = Some x.
Proof.
  induction es as [|[k' x'] r IH]; [contradiction|].
  rewrite valid_names_cons. intros Hv Hin.
  apply andb_prop in Hv as [Hv Hr]. apply andb_prop in Hv as [Hv Hx].
  apply andb_prop in Hv as [Hk Hnew]. apply negb_true_iff in Hnew.
  destruct Hin as [[= -> ->]|Hin].
  - simpl. now rewrite String.eqb_refl.
  - destruct (IH Hr Hin) as (Pk & Vx & Ha). split; [exact Pk|]. split; [exact Vx|].
    simpl. destruct (String.eqb_spec k k') as [->|Hne]; [|exact Ha].
    apply assoc_not_listed in Hnew. congruence.
Qed.

Lemma names_assoc_set k v es :
  map fst (Tree.assoc_set k v es)
  = if existsb (String.eqb k) (map fst es) then map fst es else map fst es ++ [k].
Proof.
  induction es as [|[k' v'] r IH]; [reflexivity|]. simpl.
  destruct (String.eqb k k') eqn:E; simpl.
  - apply String.eqb_eq in E. now subst.
  - rewrite IH. now destruct (existsb _ _).
Qed.

Lemma existsb_snoc (f : string -> bool) l k :
  existsb f (l ++ [k]) = (existsb f l || f k)%bool.
Proof. rewrite existsb_app. simpl. now rewrite orb_false_r. Qed.

(** A regular file set among valid names, in the place of a regular file
    or of nothing: the names were valid before. *)
Lemma valid_names_before_set k c es :
  is_dir_node (Tree.assoc k es) = false ->
  valid_names (Dir (Tree.assoc_set k (File c) es)) = true ->
  valid_names (Dir es) = true.
Proof.
  induction es as [|[k' x'] r IH]; [reflexivity|]. simpl Tree.assoc.
  simpl Tree.assoc_set. destruct (String.eqb k k') eqn:E.
  - apply String.eqb_eq in E. subst k'. intros Hd.
    rewrite !valid_names_cons. intros Hv.
    apply andb_prop in Hv as [Hv Hr]. apply andb_prop in Hv as [Hv _].
    rewrite Hv, Hr. destruct x' as [c'|es']; [reflexivity | discriminate].
  - intros Hd. rewrite !valid_names_cons, names_assoc_set. intros Hv.
    apply andb_prop in Hv as [Hv Hr]. apply andb_prop in Hv as [Hv Hx].
    apply andb_prop in Hv as [Hk Hnew].
    assert (Hnew' : negb (existsb (String.eqb k') (map fst r)) = true).
    { destruct (existsb (String.eqb k) (map fst r)); [exact Hnew|].
      rewrite existsb_snoc in Hnew. apply negb_true_iff in Hnew.
      apply orb_false_elim in Hnew as [-> _]. reflexivity. }
    now rewrite Hk, Hx, (IH Hd Hr), Hnew'.
Qed.

(** ** The names of the members *)

Lemma endswith_join l :
  l <> [] -> forallb plain_name l = true ->
  PyStr.endswith_slash (PyStr.join_slash l) = false.
Proof.
  intros Hne Hl. destruct (exists_last Hne) as (l' & c & ->).
  rewrite forallb_app in Hl. apply andb_prop in Hl as [_ Hc].
  simpl in Hc. rewrite andb_true_r in Hc.
  destruct l' as [|d l'].
  - simpl. now apply endswith_plain.
  - rewrite join_snoc by discriminate.
    rewrite endswith_append; [|now destruct c].
    rewrite endswith_append by now apply plain_not_empty.
    now apply endswith_plain.
Qed.

Lemma join_not_empty l :
  l <> [] -> forallb plain_name l = true -> PyStr.join_slash l <> EmptyString.
Proof.
  intros Hne Hl. destruct l as [|c l]; [congruence|].
  simpl in Hl. apply andb_prop in Hl as [Hc _].
  destruct c as [|a c]; [discriminate|]. destruct l as [|d l]; [discriminate|].
  change (PyStr.join_slash (String a c :: d :: l))
    with (String a c +:+ "/" +:+ PyStr.join_slash (d :: l)).
  rewrite append_cons. discriminate.
Qed.

(** The member name of an entry [k] of the directory archived as [l] *)
Lemma join_member l k :
  l <> [] -> forallb plain_name l = true -> plain_name k = true ->
  posixpath.join (PyStr.join_slash l) k = PyStr.join_slash (l ++ [k]).
Proof.
  intros Hne Hl Hk. unfold posixpath.join.
  rewrite startswith_plain by assumption.
  rewrite endswith_join by assumption.
  destruct (String.eqb_spec (PyStr.join_slash l) EmptyString) as [E|_];
    [now apply join_not_empty in E|].
  simpl. now rewrite join_snoc.
Qed.

Lemma abs_app l l' :
  l <> [] -> l' <> [] ->
  abs_str (l ++ l') = abs_str l +:+ "/" +:+ PyStr.join_slash l'.
Proof.
  intros Hl. revert l Hl. induction l' as [|c l' IH]; intros l Hl Hl'; [congruence|].
  destruct l' as [|d l'].
  - now rewrite abs_snoc.
  - change (l ++ c :: d :: l') with (l ++ [c] ++ d :: l').
    rewrite app_assoc, IH by (try discriminate; apply snoc_not_nil).
    rewrite abs_snoc by assumption.
    change (PyStr.join_slash (c :: d :: l'))
      with (c +:+ "/" +:+ PyStr.join_slash (d :: l')).
    now rewrite !append_assoc.
Qed.

Lemma startswith_join l :
  l <> [] -> forallb plain_name l = true ->
  PyStr.startswith_slash (PyStr.join_slash l) = false.
Proof.
  intros Hne Hl. destruct l as [|c l]; [congruence|].
  simpl in Hl. apply andb_prop in Hl as [Hc _].
  pose proof (startswith_plain _ Hc) as Hs.
  destruct l as [|d l]; [exact Hs|].
  change (PyStr.join_slash (c :: d :: l)) with (c +:+ "/" +:+ PyStr.join_slash (d :: l)).
  destruct c as [|a c]; [discriminate | exact Hs].
Qed.

(** Where a member named by the plain path [l'] is extracted below [l] *)
Lemma join_extracted l l' :
  l <> [] -> forallb plain_name l = true ->
  l' <> [] -> forallb plain_name l' = true ->
  posixpath.join (abs_str l) (PyStr.join_slash l') = abs_str (l ++ l').
Proof.
  intros Hne Hl Hne' Hl'. unfold posixpath.join.
  rewrite startswith_join by assumption.
  rewrite endswith_abs by assumption.
  rewrite abs_str_cons at 1. simpl. now rewrite abs_app.
Qed.

(** ** What [members_of] lists *)

Lemma node_induction (P : node -> Prop) :
  (forall c, P (File c)) ->
  (forall es, (forall k x, In (k, x) es -> P x) -> P (Dir es)) ->
  forall n, P n.
Proof.
  intros Hf Hd.
  refine (fix IH (n : node) : P n :=
            match n with
            | File c => Hf c
            | Dir es =>
                Hd es ((fix go (es : list (string * node))
                          : forall k x, In (k, x) es -> P x :=
                          match es with
                          | [] => fun k x (H : In (k, x) []) => match H with end
                          | (k', x') :: r =>
                              fun k x (H : In (k, x) ((k', x') :: r)) =>
                                match H with
                                | or_introl E =>
                                    eq_ind x' P (IH x') x (f_equal snd E)
                                | or_intror H' => go r k x H'
                                end
                          end) es)
            end).
Qed.

Lemma members_of_dir arcname es :
  tarfile.members_of arcname (Dir es)
  = (arcname, None)
    :: concat (map snd (tarfile.sort_by_name (members_below arcname es))).
Proof.
  simpl. do 4 f_equal. induction es as [|[k x] r IH]; [reflexivity|].
  simpl. now rewrite IH.
Qed.

Lemma in_insert_sorted {A} k (v : A) l e :
  In e (tarfile.insert_sorted k v l) <-> e = (k, v) \/ In e l.
Proof.
  induction l as [|[k' v'] r IH]; simpl; [intuition|].
  destruct (String.leb k k'); simpl; [intuition|]. rewrite IH. intuition.
Qed.

Lemma in_sort_by_name {A} (l : list (string * A)) e :
  In e (tarfile.sort_by_name l) <-> In e l.
Proof.
  unfold tarfile.sort_by_name. induction l as [|[k v] r IH]; simpl; [tauto|].
  rewrite in_insert_sorted, IH. intuition.
Qed.

(** Every member of the archive of a directory of valid names is named
    by the plain path of a node of the directory, and a file member
    holds the content of the file there. *)
Lemma members_of_spec n :
  forall l, l <> [] -> forallb plain_name l = true ->
  valid_names n = true ->
  forall a oc, In (a, oc) (tarfile.members_of (PyStr.join_slash l) n) ->
  exists ks, forallb plain_name ks = true /\
             a = PyStr.join_slash (l ++ ks) /\
             match oc with
             | Some c => Tree.lookup n ks = Some (File c)
             | None => is_dir_node (Tree.lookup n ks) = true
             end.
Proof.
  induction n as [c|es IH] using node_induction; intros l Hne Hl Hv a oc Hin.
  - simpl in Hin. destruct Hin as [[= <- <-]|[]].
    exists []. rewrite app_nil_r. auto.
  - rewrite members_of_dir in Hin. destruct Hin as [[= <- <-]|Hin].
    { exists []. rewrite app_nil_r. auto. }
    apply (proj1 (in_concat _ _)) in Hin as (ms & Hms & Hin).
    apply (proj1 (in_map_iff _ _ _)) in Hms as ([k ms'] & <- & Hms). simpl in Hin.
    apply (proj1 (in_sort_by_name _ _)) in Hms. unfold members_below in Hms.
    apply (proj1 (in_map_iff _ _ _)) in Hms as ([k' x] & [= <- <-] & Hex).
    simpl in *.
    destruct (valid_entry _ _ _ Hv Hex) as (Pk & Vx & Ha).
    rewrite join_member in Hin by assumption.
    destruct (IH _ _ Hex (l ++ [k']) (snoc_not_nil _ _) (plain_snoc _ _ Hl Pk) Vx
                _ _ Hin) as (ks & Pks & -> & Hlk).
    exists (k' :: ks). split; [simpl; now rewrite Pk|].
    split; [now rewrite <- app_assoc|]. simpl. now rewrite Ha.
Qed.

Import TreeFacts PlainFacts MakedirsFacts.

(** * What a download leaves in place *)

Global Instance holds_refl q c : Reflexive (holds q c).
Proof. now intros s. Qed.

Global Instance holds_trans q c : Transitive (holds q c).
Proof. intros s1 s2 s3 H1 H2 Hq. auto. Qed.

Global Instance dirs_stay_refl : Reflexive dirs_stay.
Proof. now intros s x. Qed.

Global Instance dirs_stay_trans : Transitive dirs_stay.
Proof. intros s1 s2 s3 H1 H2 x Hx. auto. Qed.

Lemma stays_kept_holds q c {A} (m : M A) : stays (kept q) m -> stays (holds q c) m.
Proof. intros Hm s Hq. now apply Hm. Qed.

Lemma stays_grows_dirs_stay {A} (m : M A) : stays grows m -> stays dirs_stay m.
Proof. intros Hm s x Hx. destruct (Hm s) as (_ & _ & Hd). now apply Hd. Qed.

Lemma readonly_holds q c {A} (m : M A) : readonly m -> stays (holds q c) m.
Proof. apply readonly_stays. typeclasses eauto. Qed.

Lemma readonly_dirs_stay {A} (m : M A) : readonly m -> stays dirs_stay m.
Proof. apply readonly_stays. typeclasses eauto. Qed.

#[global] Hint Extern 5 (stays (holds _ _) _) =>
  (apply readonly_holds; solve [eauto with frame]) : frame.
#[global] Hint Extern 8 (stays (holds _ _) _) =>
  (apply stays_kept_holds; solve [eauto with frame]) : frame.
#[global] Hint Extern 5 (stays dirs_stay _) =>
  (apply readonly_dirs_stay; solve [eauto with frame]) : frame.
#[global] Hint Extern 8 (stays dirs_stay _) =>
  (apply stays_grows_dirs_stay; solve [eauto with frame]) : frame.

(** One step of a computation, for a relation between the states *)
Lemma related_bind (R : relation state) `{!Transitive R} {A B}
    (m : M A) (k : A -> M B) s :
  R s (snd (m s)) ->
  (forall a s1, m s = (Ok a, s1) -> R s1 (snd (k a s1))) ->
  R s (snd (bind m k s)).
Proof.
  unfold bind. destruct (m s) as [[a|e] s1]; simpl; intros H1 H2; [|exact H1].
  etransitivity; [exact H1 | now apply H2].
Qed.

Lemma related_bind_readonly (R : relation state) {A B}
    (m : M A) (k : A -> M B) s :
  readonly m -> R s s ->
  (forall a, m s = (Ok a, s) -> R s (snd (k a s))) ->
  R s (snd (bind m k s)).
Proof.
  intros Hm Hr Hk. unfold bind. destruct (m s) as [[a|e] s1] eqn:E;
    pose proof (readonly_eq _ _ _ _ Hm E) as ->; simpl; auto.
Qed.

(** ** Files *)

Lemma startswith_anchored l : PyStr.startswith_slash ("/" +:+ l) = true.
Proof. reflexivity. Qed.

Lemma joined_anchor p name : anchor p = true -> anchor (p // name) = true.
Proof.
  intros Hp. unfold pathlib.joinpath.
  destruct (anchor (pathlib.of_str name)) eqn:E; [exact E | exact Hp].
Qed.

Lemma fspath_anchored p :
  anchor p = true -> PyStr.startswith_slash (pathlib.fspath p) = true.
Proof. intros Hp. unfold pathlib.fspath. now rewrite Hp. Qed.

(** A file written elsewhere *)
Lemma write_file_kept_elsewhere q path c :
  PyStr.startswith_slash path = true ->
  lexical [] (PyStr.split_slash path) <> q ->
  stays (kept q) (os.write_file path c).
Proof.
  intros Ha Hq. apply stays_Ok_or_same; [typeclasses eauto | |].
  - intros s [] s' H. apply write_file_inv in H as (p & es' & Hr & Hn & Hp & ->).
    apply resolve_lexical in Hr. rewrite Ha in Hr. subst p.
    apply kept_with_root. intros c0 Hc0.
    apply (place_keeps_files _ _ _ _ _ _ Hp Hn); [congruence | exact Hc0].
  - intros s e s'. apply write_file_Raise.
Qed.

(** A file written with the content that it is to hold *)
Lemma write_file_holds q c l c' :
  l <> [] -> forallb plain_name l = true -> (l = q -> c' = c) ->
  stays (holds q c) (os.write_file (abs_str l) c').
Proof.
  intros Hne Hl Hc. destruct (decide (l = q)) as [->|Hq].
  - rewrite (Hc eq_refl). apply stays_Ok_or_same; [typeclasses eauto | |].
    + intros s [] s' H _. apply write_file_inv in H as (p & es' & Hr & _ & Hp & ->).
      apply resolve_abs_inv in Hr as [-> _]; [|assumption..].
      exact (place_lookup_same _ _ _ _ Hp).
    + intros s e s'. apply write_file_Raise.
  - apply stays_kept_holds. now apply write_file_kept.
Qed.

Lemma remove_keeps_dirs r p r' c x :
  Tree.remove r p = Some r' -> Tree.lookup r p = Some (File c) ->
  is_dir_node (Tree.lookup r x) = true -> is_dir_node (Tree.lookup r' x) = true.
Proof.
  intros Hr Hp Hx.
  destruct (path_cases p x) as [->|[(d & t & ->)|[(d & t & ->)|Hd]]].
  - now rewrite Hp in Hx.
  - now apply remove_lookup_above in Hr as [_ Hr].
  - rewrite lookup_path_app, Hp in Hx. now destruct t.
  - now rewrite (remove_lookup_diverge _ _ _ _ Hr Hd).
Qed.

Lemma remove_dirs_stay path : stays dirs_stay (os.remove path).
Proof.
  apply stays_Ok_or_same; [typeclasses eauto | |].
  - intros s [] s' H. apply remove_inv in H as (p & c & es' & _ & Hp & Hrem & ->).
    intros x Hx. exact (remove_keeps_dirs _ _ _ _ _ Hrem Hp Hx).
  - intros s e s'. apply remove_Raise.
Qed.
#[global] Hint Resolve remove_dirs_stay : frame.

Lemma download_file_dirs_stay key filename :
  stays dirs_stay (s3.download_file key filename).
Proof.
  intros s. unfold s3.download_file, s3.call.
  destruct (s3_reachable s); [|reflexivity].
  destruct (bucket s !! key); [|reflexivity].
  apply stays_grows_dirs_stay, write_file_grows.
Qed.
#[global] Hint Resolve download_file_dirs_stay : frame.

Lemma makedirs_dirs_stay name exist_ok : stays dirs_stay (os.makedirs name exist_ok).
Proof. apply stays_grows_dirs_stay, makedirs_grows. Qed.
#[global] Hint Resolve makedirs_dirs_stay : frame.

(** ** Archives *)

Lemma extract_dirs_stay path m : stays dirs_stay (tarfile.extract path m).
Proof. unfold tarfile.extract. frame. Qed.
#[global] Hint Resolve extract_dirs_stay : frame.

Lemma extractall_dirs_stay path ms : stays dirs_stay (tarfile.extractall path ms).
Proof. induction ms as [|m r IH]; simpl; frame. Qed.
#[global] Hint Resolve extractall_dirs_stay : frame.

Lemma unpack_archive_dirs_stay filename extract_dir :
  stays dirs_stay (shutil.unpack_archive filename extract_dir).
Proof. unfold shutil.unpack_archive. frame. Qed.
#[global] Hint Resolve unpack_archive_dirs_stay : frame.

(** [get] of the remote store loses no directory. *)
Lemma s3_get_dirs_stay `{Libs} local_name base_dir :
  stays dirs_stay (S3FSStore.get local_name base_dir).
Proof.
  unfold S3FSStore.get, S3FSStore._download, S3FSStore._save_local_last_modified,
    S3FSStore._get_remote_last_modified.
  frame.
Qed.

Section unpacking.
Variable gp : list string.
Variable fn : string.
Hypothesis Hgp : gp <> [].
Hypothesis Hpl : forallb plain_name gp = true.
Hypothesis Hfn : plain_name fn = true.
Variable q : list string.
Variable c : content.

Lemma extract_holds m :
  member_agrees gp fn q c m -> stays (holds q c) (tarfile.extract (abs_str gp) m).
Proof.
  intros (ks & Pks & Hname & Hc). destruct m as [a oc]. cbn [fst snd] in Hname, Hc.
  subst a. unfold tarfile.extract. cbn [fst snd].
  assert (Pl : forallb plain_name (fn :: ks) = true) by (simpl; now rewrite Hfn).
  rewrite join_extracted by (assumption || discriminate).
  assert (Hne : gp ++ fn :: ks <> []) by now destruct gp.
  assert (Pt : forallb plain_name (gp ++ fn :: ks) = true)
    by now rewrite forallb_app, Hpl.
  destruct oc as [c'|].
  - pose proof (write_file_holds q c _ c' Hne Pt (Hc c' eq_refl)) as Hw.
    frame.
  - frame.
Qed.

Lemma extractall_holds ms :
  Forall (member_agrees gp fn q c) ms ->
  stays (holds q c) (tarfile.extractall (abs_str gp) ms).
Proof.
  induction 1 as [|m r Hm Hr IH]; simpl; [frame|].
  pose proof (extract_holds m Hm). frame.
Qed.

End unpacking.

Import TreeFacts PlainFacts MakedirsFacts.

(** * The object that [put] stores, and the [get] that follows it *)

Lemma place_lookup_parent d k : forall r x r',
  Tree.place r (d ++ [k]) x = Some r' ->
  exists es, Tree.lookup r d = Some (Dir es) /\
             Tree.lookup r' d = Some (Dir (Tree.assoc_set k x es)).
Proof.
  induction d as [|c d IH]; intros r x r' Hp.
  - simpl app in Hp. apply place_cons_inv in Hp as (es & m' & -> & -> & ->).
    now exists es.
  - simpl app in Hp.
    apply place_cons_inv_deep in Hp as (es & m & m' & -> & Ha & Hq & ->);
      [|apply snoc_not_nil].
    destruct (IH _ _ _ Hq) as (es0 & H1 & H2). exists es0.
    simpl. now rewrite Ha, assoc_set_same.
Qed.

Lemma append_longer (a b : string) : b <> EmptyString -> a +:+ b <> a.
Proof.
  intros Hb. induction a as [|x a IH]; [exact Hb|].
  rewrite append_cons. intros [= E]. now apply IH.
Qed.

Lemma chdir_inv path s s' :
  os.chdir path s = (Ok tt, s') ->
  exists p, os.resolve path s = (Ok p, s) /\
            is_dir_node (Tree.lookup (os.root_node s) p) = true /\
            s' = os.with_cwd p s.
Proof.
  unfold os.chdir. intros H. ro_step H p Ep. ro_step H n En.
  unfold os.node_at in En. injection En as <-.
  destruct (Tree.lookup (os.root_node s) p) as [[c|es]|] eqn:El; try discriminate.
  injection H as <-. exists p. now rewrite El.
Qed.

Lemma lstrip_plain c : plain_name c = true -> tarfile.lstrip_slash c = c.
Proof.
  intros Hc. apply startswith_plain in Hc. destruct c as [|a c]; [reflexivity|].
  simpl in *. now rewrite Hc.
Qed.

(** A plain name looked up from the working directory *)
Lemma stat_in_cwd c s n :
  plain_name c = true -> os.stat c s = (Ok n, s) ->
  Tree.lookup (os.root_node s) (cwd s ++ [c]) = Some n.
Proof.
  intros Hc Hs. apply stat_inv in Hs as (_ & p & Hr & Hn).
  apply resolve_inv in Hr as [_ Hr].
  destruct (String.eqb_spec c EmptyString) as [->|_]; [discriminate|].
  rewrite startswith_plain in Hr by assumption.
  rewrite split_no_slash in Hr by now apply plain_no_slash.
  symmetry in Hr. apply namei_plain_inv in Hr as [-> _]; [exact Hn|].
  simpl. now rewrite Hc.
Qed.

Lemma makedirs_rec_bucket fuel name exist_ok :
  preserves bucket (os.makedirs_rec fuel name exist_ok).
Proof.
  revert name. induction fuel as [|fuel IH]; intros name; simpl; [frame|].
  destruct (posixpath.split name) as [head0 tail0].
  destruct (if String.eqb tail0 EmptyString then _ else _) as [head tail].
  unfold os.mkdir. destruct (_ && _)%bool; frame.
Qed.

Lemma makedirs_bucket name exist_ok : preserves bucket (os.makedirs name exist_ok).
Proof. apply makedirs_rec_bucket. Qed.

Section remote_round_trip.
Context `{Libs}.
Variable gp : list string.
Variable fn : string.
Hypothesis Hgp : gp <> [].
Hypothesis Hpl : forallb plain_name gp = true.
Hypothesis Hfn : plain_name fn = true.

Let base := abs_str gp.
Let folder := gp ++ [fn].
Let zipped := gp ++ [fn +:+ ".tar.gz"].
Let marker := (gp ++ [fn]) ++ ["last_modified.txt"].
Let key := fn +:+ ".tar.gz".

Lemma zipped_apart_from_folder : diverge zipped folder = true.
Proof.
  unfold zipped, folder. clear Hpl Hgp. induction gp as [|c l IH]; simpl.
  - destruct (String.eqb_spec (fn +:+ ".tar.gz") fn) as [E|_]; [|reflexivity].
    now apply append_longer in E.
  - now rewrite String.eqb_refl.
Qed.

Lemma dirname_zipped : os.path.dirname (abs_str zipped) = abs_str gp.
Proof.
  unfold os.path.dirname, zipped.
  rewrite split_abs_snoc; [reflexivity | assumption | exact (plain_zipped gp fn Hpl Hfn)].
Qed.

(** The archive that the on-disk branch makes and uploads *)
Lemma on_disk_object s sc :
  (let! _ := shutil.make_archive (posixpath.join base fn) base fn in
   s3.upload_file (posixpath.join base key) key >>
   os.remove (posixpath.join base key)) s = (Ok tt, sc) ->
  exists n o,
    Tree.lookup (os.root_node s) folder = Some n /\
    bucket sc !! key = Some o /\
    body o = Archive (tarfile.members_of fn n) /\
    Tree.lookup (os.root_node sc) folder = Some n.
Proof.
  intros H0.
  pose proof (snoc_not_nil gp (fn +:+ ".tar.gz")) as Hzne. fold zipped in Hzne.
  pose proof (plain_zipped gp fn Hpl Hfn) as Hzpl. fold zipped in Hzpl.
  apply bind_Ok_inv in H0 as (archive & s2 & Hmk & H0).
  apply bind_Ok_inv in H0 as ([] & s3 & Hup & Hrm).
  unfold base, key in Hup, Hrm. rewrite (zipped_path gp fn Hgp Hpl Hfn) in Hup, Hrm.
  fold zipped key in Hup, Hrm.
  (* make_archive *)
  unfold shutil.make_archive in Hmk. unfold base in Hmk.
  rewrite (folder_path_str gp fn Hgp Hpl Hfn) in Hmk.
  ro_step Hmk save_cwd Ecwd. ro_step Hmk abs_base Eabs.
  rewrite abspath_abs in Eabs
    by (apply snoc_not_nil || exact (plain_folder gp fn Hpl Hfn)).
  injection Eabs as <-. rewrite abs_append in Hmk by assumption. fold zipped in Hmk.
  apply bind_Ok_inv in Hmk as ([] & s_c & Hch & Hmk).
  apply chdir_inv in Hch as (p0 & Hr0 & Hd0 & ->).
  apply resolve_abs_inv in Hr0 as [-> _]; [|assumption..].
  unfold try_finally in Hmk.
  match type of Hmk with
  | context [?body (os.with_cwd gp s)] =>
      destruct (body (os.with_cwd gp s)) as [r s_e] eqn:Hbody
  end.
  destruct (os.chdir save_cwd s_e) as [[[]|e] s_f] eqn:Hch2; [|discriminate].
  injection Hmk as -> ->.
  apply chdir_inv in Hch2 as (p1 & _ & _ & ->).
  (* the body of make_archive, in the group directory *)
  cbv zeta in Hbody. rewrite dirname_zipped in Hbody.
  assert (Hex : os.path.exists_ (abs_str gp) (os.with_cwd gp s)
                = (Ok true, os.with_cwd gp s)).
  { destruct (Tree.lookup (os.root_node s) gp) as [[|es]|] eqn:El; try discriminate.
    eapply exists_intro, stat_plain; [assumption.. | exact El]. }
  rewrite (bind_Ok _ _ _ _ _ Hex) in Hbody.
  apply bind_Ok_inv in Hbody as ([] & sx & Hret & Hbody).
  unfold ret in Hret. injection Hret as <-.
  apply bind_Ok_inv in Hbody as ([] & s_d & Hw1 & Hbody).
  apply write_file_inv in Hw1 as (pz & es1 & Hrz & _ & Hp1 & ->).
  apply resolve_abs_inv in Hrz as [-> _]; [|assumption..].
  ro_step Hbody ms Eadd.
  unfold tarfile.add in Eadd. ro_step Eadd n Est.
  unfold ret in Eadd. injection Eadd as <-.
  apply stat_in_cwd in Est; [|assumption]. cbn [cwd os.with_root os.with_cwd] in Est.
  change (os.root_node (os.with_root es1 (os.with_cwd gp s))) with (Dir es1) in Est.
  fold folder in Est.
  rewrite (place_lookup_diverge _ _ _ _ _ Hp1 zipped_apart_from_folder) in Est.
  change (os.root_node (os.with_cwd gp s)) with (os.root_node s) in Est.
  rewrite lstrip_plain in Hbody by assumption.
  apply bind_Ok_inv in Hbody as ([] & s_e' & Hw2 & Hret).
  unfold ret in Hret. injection Hret as _ <-.
  apply write_file_inv in Hw2 as (pz & es2 & Hrz & _ & Hp2 & ->).
  apply resolve_abs_inv in Hrz as [-> _]; [|assumption..].
  change (os.root_node (os.with_root es1 (os.with_cwd gp s))) with (Dir es1) in Hp2.
  (* upload_file *)
  unfold s3.upload_file in Hup. ro_step Hup cz Eread.
  apply read_file_inv, stat_plain_inv in Eread; [|assumption..].
  change (Tree.lookup (Dir es2) zipped = Some (File cz)) in Eread.
  rewrite (place_lookup_same _ _ _ _ Hp2) in Eread. injection Eread as <-.
  unfold s3.call, s3.store in Hup. cbn [s3_reachable os.with_cwd os.with_root] in Hup.
  destruct (s3_reachable s); [|discriminate]. injection Hup as <-.
  (* os.remove *)
  apply remove_inv in Hrm as (pz & cz & es3 & Hrz & _ & Hrem & ->).
  apply resolve_abs_inv in Hrz as [-> _]; [|assumption..].
  change (Tree.remove (Dir es2) zipped = Some (Dir es3)) in Hrem.
  exists n. eexists. split; [exact Est|]. split; [|split].
  - cbn [bucket os.with_root os.with_bucket os.with_cwd]. apply lookup_insert_eq.
  - reflexivity.
  - change (Tree.lookup (Dir es3) folder = Some n).
    rewrite (remove_lookup_diverge _ _ _ _ Hrem zipped_apart_from_folder).
    rewrite (place_lookup_diverge _ _ _ _ _ Hp2 zipped_apart_from_folder).
    rewrite (place_lookup_diverge _ _ _ _ _ Hp1 zipped_apart_from_folder).
    exact Est.
Qed.

(** The object that the in-memory branch uploads: the buffer is read
    from the end of the archive written to it. *)
Lemma in_memory_object old_cwd s sc :
  (os.chdir base >>
   let! entries := PathM.iterdir (pathlib.of_str base // fn) in
   let! tar := S3FSStore.add_entries entries [] in
   let fh := io.written_by_tarfile tar in
   os.chdir old_cwd >>
   s3.upload_fileobj fh key) s = (Ok tt, sc) ->
  exists o,
    bucket sc !! key = Some o /\ body o = Bytes EmptyString /\
    os.root_node sc = os.root_node s.
Proof.
  intros H0.
  apply bind_Ok_inv in H0 as ([] & s2 & Hch & H0).
  apply chdir_inv in Hch as (p0 & _ & _ & ->).
  ro_step H0 entries Ee.
  apply bind_Ok_inv in H0 as (tar & s3 & Ea & H0).
  pose proof (readonly_eq _ _ _ _ (add_entries_readonly _ _) Ea) as ->.
  cbv zeta in H0.
  apply bind_Ok_inv in H0 as ([] & s4 & Hch2 & Hup).
  apply chdir_inv in Hch2 as (p1 & _ & _ & ->).
  unfold s3.upload_fileobj, s3.call, s3.store in Hup.
  cbn [s3_reachable os.with_cwd] in Hup.
  destruct (s3_reachable s); [|discriminate]. injection Hup as <-.
  eexists. split; [|split].
  - cbn [bucket os.with_bucket os.with_cwd]. apply lookup_insert_eq.
  - reflexivity.
  - reflexivity.
Qed.

(** What a successful [put] has stored, and what it has done to the
    resource directory: the marker is set in it. *)
Lemma put_object cl s s1 :
  S3FSStore.put fn base cl s = (Ok tt, s1) ->
  exists o es ts,
    bucket s1 !! key = Some o /\
    Tree.lookup (os.root_node s) folder = Some (Dir es) /\
    is_dir_node (Tree.assoc "last_modified.txt" es) = false /\
    Tree.lookup (os.root_node s1) folder
    = Some (Dir (Tree.assoc_set "last_modified.txt" (File (Bytes ts)) es)) /\
    (body o = Bytes EmptyString \/
     body o = Archive (tarfile.members_of fn (Dir es))).
Proof.
  unfold S3FSStore.put. intros H0.
  ro_step H0 old_cwd Ecwd.
  apply bind_Ok_inv in H0 as (dir_size & sz & Esz & H0).
  pose proof (readonly_eq _ _ _ _ (glob_files_size_readonly _) Esz) as ->.
  apply bind_Ok_inv in H0 as (sx & sz & Egs & H0).
  unfold get_state in Egs. injection Egs as <- <-.
  apply bind_Ok_inv in H0 as ([] & sc & Hbranch & H0).
  assert (Hb : exists o,
             bucket sc !! key = Some o /\
             Tree.lookup (os.root_node sc) folder
             = Tree.lookup (os.root_node s) folder /\
             (body o = Bytes EmptyString \/
              exists n, Tree.lookup (os.root_node s) folder = Some n /\
                        body o = Archive (tarfile.members_of fn n))).
  { destruct (Nat.ltb _ _).
    - apply in_memory_object in Hbranch as (o & Ho & Hbody & Hroot).
      exists o. rewrite Hroot. auto.
    - apply on_disk_object in Hbranch as (n & o & Hn & Ho & Hbody & Hn').
      exists o. split; [exact Ho|]. split; [congruence|]. right. eauto. }
  destruct Hb as (o & Ho & Hsame & Hbody).
  ro_step H0 t Et.
  unfold S3FSStore._save_local_last_modified in H0.
  unfold base in H0. rewrite (marker_path gp fn Hgp Hpl Hfn) in H0.
  unfold PathM.write_text in H0. rewrite fspath_abs in H0.
  apply write_file_inv in H0 as (pm & es' & Hr & Hnd & Hp & ->).
  apply resolve_abs_inv in Hr as [-> _];
    [|apply snoc_not_nil | exact (plain_marker gp fn Hpl Hfn)].
  destruct (place_lookup_parent _ _ _ _ _ Hp) as (es & H1 & H2).
  rewrite lookup_path_app, H1 in Hnd. simpl in Hnd.
  fold folder in H1, H2.
  exists o, es, (strftime t). split; [exact Ho|]. split; [congruence|].
  split; [now destruct (Tree.assoc "last_modified.txt" es)|]. split; [exact H2|].
  destruct Hbody as [Hb|(n & Hn & Hb)]; [now left|]. right.
  rewrite Hb. do 2 f_equal. congruence.
Qed.

(** ** The [get] that follows *)

Variable q : list string.
Variable c : content.
Hypothesis Hqz : q <> zipped.
Hypothesis Hqd : q <> download_marker gp fn.

(** With the object [o] in the bucket, whose members (if it is an
    archive) agree with the file [q], a [get] leaves [q] as it is. *)
Lemma s3_get_holds s o :
  bucket s !! key = Some o ->
  (forall ms, body o = Archive ms -> Forall (member_agrees gp fn q c) ms) ->
  holds q c s (snd (S3FSStore.get fn base s)).
Proof.
  intros Ho Hms. unfold S3FSStore.get.
  apply related_bind_readonly; [frame | reflexivity|]. intros l _.
  apply related_bind_readonly; [frame | reflexivity|]. intros r _.
  destruct (bool_decide _); [reflexivity|].
  unfold S3FSStore._download. unfold base. rewrite (zipped_path gp fn Hgp Hpl Hfn).
  fold zipped base.
  pose proof (snoc_not_nil gp (fn +:+ ".tar.gz")) as Hzne. fold zipped in Hzne.
  pose proof (plain_zipped gp fn Hpl Hfn) as Hzpl. fold zipped in Hzpl.
  apply related_bind; [typeclasses eauto | apply stays_kept_holds, makedirs_kept|].
  intros [] s1 Hmk.
  assert (Hb1 : bucket s1 = bucket s).
  { pose proof (makedirs_bucket base true s) as Hb. now rewrite Hmk in Hb. }
  apply related_bind; [typeclasses eauto | |].
  { unfold s3.download_file, s3.call. destruct (s3_reachable s1); [|reflexivity].
    destruct (bucket s1 !! _); [|reflexivity].
    apply stays_kept_holds, write_file_kept; [assumption.. | congruence]. }
  intros [] s2 Hdl.
  assert (Hz : Tree.lookup (os.root_node s2) zipped = Some (File (body o))).
  { unfold s3.download_file, s3.call in Hdl.
    destruct (s3_reachable s1); [|discriminate].
    fold key in Hdl. rewrite Hb1, Ho in Hdl.
    apply write_file_inv in Hdl as (pz & es' & Hr & _ & Hp & ->).
    apply resolve_abs_inv in Hr as [-> _]; [|assumption..].
    exact (place_lookup_same _ _ _ _ Hp). }
  apply related_bind; [typeclasses eauto | |].
  { unfold shutil.unpack_archive.
    rewrite (bind_Ok _ _ _ _ _ (read_plain _ _ _ Hzne Hzpl Hz)).
    destruct (body o) as [b|ms] eqn:Eb; [reflexivity|].
    exact (extractall_holds gp fn Hgp Hpl Hfn q c ms (Hms ms eq_refl) s2). }
  intros [] s3 _.
  assert (Hrest : stays (holds q c)
            (os.remove (abs_str zipped) >>
             (let! last_modified := ret r in
              S3FSStore._save_local_last_modified base
                (PyStr.replace "tar.gz" EmptyString (fn +:+ ".tar.gz"))
                last_modified))).
  { unfold S3FSStore._save_local_last_modified, PathM.write_text.
    assert (Hrm : stays (holds q c) (os.remove (abs_str zipped))).
    { apply stays_kept_holds, remove_kept; [assumption.. | congruence]. }
    assert (Hw : forall text,
               stays (holds q c)
                 (os.write_file
                    (pathlib.fspath
                       (pathlib.of_str base
                        // PyStr.replace "tar.gz" EmptyString (fn +:+ ".tar.gz")
                        // "last_modified.txt")) (Bytes text))).
    { intros text. apply stays_kept_holds, write_file_kept_elsewhere.
      - unfold base. rewrite of_str_abs by assumption.
        now apply fspath_anchored, joined_anchor, joined_anchor.
      - intros E. apply Hqd. symmetry. exact E. }
    frame. }
  apply Hrest.
Qed.

End remote_round_trip.

Import TreeFacts PlainFacts MakedirsFacts.

(** * Writing a file and reading it back *)

(** ** Resolution and reading *)

Lemma namei_dirs_stay r r' cur comps p :
  (forall x, is_dir_node (Tree.lookup r x) = true ->
             is_dir_node (Tree.lookup r' x) = true) ->
  os.namei r cur comps = Ok p -> os.namei r' cur comps = Ok p.
Proof.
  intros Hd. revert cur. induction comps as [|c rest IH]; intros cur; simpl; [auto|].
  destruct (Tree.lookup r cur) as [[|es]|] eqn:El; try discriminate.
  assert (H' : is_dir_node (Tree.lookup r' cur) = true) by (apply Hd; now rewrite El).
  destruct (Tree.lookup r' cur) as [[|es']|]; try discriminate.
  destruct (_ || _)%bool; [apply IH|].
  destruct (String.eqb c ".."); apply IH.
Qed.

Lemma resolve_dirs_stay path s s' p :
  PyStr.startswith_slash path = true -> dirs_stay s s' ->
  os.resolve path s = (Ok p, s) -> os.resolve path s' = (Ok p, s').
Proof.
  intros Ha Hd Hr. apply resolve_inv in Hr as [_ Hr].
  unfold os.resolve. destruct (String.eqb path EmptyString); [discriminate|].
  rewrite Ha in *. symmetry in Hr. now rewrite (namei_dirs_stay _ _ _ _ _ Hd Hr).
Qed.

Lemma read_resolved path s p c :
  os.resolve path s = (Ok p, s) ->
  Tree.lookup (os.root_node s) p = Some (File c) ->
  os.read_file path s = (Ok c, s).
Proof. intros Hr Hp. apply read_file_intro. exact (stat_intro _ _ _ _ Hr Hp). Qed.

Lemma isdir_plain l s :
  l <> [] -> forallb plain_name l = true ->
  os.path.isdir (abs_str l) s
  = (Ok (is_dir_node (Tree.lookup (os.root_node s) l)), s).
Proof.
  intros Hne Hl. destruct (stat_cases (abs_str l) s) as [[n E]|[e E]].
  - rewrite (stat_plain_inv _ _ _ _ Hne Hl E).
    unfold os.path.isdir, try_except, bind. rewrite E. now destruct n.
  - rewrite (stat_Raise_isdir _ _ _ E).
    destruct (Tree.lookup (os.root_node s) l) as [n|] eqn:El; [|reflexivity].
    rewrite (stat_plain _ _ _ Hne Hl El) in E. discriminate.
Qed.

Lemma exists_plain_dir l s :
  l <> [] -> forallb plain_name l = true ->
  is_dir_node (Tree.lookup (os.root_node s) l) = true ->
  os.path.exists_ (abs_str l) s = (Ok true, s).
Proof.
  intros Hne Hl Hd.
  destruct (Tree.lookup (os.root_node s) l) as [[|es]|] eqn:El; try discriminate.
  eapply exists_intro, stat_plain; [assumption.. | exact El].
Qed.

(** ** What a synchronized [file_set] went through *)

Lemma samefile_readonly a b : readonly (shutil.samefile a b).
Proof. unfold shutil.samefile. frame. Qed.
#[global] Hint Resolve samefile_readonly : frame.

(** ** The local store: copying, locking, sizes *)

Section local_steps.
Context `{Libs}.

(** A copy that returned normally from a source that is a directory
    afterwards has copied a directory. *)
Lemma copy_source_dir a dst s s1 :
  a <> [] -> forallb plain_name a = true ->
  copy (abs_str a) dst s = (Ok tt, s1) ->
  is_dir_node (Tree.lookup (os.root_node s1) a) = true ->
  is_dir_node (Tree.lookup (os.root_node s) a) = true.
Proof.
  intros Hne Hpl H0 Hd1. unfold copy in H0.
  rewrite (bind_Ok _ _ _ _ _ (isdir_plain a s Hne Hpl)) in H0.
  destruct (is_dir_node (Tree.lookup (os.root_node s) a)) eqn:E; [reflexivity|].
  exfalso. ro_step H0 present Eex. ro_step H0 same Es. destruct same.
  - injection H0 as <-. congruence.
  - apply bind_Ok_inv in H0 as ([] & s2 & Hrm & Hcp).
    unfold shutil.copy2 in Hcp.
    ro_step Hcp d Ed. ro_step Hcp sm Esm. destruct sm; [discriminate|].
    apply bind_Ok_inv in Hcp as (c & s3 & Hrd & Hw).
    pose proof (readonly_eq _ _ _ _ (read_file_readonly _) Hrd) as ->.
    apply read_file_inv, stat_plain_inv in Hrd; [|assumption..].
    pose proof (write_file_file_kept a
                  (if d then posixpath.join dst (os.path.basename (abs_str a))
                   else dst) c s2) as [_ K].
    rewrite Hw in K. cbn [snd] in K. rewrite Hrd in K. specialize (K eq_refl).
    destruct (Tree.lookup (os.root_node s1) a) as [[|]|]; discriminate.
Qed.

(** [mkdir(parents=True, exist_ok=True)] on a directory that is there *)
Lemma mkdir_present l s :
  l <> [] -> forallb plain_name l = true ->
  is_dir_node (Tree.lookup (os.root_node s) l) = true ->
  PathM.mkdir (mkPath true l) true true s = (Ok tt, s).
Proof.
  intros Hne Hpl Hd.
  destruct (Tree.lookup (os.root_node s) l) as [[|es]|] eqn:El; try discriminate.
  assert (Hmk : os.mkdir (abs_str l) s = (Raise FileExistsError, s)).
  { unfold os.mkdir.
    rewrite bind_Ok with (a := l) (s1 := s).
    - unfold bind, os.node_at. now rewrite El.
    - apply resolve_abs_Ok; [assumption..|].
      intros x c t ->. exact (lookup_above_dir _ _ _ _ _ El). }
  assert (Hisd : PathM.is_dir (mkPath true l) s = (Ok true, s)).
  { unfold PathM.is_dir. rewrite fspath_abs, isdir_plain by assumption.
    now rewrite El. }
  unfold PathM.mkdir. cbn [anchor parts].
  destruct (rev l) as [|c r] eqn:Er;
    cbn -[pathlib.fspath rev os.mkdir PathM.is_dir];
    rewrite <- Er, rev_involutive, fspath_abs;
    unfold try_except; rewrite Hmk; cbn [is_OSError];
    now rewrite (bind_Ok _ _ _ _ _ Hisd).
Qed.

(** Acquiring the lock in a directory without a lock file writes an
    empty one. *)
Lemma enter_makes_lock l s :
  l <> [] -> forallb plain_name l = true ->
  posix s = true ->
  is_dir_node (Tree.lookup (os.root_node s) l) = true ->
  Tree.lookup (os.root_node s) (l ++ ["dir.lock"]) = None ->
  exists es',
    Tree.place (os.root_node s) (l ++ ["dir.lock"]) (File (Bytes EmptyString))
    = Some (Dir es') /\
    FileLock.enter (FileLock.init (mkPath true l)) s = (Ok tt, os.with_root es' s).
Proof.
  intros Hne Hpl Hposix Hd Hnone.
  assert (Hpl' : forallb plain_name (l ++ ["dir.lock"]) = true)
    by (rewrite forallb_app, Hpl; reflexivity).
  assert (Hne' : l ++ ["dir.lock"] <> []) by apply snoc_not_nil.
  assert (Hr : os.resolve (abs_str (l ++ ["dir.lock"])) s
               = (Ok (l ++ ["dir.lock"]), s)).
  { apply resolve_abs_Ok; [assumption..|].
    intros x c t Heq.
    destruct t as [|d t] using rev_ind.
    - apply app_inj_tail in Heq as [-> _]. exact Hd.
    - clear IHt. rewrite app_comm_cons, app_assoc in Heq.
      apply app_inj_tail in Heq as [-> _].
      destruct (Tree.lookup (os.root_node s) (x ++ c :: t)) as [n|] eqn:El;
        [|discriminate].
      exact (lookup_above_dir _ _ _ _ _ El). }
  destruct (write_file_succeeds (abs_str (l ++ ["dir.lock"])) l "dir.lock"
              (Bytes EmptyString) s Hr) as [s' Hw]; [now rewrite Hnone | exact Hd |].
  pose proof (read_after_write _ _ _ _ Hw) as Hread.
  pose proof Hw as Hw'.
  apply write_file_inv in Hw' as (p & es' & Hrp & _ & Hp & ->).
  rewrite Hr in Hrp. injection Hrp as <-.
  exists es'. split; [exact Hp|].
  rewrite enter_posix_unfold by exact Hposix.
  cbn [FileLock.init FileLock._lock_file_path FileLock._local_path].
  change (mkPath true l // "dir.lock") with (mkPath true (l ++ ["dir.lock"])).
  rewrite bind_Ok with (a := false) (s1 := s).
  2:{ unfold PathM.is_file. rewrite fspath_abs, isfile_plain by assumption.
      now rewrite Hnone. }
  cbn [negb when]. rewrite bind_Ok with (a := tt) (s1 := os.with_root es' s).
  2:{ rewrite try_pass_Ok.
      rewrite (bind_Ok _ _ _ _ _ (mkdir_present l s Hne Hpl Hd)).
      unfold PathM.write_text. rewrite fspath_abs. now rewrite Hw. }
  unfold try_except. rewrite fspath_abs. now rewrite (bind_Ok _ _ _ _ _ Hread).
Qed.

(** An empty file more in a directory adds nothing to its size. *)
Lemma tree_size_with_empty_file k es :
  Tree.assoc k es = None ->
  tree_size (Dir (Tree.assoc_set k (File (Bytes EmptyString)) es))
  = tree_size (Dir es).
Proof.
  induction es as [|[k' x] r IH]; intros Hk; [reflexivity|].
  simpl in Hk. cbn [Tree.assoc_set]. destruct (String.eqb k k'); [discriminate|].
  change (tree_size x + tree_size (Dir (Tree.assoc_set k (File (Bytes EmptyString)) r))
          = tree_size x + tree_size (Dir r)).
  now rewrite (IH Hk).
Qed.

End local_steps.

Section any_name.
Context `{Libs}.
Variable self : FileStorage.t.
Variable gp : list string.
Variable fn : string.
Hypothesis Hlayout : plain_layout self gp fn.
Variable name : string.

Let folder := gp ++ [fn].
Let lock := folder ++ ["dir.lock"].
Let joined := pathlib.fspath (FileStorage.folder_path self // name).

Lemma joined_absolute : PyStr.startswith_slash joined = true.
Proof.
  apply fspath_anchored, joined_anchor. now rewrite (folder_at _ _ _ Hlayout).
Qed.

Lemma denotes_lexical p s :
  denotes self name p s -> p = lexical [] (PyStr.split_slash joined).
Proof.
  intros Hr. apply resolve_lexical in Hr. fold joined in Hr.
  now rewrite joined_absolute in Hr.
Qed.

Lemma file_set_steps content s0 s1 :
  FileStorage.sync self = true ->
  FileStorage.file_set self name content s0 = (Ok tt, s1) ->
  exists sl p es',
    FileLock.enter (FileLock.init (FileStorage.folder_path self)) s0 = (Ok tt, sl) /\
    let sa := snd (store_get (FileStorage.fs_store self) fn (abs_str gp) sl) in
    denotes self name p sa /\
    is_dir_node (Tree.lookup (os.root_node sa) p) = false /\
    Tree.place (os.root_node sa) p (File (Bytes content)) = Some (Dir es') /\
    store_put (FileStorage.fs_store self) fn (abs_str gp) (Some 9)
      (os.with_root es' sa) = (Ok tt, s1).
Proof.
  intros Hsync Hset. unfold FileStorage.file_set in Hset.
  rewrite Hsync in Hset. cbn [when] in Hset.
  apply with_lock_inv in Hset as (sl & He & Hb).
  apply bind_Ok_inv in Hb as ([] & sa & Hpull & Hb).
  apply bind_Ok_inv in Hb as ([] & sb & Hw & Hput).
  unfold FileStorage._pull_no_lock in Hpull. rewrite try_pass_Ok in Hpull.
  injection Hpull as <-.
  unfold FileStorage._push_no_lock in Hput.
  rewrite (folder_named _ _ _ Hlayout), (group_path _ _ _ Hlayout) in *.
  cbv zeta in Hw.
  apply write_file_inv in Hw as (p & es' & Hr & Hnd & Hp & ->).
  exists sl, p, es'. split; [exact He|]. cbv zeta. auto.
Qed.

(** The fresh instance is the same instance, and it reads where the
    pull has left the file. *)
Lemma fresh_reads cfg g id rd content s s0 s1 sl p :
  FileStorage.init cfg g id rd true s = (Ok self, s0) ->
  is_dir_node (Tree.lookup (os.root_node s1) folder) = true ->
  FileLock.enter (FileLock.init (FileStorage.folder_path self)) s1 = (Ok tt, sl) ->
  let sg := snd (store_get (FileStorage.fs_store self) fn (abs_str gp) sl) in
  os.resolve joined sg = (Ok p, sg) ->
  Tree.lookup (os.root_node sg) p = Some (File (Bytes content)) ->
  fst ((let! fresh := FileStorage.init cfg g id rd true in
        FileStorage.file_get fresh name) s1) = Ok (Bytes content).
Proof.
  intros Hinit Hd He sg Hr Hp. apply init_inv in Hinit as (Hsync & _ & Hre).
  assert (Hex : PathM.exists_ (FileStorage.folder_path self) s1 = (Ok true, s1)).
  { rewrite (folder_at _ _ _ Hlayout). unfold PathM.exists_. rewrite fspath_abs.
    apply exists_plain_dir;
      [apply snoc_not_nil | exact (layout_plain _ _ _ Hlayout) | exact Hd]. }
  rewrite (bind_Ok _ _ _ _ _ (Hre s1 Hex)).
  unfold FileStorage.file_get. rewrite Hsync. cbn [when].
  rewrite (with_lock_run _ _ _ _ He).
  unfold FileStorage._pull_no_lock.
  rewrite (folder_named _ _ _ Hlayout), (group_path _ _ _ Hlayout).
  rewrite bind_Ok with (a := tt) (s1 := sg); [|now rewrite try_pass_Ok].
  cbv zeta. fold joined. now rewrite (read_resolved _ _ _ _ Hr Hp).
Qed.

(** *** The remote store *)

Let zipped := gp ++ [fn +:+ ".tar.gz"].
Let marker := folder ++ ["last_modified.txt"].

Lemma round_trip_remote cfg g id rd content storage s s0 s1 p :
  FileStorage.fs_store self = S3Store storage ->
  FileStorage.init cfg g id rd true s = (Ok self, s0) ->
  FileStorage.file_set self name content s0 = (Ok tt, s1) ->
  denotes self name p s1 ->
  p <> zipped -> p <> marker ->
  (strptime (strftime (s3_now s1)) = Some (s3_now s1)
   \/ (p <> download_marker gp fn /\
       forall n, Tree.lookup (os.root_node s1) folder = Some n ->
                 valid_names n = true)) ->
  fst ((let! fresh := FileStorage.init cfg g id rd true in
        FileStorage.file_get fresh name) s1) = Ok (Bytes content).
Proof.
  intros Hstore Hinit Hset Hden Hpz Hpm Hcase.
  pose proof Hinit as Hi. apply init_inv in Hi as (Hsync & _ & _).
  pose proof (group_below_root _ _ _ Hlayout) as Hgp.
  pose proof (plain_group _ _ _ Hlayout) as Hpl.
  pose proof (plain_folder_name _ _ _ Hlayout) as Hfn.
  pose proof (plain_lock_path _ _ _ Hlayout) as Hplock. fold folder lock in Hplock.
  assert (Hlne : lock <> []) by apply snoc_not_nil.
  destruct (file_set_steps content s0 s1 Hsync Hset)
    as (sl & p' & es' & He & Hden' & Hnd & Hplace & Hput).
  cbv zeta in Hden', Hnd, Hplace, Hput.
  rewrite Hstore in Hden', Hnd, Hplace, Hput. cbn [store_get store_put] in *.
  change (default 9 (Some 9)) with 9 in Hput.
  set (sa := snd (S3FSStore.get fn (abs_str gp) sl)) in *.
  set (sb := os.with_root es' sa) in *.
  assert (p' = p) as ->.
  { rewrite (denotes_lexical _ _ Hden'). symmetry. exact (denotes_lexical _ _ Hden). }
  assert (Hsb : Tree.lookup (os.root_node sb) p = Some (File (Bytes content)))
    by exact (place_lookup_same _ _ _ _ Hplace).
  pose proof (s3_put_kept gp fn Hgp Hpl Hfn p 9 Hpz Hpm sb) as K3.
  rewrite Hput in K3. destruct K3 as [P3 K3]. specialize (K3 _ Hsb).
  cbn [snd] in K3, P3.
  destruct (s3_put_marker gp fn Hgp Hpl Hfn _ _ _ Hput)
    as (o & Hreach & Ho & Hnow & Hm).
  assert (Hd1 : is_dir_node (Tree.lookup (os.root_node s1) folder) = true)
    by exact (lookup_above_dir _ _ _ _ _ Hm).
  assert (He1 : FileLock.enter (FileLock.init (FileStorage.folder_path self)) s1
                = (Ok tt, s1)).
  { destruct (posix s1) eqn:Hp1; [|now apply enter_not_posix].
    apply enter_with_lock_file. unfold PathM.is_file.
    rewrite (lock_file_path _ _ _ Hlayout). fold folder lock.
    rewrite isfile_plain by assumption. f_equal. f_equal.
    pose proof (s3_get_file_kept gp fn Hgp Hpl Hfn lock
                  (lock_not_zipped gp fn) sl) as [P1 F1].
    fold sa in P1, F1.
    pose proof (s3_put_kept gp fn Hgp Hpl Hfn lock 9 (lock_not_zipped gp fn)
                  (lock_not_marker gp fn) sb) as K2.
    rewrite Hput in K2. apply kept_file_kept in K2. destruct K2 as [P2 F2].
    cbn [snd] in P2, F2.
    apply enter_inv in He as [(_ & P0 & _) Hl].
    destruct Hl as [c Hc].
    { change (posix sb) with (posix sa) in P2. congruence. }
    rewrite (lock_file_path _ _ _ Hlayout) in Hc. fold folder lock in Hc.
    apply read_file_inv, stat_plain_inv in Hc; [|assumption..].
    apply F2. change (os.root_node sb) with (Dir es').
    destruct (decide (lock = p)) as [->|Hne].
    - now rewrite (place_lookup_same _ _ _ _ Hplace).
    - assert (Hf : is_file_node (Tree.lookup (os.root_node sa) lock) = true)
        by (apply F1; now rewrite Hc).
      destruct (Tree.lookup (os.root_node sa) lock) as [[c0|]|] eqn:E0;
        try discriminate.
      now rewrite (place_keeps_files _ _ _ _ _ _ Hplace Hnd Hne E0). }
  apply (fresh_reads cfg g id rd content s s0 s1 s1 p Hinit Hd1 He1);
    rewrite Hstore; cbn [store_get].
  - apply (resolve_dirs_stay _ s1); [exact joined_absolute | | exact Hden].
    apply s3_get_dirs_stay.
  - destruct Hcase as [Hcodec|[Hpd Hvalid]].
    + rewrite (s3_get_fresh gp fn Hgp Hpl Hfn s1 o Hreach Ho Hm); [exact K3|].
      now rewrite Hnow.
    + destruct (put_object gp fn Hgp Hpl Hfn _ _ _ Hput)
        as (o' & es & ts & Ho' & Hes & Hnm & Hes1 & Hbody).
      apply (s3_get_holds gp fn Hgp Hpl Hfn p (Bytes content) Hpz Hpd s1 o' Ho');
        [|exact K3].
      intros ms Hms. apply Forall_forall. intros [a oc] Hin.
      destruct Hbody as [Hb|Hb]; rewrite Hb in Hms; [discriminate|].
      assert (Hms' : ms = tarfile.members_of (PyStr.join_slash [fn]) (Dir es)).
      { change (PyStr.join_slash [fn]) with fn. congruence. }
      clear Hms. subst ms. apply list_elem_of_In in Hin.
      assert (Hv : valid_names (Dir es) = true).
      { apply (valid_names_before_set "last_modified.txt" (Bytes ts)); [exact Hnm|].
        exact (Hvalid _ Hes1). }
      destruct (members_of_spec (Dir es) [fn] ltac:(discriminate)
                  ltac:(simpl; now rewrite Hfn) Hv a oc Hin)
        as (ks & Pks & -> & Hlk).
      exists ks. split; [exact Pks|]. split; [reflexivity|].
      cbn [snd]. intros c' -> Hpath.
      assert (Hsb' : Tree.lookup (os.root_node sb) (folder ++ ks) = Some (File c')).
      { rewrite lookup_path_app. fold folder in Hes. now rewrite Hes. }
      unfold folder in Hsb'. rewrite <- app_assoc in Hsb'. simpl in Hsb'.
      rewrite Hpath in Hsb'. congruence.
Qed.

(** *** The local store *)

Lemma round_trip_local cfg g id rd content sp s s0 s1 p :
  FileStorage.fs_store self = LocalStore (abs_str sp) ->
  sp <> [] -> forallb plain_name sp = true ->
  diverge (sp ++ [fn]) folder = true ->
  FileStorage.init cfg g id rd true s = (Ok self, s0) ->
  FileStorage.file_set self name content s0 = (Ok tt, s1) ->
  denotes self name p s1 ->
  diverge (sp ++ [fn]) p = true ->
  (is_file_node (Tree.lookup (os.root_node s1) lock) = true
   \/ (Tree.lookup (os.root_node s1) lock = None /\
       is_dir_node (Tree.lookup (os.root_node s1) folder) = true /\
       sizes_follow_hashes folder (sp ++ [fn]) s1)) ->
  fst ((let! fresh := FileStorage.init cfg g id rd true in
        FileStorage.file_get fresh name) s1) = Ok (Bytes content).
Proof.
  intros Hstore Hsp Hpsp Hdiv Hinit Hset Hden Hdp Hcase.
  pose proof Hinit as Hi. apply init_inv in Hi as (Hsync & _ & _).
  pose proof (group_below_root _ _ _ Hlayout) as Hgp.
  pose proof (plain_group _ _ _ Hlayout) as Hpl.
  pose proof (plain_folder_name _ _ _ Hlayout) as Hfn.
  pose proof (layout_plain _ _ _ Hlayout) as Hpf. fold folder in Hpf.
  pose proof (plain_lock_path _ _ _ Hlayout) as Hplock. fold folder lock in Hplock.
  assert (Hfne : folder <> []) by apply snoc_not_nil.
  assert (Hlne : lock <> []) by apply snoc_not_nil.
  assert (Hps : forallb plain_name (sp ++ [fn]) = true) by now apply plain_snoc.
  assert (Hsne : sp ++ [fn] <> []) by apply snoc_not_nil.
  destruct (file_set_steps content s0 s1 Hsync Hset)
    as (sl & p' & es' & He & Hden' & Hnd & Hplace & Hput).
  cbv zeta in Hden', Hnd, Hplace, Hput.
  rewrite Hstore in Hden', Hnd, Hplace, Hput. cbn [store_get store_put] in *.
  unfold LocalFSStore.put in Hput. rewrite !join_abs in Hput by assumption.
  fold folder in Hput.
  set (sa := snd (LocalFSStore.get (abs_str sp) fn (abs_str gp) sl)) in *.
  set (sb := os.with_root es' sa) in *.
  assert (p' = p) as ->.
  { rewrite (denotes_lexical _ _ Hden'). symmetry. exact (denotes_lexical _ _ Hden). }
  assert (Hsb : Tree.lookup (os.root_node sb) p = Some (File (Bytes content)))
    by exact (place_lookup_same _ _ _ _ Hplace).
  assert (Hd1 : is_dir_node (Tree.lookup (os.root_node s1) folder) = true).
  { destruct Hcase as [Hf|(_ & Hd & _)]; [|exact Hd].
    destruct (Tree.lookup (os.root_node s1) lock) as [n|] eqn:El; [|discriminate].
    exact (lookup_above_dir _ _ _ _ _ El). }
  pose proof (copy_source_dir folder _ _ _ Hfne Hpf Hput Hd1) as Hdb.
  destruct (copy_dir_result folder (sp ++ [fn]) Hpf Hps Hfne Hsne Hdiv sb s1)
    as (U & es & es1 & Hst & Hst' & Hh); [|exact Hput|].
  { rewrite isdir_plain by assumption. now rewrite Hdb. }
  assert (K3 : Tree.lookup (os.root_node s1) p = Some (File (Bytes content))).
  { destruct U as (_ & _ & Hl). now rewrite (Hl p Hdp). }
  assert (Hsame : FileLock.enter (FileLock.init (FileStorage.folder_path self)) s1
                  = (Ok tt, s1) ->
                  fst ((let! fresh := FileStorage.init cfg g id rd true in
                        FileStorage.file_get fresh name) s1) = Ok (Bytes content)).
  { intros He1.
    apply (fresh_reads cfg g id rd content s s0 s1 s1 p Hinit Hd1 He1);
      rewrite Hstore; cbn [store_get];
      rewrite (local_get_same_hash sp gp fn Hsp Hgp Hpsp Hpl Hfn s1 es es1 Hst Hst' Hh);
      [exact Hden | exact K3]. }
  destruct (posix s1) eqn:Hp1; [|now apply Hsame, enter_not_posix].
  destruct Hcase as [Hf|(Hnone & _ & Hsz)].
  - apply Hsame, enter_with_lock_file. unfold PathM.is_file.
    rewrite (lock_file_path _ _ _ Hlayout). fold folder lock.
    rewrite isfile_plain by assumption. now rewrite Hf.
  - destruct (enter_makes_lock folder s1 Hfne Hpf Hp1 Hd1 Hnone)
      as (esl & Hpll & Hent).
    unfold folder in Hent at 1. rewrite <- (folder_at _ _ _ Hlayout) in Hent.
    set (s1l := os.with_root esl s1) in *.
    fold lock in Hpll.
    apply stat_plain_inv in Hst; [|assumption..].
    apply stat_plain_inv in Hst'; [|assumption..].
    destruct (place_lookup_parent _ _ _ _ _ Hpll) as (es0 & Hes0 & Hesl).
    rewrite Hst in Hes0. injection Hes0 as <-.
    change (Dir esl) with (os.root_node s1l) in Hesl.
    assert (Hstored : Tree.lookup (os.root_node s1l) (sp ++ [fn]) = Some (Dir es1)).
    { change (os.root_node s1l) with (Dir esl).
      rewrite (place_lookup_diverge _ _ _ _ (sp ++ [fn]) Hpll); [exact Hst'|].
      apply diverge_app_l. now rewrite diverge_sym. }
    assert (Hk : Tree.assoc "dir.lock" es = None).
    { unfold lock in Hnone. rewrite lookup_path_app, Hst in Hnone.
      simpl in Hnone. now destruct (Tree.assoc "dir.lock" es). }
    assert (Hget : LocalFSStore.get (abs_str sp) fn (abs_str gp) s1l = (Ok tt, s1l)).
    { unfold LocalFSStore.get. rewrite !join_abs by assumption. fold folder.
      rewrite (bind_Ok _ _ _ _ _
                 (exists_intro _ _ _ (stat_plain _ _ _ Hfne Hpf Hesl))).
      cbn [negb].
      rewrite bind_Ok with (a := false) (s1 := s1l); [reflexivity|].
      rewrite (bind_Ok _ _ _ _ _
                 (get_dir_size_dir _ _ _ (stat_plain _ _ _ Hsne Hps Hstored))).
      rewrite (bind_Ok _ _ _ _ _
                 (get_dir_size_dir _ _ _ (stat_plain _ _ _ Hfne Hpf Hesl))).
      rewrite (tree_size_with_empty_file _ _ Hk).
      rewrite <- (Hsz es es1 Hst Hst' Hh). now rewrite Nat.eqb_refl. }
    apply (fresh_reads cfg g id rd content s s0 s1 s1l p Hinit Hd1 Hent);
      rewrite Hstore; cbn [store_get]; rewrite Hget; cbn [snd].
    + apply (resolve_grows _ s1); [|exact Hden].
      pose proof (enter_grows (FileLock.init (FileStorage.folder_path self)) s1) as G.
      now rewrite Hent in G.
    + change (os.root_node s1l) with (Dir esl).
      apply (place_keeps_files _ _ _ _ _ _ Hpll); [now rewrite Hnone | | exact K3].
      intros ->. congruence.
Qed.

End any_name.

(** C7 (amended).  When [file_set name content] has returned, [file_get
    name] on a fresh instance bound to the same resource returns exactly
    [content], in each of these cases, [p] being the path that the name
    denotes: without synchronization, for every name; with the local
    store, when [p] lies apart from the stored copy and the lock file is
    in the resource directory, or is missing there while equal directory
    hashes go with equal sizes; with the remote store, when [p] is neither
    the archive beside the resource directory nor the marker in it, and
    the clock reading is given back by formatting and parsing or else [p]
    is not the marker of a download and the resource directory holds file
    names. *)
Theorem file_set_then_file_get_round_trip `{Libs}
    cfg g id rd sync name content s self s0 s1 :
  FileStorage.init cfg g id rd sync s = (Ok self, s0) ->
  FileStorage.file_set self name content s0 = (Ok tt, s1) ->
  round_trip_case self name s1 ->
  fst ((let! fresh := FileStorage.init cfg g id rd sync in
        FileStorage.file_get fresh name) s1) = Ok (Bytes content).
Proof.
  intros Hinit Hset Hcase.
  destruct sync;
    [|now rewrite (file_set_then_file_get_unsynced _ _ _ _ _ _ _ _ _ _ Hinit Hset)].
  destruct Hcase as [Hsync
                    | gp sp fn p Hlayout Hstore Hsp Hpsp Hdiv Hden Hdp Hlock
                    | gp fn storage p Hlayout Hstore Hden Hpz Hpm Hcodec].
  - apply init_inv in Hinit as (Hs & _). congruence.
  - exact (round_trip_local self gp fn Hlayout name cfg g id rd content sp
             s s0 s1 p Hstore Hsp Hpsp Hdiv Hinit Hset Hden Hdp Hlock).
  - exact (round_trip_remote self gp fn Hlayout name cfg g id rd content
             storage s s0 s1 p Hstore Hinit Hset Hden Hpz Hpm Hcodec).
Qed.

(** * The properties on sample states *)

Section samples.
Import Example.
#[local] Existing Instance Example.libs.

(** C1 (code bug).  The archive that [S3FSStore.put] uploads is not free
    of the two reserved files.  On disk, [make_archive] packs the whole
    resource directory, [dir.lock] and [last_modified.txt] included.  In
    memory, the test on the two names ends in [pass], and every entry is
    added by its bare name, looked up in the resource group directory:
    with the lock file in place the call fails there and nothing is
    uploaded. *)
Theorem put_archives_reserved_files :
  (let r := S3FSStore.put "predictor_1_5" "/content/predictor" 9
              (machine [("predictor_1_5", stamped_resource)] 8 ∅) in
   fst r = Ok tt /\
   member_names (snd r) "predictor_1_5.tar.gz"
   = Some ["predictor_1_5"; "predictor_1_5/dir.lock";
           "predictor_1_5/last_modified.txt"; "predictor_1_5/model.pkl"])
  /\
  (let r := S3FSStore.put "predictor_1_5" "/content/predictor" 9
              (machine [("predictor_1_5", stamped_resource)] 100 ∅) in
   fst r = Raise FileNotFoundError /\
   bucket (snd r) = ∅).
Proof. vm_compute. repeat split. Qed.

(** C2 (code bug).  For one and the same resource directory the two
    strategies of [S3FSStore.put] do not upload archives that unpack
    alike: with little memory the archive is made on disk and unpacks to
    the resource directory; with memory to spare the entries are added by
    their bare names from the group directory, the call fails with
    [FileNotFoundError] and no object is uploaded at all. *)
Theorem archive_strategies_differ :
  let content := [("predictor_1_5", resource)] in
  let on_disk := S3FSStore.put "predictor_1_5" "/content/predictor" 9
                   (machine content 8 ∅) in
  let in_memory := S3FSStore.put "predictor_1_5" "/content/predictor" 9
                     (machine content 100 ∅) in
  fst on_disk = Ok tt /\
  unpacked (snd on_disk) "predictor_1_5.tar.gz"
  = Some (Dir [("predictor_1_5", resource)]) /\
  fst in_memory = Raise FileNotFoundError /\
  bucket (snd in_memory) = ∅.
Proof. vm_compute. repeat split. Qed.

(** C3 (code bug).  The full removal deletes the key [predictor_1_5], but
    the archive was stored under [predictor_1_5.tar.gz]: after [delete()]
    on the resource root the local directory is gone and the remote
    archive is still in the bucket. *)
Theorem delete_root_leaves_remote_archive :
  let s := machine [("predictor_1_5", stamped_resource)] 8
                   {[ "predictor_1_5.tar.gz" := pushed_archive ]} in
  let r := FileStorage.delete (remote true) "." s in
  fst r = Ok tt /\
  at_path (snd r) ["content"; "predictor"; "predictor_1_5"] = None /\
  bucket (snd r) !! "predictor_1_5.tar.gz" = Some pushed_archive.
Proof. vm_compute. repeat split. Qed.

(** C8 (code bug).  When the marker is absent, [get] downloads, unpacks and
    removes the downloaded file, and then writes the timestamp under the
    directory name [predictor_1_5.] (the object name without ["tar.gz"],
    the dot left in place): the call fails where no such directory exists,
    and the marker [predictor_1_5/last_modified.txt] that the next [get]
    reads is not written in either case.  Where the marker is there and
    shows the timestamp of the object, [get] changes nothing. *)
Theorem download_writes_beside_the_marker :
  PyStr.replace "tar.gz" EmptyString "predictor_1_5.tar.gz" = "predictor_1_5."
  /\
  (let s := machine [] 100 {[ "predictor_1_5.tar.gz" := pushed_archive ]} in
   let r := S3FSStore.get "predictor_1_5" "/content/predictor" s in
   fst r = Raise FileNotFoundError /\
   at_path (snd r) ["content"; "predictor"] = Some (Dir [("predictor_1_5", resource)]))
  /\
  (let s := machine [("predictor_1_5.", Dir [])] 100
                    {[ "predictor_1_5.tar.gz" := pushed_archive ]} in
   let r := S3FSStore.get "predictor_1_5" "/content/predictor" s in
   fst r = Ok tt /\
   at_path (snd r) ["content"; "predictor"]
   = Some (Dir [("predictor_1_5.",
                 Dir [("last_modified.txt", File (Bytes "05.03.24 14:02:11.000000"))]);
                ("predictor_1_5", resource)]))
  /\
  (let s := machine [("predictor_1_5", stamped_resource)] 100
                    {[ "predictor_1_5.tar.gz" := pushed_archive ]} in
   S3FSStore.get "predictor_1_5" "/content/predictor" s = (Ok tt, s)).
Proof. vm_compute. repeat split. Qed.

(** C10.  Only an absolute path is refused.  A relative path with ['..']
    takes [delete] and [get_path] out of the resource directory.  Without
    synchronization and with nothing in the bucket, so that nothing but
    the two calls themselves touches the files: [delete] removes the file
    [/content/predictor/secret.txt] and [get_path] makes the directory
    [/content/predictor/evil], both beside the resource directory
    [/content/predictor/predictor_1_5], which is left as it was. *)
Theorem dotdot_escapes_resource_directory :
  let self := remote false in
  let s := machine [("predictor_1_5", resource); ("secret.txt", File (Bytes "key"))]
                   100 ∅ in
  let deleted := FileStorage.delete self "../secret.txt" s in
  let made := FileStorage.get_path self "../evil" s in
  (FileStorage.sync self = false /\ bucket s = ∅ /\
   FileStorage.folder_path self
   = mkPath true ["content"; "predictor"; "predictor_1_5"]) /\
  (pathlib.is_absolute (pathlib.of_str "../secret.txt") = false /\
   parts (pathlib.of_str "../secret.txt") = [".."; "secret.txt"] /\
   pathlib.is_absolute (pathlib.of_str "../evil") = false /\
   parts (pathlib.of_str "../evil") = [".."; "evil"]) /\
  (fst deleted = Ok tt /\
   at_path s ["content"; "predictor"; "secret.txt"] = Some (File (Bytes "key")) /\
   at_path (snd deleted) ["content"; "predictor"]
   = Some (Dir [("predictor_1_5", resource)])) /\
  (fst made
   = Ok (mkPath true ["content"; "predictor"; "predictor_1_5"; ".."; "evil"]) /\
   at_path s ["content"; "predictor"; "evil"] = None /\
   at_path (snd made) ["content"; "predictor"]
   = Some (Dir [("predictor_1_5", resource);
                ("secret.txt", File (Bytes "key"));
                ("evil", Dir [])])).
Proof. vm_compute. repeat split. Qed.

End samples.

Section witnesses.
Import Example.
#[local] Existing Instance Example.libs.

(** A resource deleted at its root and written to again: the directory,
    the lock file and the copy in the store are all made anew. *)
Lemma deleted_instance_is_reusable :
  let s := machine [("predictor_1_5", resource)] 100 ∅ in
  exists s1 s2,
    FileStorage.delete (local true) "." s = (Ok tt, s1) /\
    at_path s1 ["content"; "predictor"; "predictor_1_5"] = None /\
    FileStorage.file_set (local true) "model.pkl" "again" s1 = (Ok tt, s2) /\
    at_path s2 ["content"; "predictor"; "predictor_1_5"]
    = Some (Dir [("dir.lock", File (Bytes EmptyString));
                 ("model.pkl", File (Bytes "again"))]) /\
    at_path s2 ["storage"; "predictor_1_5"]
    = Some (Dir [("dir.lock", File (Bytes EmptyString));
                 ("model.pkl", File (Bytes "again"))]).
Proof.
  do 2 eexists. split; [vm_compute; reflexivity|]. split; [reflexivity|].
  split; [vm_compute; reflexivity|]. split; reflexivity.
Qed.

Lemma delete_root_keeps_instance_usable_witness :
  let self := local true in
  let s := machine [("predictor_1_5", resource)] 100 ∅ in
  let s1 := snd (FileStorage.delete self "." s) in
  let lock := FileLock.init (FileStorage.folder_path self) in
  posix s = true /\
  FileStorage.delete self "." s = (Ok tt, s1) /\
  PathM.exists_ (FileStorage.folder_path self) s1 = (Ok false, s1) /\
  exists s2,
    FileLock.enter lock s1 = (Ok tt, s2) /\
    PathM.is_dir (FileStorage.folder_path self) s2 = (Ok true, s2) /\
    PathM.is_file (FileLock._lock_file_path lock) s2 = (Ok true, s2) /\
    FileStorage.pull self s1
    = (Ok tt, snd (store_get (FileStorage.fs_store self)
                     (FileStorage.folder_name self)
                     (pathlib.fspath (FileStorage.resource_group_path self)) s2)).
Proof.
  intros self s s1 lock.
  assert (Hd : FileStorage.delete self "." s = (Ok tt, s1))
    by (vm_compute; reflexivity).
  split; [reflexivity|]. split; [exact Hd|].
  apply (delete_root_keeps_instance_usable self
           ["content"; "predictor"; "predictor_1_5"]) with (s := s);
    [reflexivity | reflexivity | discriminate | reflexivity | exact Hd].
Defined.

(** On a fresh instance, whose directory has no lock file yet, a rejected
    [delete] leaves the lock file behind; in synchronized mode a rejected
    [get_path] leaves what the pull before the check unpacked. *)
Lemma absolute_path_call_has_side_effects :
  let s := machine [("predictor_1_5", Dir [])] 100
                   {[ "predictor_1_5.tar.gz" := pushed_archive ]} in
  exists s1 s2,
    FileStorage.delete (remote true) "/abs/path" s
    = (Raise (TypeError "FSStorage.delete() got absolute path as argument"), s1) /\
    at_path s ["content"; "predictor"; "predictor_1_5"; "dir.lock"] = None /\
    at_path s1 ["content"; "predictor"; "predictor_1_5"; "dir.lock"]
    = Some (File (Bytes EmptyString)) /\
    FileStorage.get_path (remote true) "/etc/passwd" s
    = (Raise (TypeError "FSStorage.get_path() got absolute path as argument"), s2) /\
    at_path s ["content"; "predictor"; "predictor_1_5"; "model.pkl"] = None /\
    at_path s2 ["content"; "predictor"; "predictor_1_5"; "model.pkl"]
    = Some (File (Bytes "weights")).
Proof.
  do 2 eexists. split; [vm_compute; reflexivity|]. split; [reflexivity|].
  split; [reflexivity|]. split; [vm_compute; reflexivity|]. split; reflexivity.
Qed.

Lemma absolute_path_rejected_after_locking_witness :
  let self := remote true in
  let lock := FileLock.init (FileStorage.folder_path self) in
  let s := machine [("predictor_1_5", Dir [])] 100 ∅ in
  let s1 := machine [("predictor_1_5", Dir [("dir.lock", File (Bytes EmptyString))])]
                    100 ∅ in
  pathlib.is_absolute (pathlib.of_str "/etc/passwd") = true /\
  FileLock.enter lock s = (Ok tt, s1) /\
  FileStorage.delete self "/etc/passwd" s
  = (Raise (TypeError "FSStorage.delete() got absolute path as argument"), s1)
  /\ FileStorage.get_path self "/etc/passwd" s
     = (Raise (TypeError "FSStorage.get_path() got absolute path as argument"),
        snd (when (FileStorage.sync self) (FileStorage._pull_no_lock self) s1))
  /\ (PathM.is_file (FileLock._lock_file_path lock) s = (Ok true, s) -> s1 = s).
Proof.
  intros self lock s s1. split; [reflexivity|]. split; [vm_compute; reflexivity|].
  apply (absolute_path_rejected_after_locking self "/etc/passwd" s s1);
    [reflexivity | vm_compute; reflexivity].
Defined.



(** Names that are not read back as written, each written and read
    through instances of the resource [predictor], id 5.  With the remote
    store the push that follows the write puts the timestamp into
    [last_modified.txt]; a name that leads to where the archive is made
    names a file that the push overwrites and removes; and where the
    clock reading is not given back by the two-digit year, the pull of
    the fresh instance downloads the archive and saves its timestamp
    beside the directory named by the archive name less [tar.gz].  With
    the local store a name that leads into the stored copy names a file
    that the push replaces; and a stored copy whose [dir.lock] is a
    directory, once pulled, stops the fresh instance at the lock. *)
Lemma marker_name_does_not_round_trip :
  let trip (loc name : string) (s : state) :=
    let written :=
      (let! fs := FileStorage.init (cfg loc) "predictor" 5 "content" true in
       FileStorage.file_set fs name "weights") s in
    let read :=
      (let! fresh := FileStorage.init (cfg loc) "predictor" 5 "content" true in
       FileStorage.file_get fresh name) (snd written) in
    (fst written, fst read) in
  let disk (group stored : list (string * node)) (clock : datetime) :=
    mkState [("content", Dir [("predictor", Dir group)]); ("storage", Dir stored)]
            [] true 0 ∅ true clock in
  let t1 := mkDatetime 2100 3 5 14 2 11 0 in
  trip "s3" "last_modified.txt" (machine [] 8 ∅)
  = (Ok tt, Ok (Bytes "05.03.24 14:02:11.000000")) /\
  trip "s3" "../predictor_1_5.tar.gz" (machine [("predictor_1_5", resource)] 8 ∅)
  = (Ok tt, Raise FileNotFoundError) /\
  strptime (strftime t1) <> Some t1 /\
  trip "s3" "../predictor_1_5./last_modified.txt"
       (disk [("predictor_1_5.", Dir [])] [] t1)
  = (Ok tt, Ok (Bytes "05.03.00 14:02:11.000000")) /\
  trip "local" "/storage/predictor_1_5/x.bin" (disk [] [("predictor_1_5", Dir [])] t0)
  = (Ok tt, Raise FileNotFoundError) /\
  trip "local" "model.pkl"
       (disk [("predictor_1_5", Dir [("big.bin", File (Bytes "abcdef"))])]
             [("predictor_1_5", Dir [("dir.lock", Dir [])])] t0)
  = (Ok tt, Raise IsADirectoryError).
Proof. vm_compute. repeat split. discriminate. Qed.

Lemma push_twice_writes_once_witness :
  let self := local true in
  let s := machine [("predictor_1_5", resource)] 100 ∅ in
  let s1 := snd (FileStorage.push self 9 s) in
  let src := posixpath.join (pathlib.fspath (FileStorage.resource_group_path self))
                            (FileStorage.folder_name self) in
  let dst := posixpath.join "/storage" (FileStorage.folder_name self) in
  posix s = true /\
  FileStorage.push self 9 s = (Ok tt, s1) /\
  (forall local_name base_dir cl0,
      LocalFSStore.put "/storage" local_name base_dir (Some cl0)
      = copy (posixpath.join base_dir local_name)
             (posixpath.join "/storage" local_name)) /\
  (forall a b s' es es',
      os.stat a s' = (Ok (Dir es), s') -> os.stat b s' = (Ok (Dir es'), s') ->
      dirhash_of es = dirhash_of es' -> copy a b s' = (Ok tt, s')) /\
  (forall a b s' c c',
      os.stat a s' = (Ok (File c), s') -> os.stat b s' = (Ok (File c'), s') ->
      md5_hexdigest c = md5_hexdigest c' -> copy a b s' = (Ok tt, s')) /\
  FileStorage.push self 9 s1 = (Ok tt, s1) /\
  exists h, dirhash src s1 = (Ok h, s1) /\ dirhash dst s1 = (Ok h, s1).
Proof.
  intros self s s1 src dst.
  assert (Hp : FileStorage.push self 9 s = (Ok tt, s1)) by (vm_compute; reflexivity).
  split; [reflexivity|]. split; [exact Hp|].
  apply (push_twice_writes_once self ["storage"] ["content"; "predictor"]
           "predictor_1_5") with (s := s) (cl := 9);
    [reflexivity | reflexivity | reflexivity | reflexivity | reflexivity
    | discriminate | discriminate | reflexivity | reflexivity | exact Hp].
Defined.

End witnesses.

Section round_trip_witness.
Import Example.
#[local] Existing Instance Example.libs.

Lemma example_layout st sync :
  plain_layout (storage_of st sync) ["content"; "predictor"] "predictor_1_5".
Proof. split; (reflexivity || discriminate). Qed.

(** One file written and read back in each case: with the remote store
    and a clock of 2024 (nothing is downloaded), with the remote store
    and a clock of 2100 (the archive is downloaded and unpacked), with the
    local store and the lock file in place, with the local store after a
    pull took the lock file away, and without synchronization. *)
Lemma file_set_then_file_get_round_trip_witness :
  let disk (stored : list (string * node)) (clock : datetime) :=
    mkState [("content", Dir [("predictor", Dir [])]); ("storage", Dir stored)]
            [] true 0 ∅ true clock in
  let written (loc : string) (sync : bool) (s : state) :=
    snd (FileStorage.file_set (storage_of (if String.eqb loc "s3"
                                           then S3Store "/storage"
                                           else LocalStore "/storage") sync)
           "model.pkl" "weights"
           (snd (FileStorage.init (cfg loc) "predictor" 5 "content" sync s))) in
  let reads_back (loc : string) (sync : bool) (s : state) :=
    fst ((let! fresh := FileStorage.init (cfg loc) "predictor" 5 "content" sync in
          FileStorage.file_get fresh "model.pkl") (written loc sync s))
    = Ok (Bytes "weights") in
  let t1 := mkDatetime 2100 3 5 14 2 11 0 in
  let unlocked := [("predictor_1_5", Dir [("old.bin", File (Bytes "abc"))])] in
  (round_trip_case (remote true) "model.pkl" (written "s3" true (disk [] t0)) /\
   reads_back "s3" true (disk [] t0)) /\
  (round_trip_case (remote true) "model.pkl" (written "s3" true (disk [] t1)) /\
   strptime (strftime t1) <> Some t1 /\
   reads_back "s3" true (disk [] t1)) /\
  (round_trip_case (local true) "model.pkl" (written "local" true (disk [] t0)) /\
   reads_back "local" true (disk [] t0)) /\
  (round_trip_case (local true) "model.pkl" (written "local" true (disk unlocked t0)) /\
   at_path (written "local" true (disk unlocked t0))
           ["content"; "predictor"; "predictor_1_5"; "dir.lock"] = None /\
   reads_back "local" true (disk unlocked t0)) /\
  (round_trip_case (local false) "model.pkl" (written "local" false (disk [] t0)) /\
   reads_back "local" false (disk [] t0)).
Proof.
  intros disk written reads_back t1 unlocked.
  set (p := ["content"; "predictor"; "predictor_1_5"; "model.pkl"]).
  assert (C1 : round_trip_case (remote true) "model.pkl"
                 (written "s3" true (disk [] t0))).
  { apply (with_remote_store _ _ _ ["content"; "predictor"] "predictor_1_5"
             "/storage" p);
      [apply example_layout | reflexivity | vm_compute; reflexivity
      | discriminate | discriminate | left; vm_compute; reflexivity]. }
  assert (C2 : round_trip_case (remote true) "model.pkl"
                 (written "s3" true (disk [] t1))).
  { apply (with_remote_store _ _ _ ["content"; "predictor"] "predictor_1_5"
             "/storage" p);
      [apply example_layout | reflexivity | vm_compute; reflexivity
      | discriminate | discriminate |].
    right. split; [vm_compute; discriminate|].
    intros n Hn. vm_compute in Hn. injection Hn as <-. reflexivity. }
  assert (C3 : round_trip_case (local true) "model.pkl"
                 (written "local" true (disk [] t0))).
  { apply (with_local_store _ _ _ ["content"; "predictor"] ["storage"]
             "predictor_1_5" p);
      [apply example_layout | reflexivity | discriminate | reflexivity
      | reflexivity | vm_compute; reflexivity | reflexivity
      | left; vm_compute; reflexivity]. }
  assert (C4 : round_trip_case (local true) "model.pkl"
                 (written "local" true (disk unlocked t0))).
  { apply (with_local_store _ _ _ ["content"; "predictor"] ["storage"]
             "predictor_1_5" p);
      [apply example_layout | reflexivity | discriminate | reflexivity
      | reflexivity | vm_compute; reflexivity | reflexivity |].
    right. split; [vm_compute; reflexivity|]. split; [vm_compute; reflexivity|].
    intros es es' H1 H2 _. vm_compute in H1, H2.
    injection H1 as <-. injection H2 as <-. reflexivity. }
  assert (C5 : round_trip_case (local false) "model.pkl"
                 (written "local" false (disk [] t0))).
  { apply unsynchronized. reflexivity. }
  split; [split; [exact C1|] | split; [split; [exact C2 | split]
         | split; [split; [exact C3|]
         | split; [split; [exact C4 | split] | split; [exact C5|]]]]].
  - apply (file_set_then_file_get_round_trip (cfg "s3") "predictor" 5 "content" true
             "model.pkl" "weights" (disk [] t0) (remote true)
             (snd (FileStorage.init (cfg "s3") "predictor" 5 "content" true (disk [] t0))));
      [vm_compute; reflexivity | vm_compute; reflexivity | exact C1].
  - vm_compute. discriminate.
  - apply (file_set_then_file_get_round_trip (cfg "s3") "predictor" 5 "content" true
             "model.pkl" "weights" (disk [] t1) (remote true)
             (snd (FileStorage.init (cfg "s3") "predictor" 5 "content" true (disk [] t1))));
      [vm_compute; reflexivity | vm_compute; reflexivity | exact C2].
  - apply (file_set_then_file_get_round_trip (cfg "local") "predictor" 5 "content" true
             "model.pkl" "weights" (disk [] t0) (local true)
             (snd (FileStorage.init (cfg "local") "predictor" 5 "content" true (disk [] t0))));
      [vm_compute; reflexivity | vm_compute; reflexivity | exact C3].
  - vm_compute. reflexivity.
  - apply (file_set_then_file_get_round_trip (cfg "local") "predictor" 5 "content" true
             "model.pkl" "weights" (disk unlocked t0) (local true)
             (snd (FileStorage.init (cfg "local") "predictor" 5 "content" true
                     (disk unlocked t0))));
      [vm_compute; reflexivity | vm_compute; reflexivity | exact C4].
  - apply (file_set_then_file_get_round_trip (cfg "local") "predictor" 5 "content" false
             "model.pkl" "weights" (disk [] t0) (local false)
             (snd (FileStorage.init (cfg "local") "predictor" 5 "content" false (disk [] t0))));
      [vm_compute; reflexivity | vm_compute; reflexivity | exact C5].
Defined.

End round_trip_witness.

Import TreeFacts PlainFacts MakedirsFacts.

(** * Further properties of the module *)

(** ** The constructor and the choice of the store *)

Lemma dict_get_missing k d s :
  (forall v, ~ In (k, v) d) -> dict_get k d s = (Raise KeyError, s).
Proof.
  induction d as [|[k' v] r IH]; intros Hn; simpl; [reflexivity|].
  destruct (String.eqb_spec k k') as [->|Hne].
  - destruct (Hn v). now left.
  - apply IH. intros v' Hin. apply (Hn v'). now right.
Qed.

(** X1.  A storage location other than ['local'] and ['s3'] is refused by
    the constructor with the exception of [FsStore], before the
    configured paths are read and before any directory is made. *)
Theorem init_rejects_unknown_location cfg g id rd sync s :
  location cfg <> "local" -> location cfg <> "s3" ->
  FileStorage.init cfg g id rd sync s
  = (Raise (Exception ("Location: '" +:+ location cfg +:+ "' not supported")), s).
Proof.
  intros Hl Hs. unfold FileStorage.init, FsStore.
  destruct (String.eqb_spec (location cfg) "local"); [contradiction|].
  destruct (String.eqb_spec (location cfg) "s3"); [contradiction|].
  reflexivity.
Qed.

(** X2.  With a supported location, a [root_dir] that is no key of the
    configured paths makes the constructor fail with [KeyError], and no
    directory is made. *)
Theorem init_rejects_unknown_root_dir cfg g id rd sync s st :
  FsStore cfg s = (Ok st, s) ->
  (forall v, ~ In (rd, v) (paths cfg)) ->
  FileStorage.init cfg g id rd sync s = (Raise KeyError, s).
Proof.
  intros Hst Hrd. unfold FileStorage.init.
  rewrite (bind_Ok _ _ _ _ _ Hst).
  now rewrite (bind_Raise _ _ _ _ _ (dict_get_missing _ _ s Hrd)).
Qed.

(** X3.  A constructed instance is named [group_company_id], lies at
    [paths[root_dir]/group/name], has its directory, and constructing it
    again in the state it left gives the same instance and changes
    nothing. *)
Theorem init_makes_the_directory_once cfg g id rd sync s self s0 :
  FileStorage.init cfg g id rd sync s = (Ok self, s0) ->
  FileStorage.sync self = sync /\
  FileStorage.folder_name self
  = FileStorage.format_folder_name g (company_id cfg) id /\
  (exists content,
      dict_get rd (paths cfg) s = (Ok content, s) /\
      FileStorage.folder_path self
      = pathlib.of_str content // g // FileStorage.folder_name self) /\
  PathM.exists_ (FileStorage.folder_path self) s0 = (Ok true, s0) /\
  FileStorage.init cfg g id rd sync s0 = (Ok self, s0).
Proof.
  intros Hinit. pose proof (init_inv _ _ _ _ _ _ _ _ Hinit) as (Hsync & Hex & Hre).
  split; [exact Hsync|]. split; [|split; [|split; [exact Hex | exact (Hre s0 Hex)]]].
  - unfold FileStorage.init in Hinit.
    apply bind_Ok_inv in Hinit as (st & s1 & _ & Hinit).
    apply bind_Ok_inv in Hinit as (content & s2 & _ & Hinit).
    apply bind_Ok_inv in Hinit as (ex & s3 & _ & Hinit).
    apply bind_Ok_inv in Hinit as ([] & s4 & _ & Hinit).
    now injection Hinit as <- _.
  - unfold FileStorage.init in Hinit.
    destruct (FsStore_pure cfg) as [rs Hs].
    destruct (dict_get_pure rd (paths cfg)) as [rc Hc].
    apply bind_Ok_inv in Hinit as (st & s1 & E1 & Hinit).
    rewrite Hs in E1. injection E1 as -> <-.
    apply bind_Ok_inv in Hinit as (content & s2 & E2 & Hinit).
    pose proof E2 as E2'. rewrite Hc in E2'. injection E2' as -> <-.
    apply bind_Ok_inv in Hinit as (ex & s3 & _ & Hinit).
    apply bind_Ok_inv in Hinit as ([] & s4 & _ & Hinit).
    exists content. split; [exact E2|]. now injection Hinit as <- _.
Qed.

(** ** The directory lock *)

(** X4.  Acquiring the lock a second time, in the state the first
    acquisition left, succeeds and changes nothing. *)
Theorem enter_twice_changes_nothing l s s1 :
  FileLock.enter l s = (Ok tt, s1) -> FileLock.enter l s1 = (Ok tt, s1).
Proof.
  intros He. apply enter_inv in He as [(_ & Hp & _) Hl].
  destruct (posix s) eqn:Hps; [|apply enter_not_posix; congruence].
  destruct (Hl eq_refl) as [c Hr].
  unfold FileLock.enter, bind at 1, get_state. rewrite Hp. simpl.
  rewrite bind_Ok with (a := true) (s1 := s1);
    [|eapply isfile_intro, read_file_inv; exact Hr].
  simpl. unfold bind at 1, ret at 1. unfold try_except.
  now rewrite (bind_Ok _ _ _ _ _ Hr).
Qed.

(** X5.  Acquiring the lock, whether it succeeds or fails, takes nothing
    away: the working directory is the same, every directory is still a
    directory, every path that was there is still there, and every
    regular file is still a regular file. *)
Theorem enter_takes_nothing_away l s :
  let s' := snd (FileLock.enter l s) in
  cwd s' = cwd s /\
  (forall x, is_dir_node (Tree.lookup (os.root_node s) x) = true ->
             is_dir_node (Tree.lookup (os.root_node s') x) = true) /\
  (forall x, Tree.lookup (os.root_node s) x <> None ->
             Tree.lookup (os.root_node s') x <> None) /\
  (forall x, is_file_node (Tree.lookup (os.root_node s) x) = true ->
             is_file_node (Tree.lookup (os.root_node s') x) = true).
Proof.
  intros s'. pose proof (enter_grows l s) as (Hc & _ & Hd).
  split; [exact Hc|]. split; [intros x; apply Hd|]. split; [intros x; apply Hd|].
  intros x. unfold s'.
  assert (K : stays (file_kept x) (FileLock.enter l)).
  { assert (Hm : forall a r ok, stays (file_kept x) (PathM.mkdir_parents a r ok)).
    { intros a r. induction r as [|c r IH]; intros ok; simpl;
        unfold PathM.mkdir_plain; frame. }
    assert (Hmk : forall p a b, stays (file_kept x) (PathM.mkdir p a b)).
    { intros p a b. unfold PathM.mkdir, PathM.mkdir_plain. destruct a; [apply Hm | frame]. }
    unfold FileLock.enter. frame. }
  apply K.
Qed.

(** ** Pushing a single path *)

(** X6.  With the local store, [push_path] cannot succeed: [put] of the
    local store has no default for [compression_level] and the call gives
    none, so once the lock is acquired it fails with [TypeError] and
    copies nothing.  With the remote store the default 9 applies. *)
Theorem push_path_fails_with_local_store `{Libs} self path s s1 :
  FileLock.enter (FileLock.init (FileStorage.folder_path self)) s = (Ok tt, s1) ->
  (forall storage,
      FileStorage.fs_store self = LocalStore storage ->
      FileStorage.push_path self path s
      = (Raise (TypeError "put() missing 1 required positional argument"), s1)) /\
  (forall storage,
      FileStorage.fs_store self = S3Store storage ->
      FileStorage.push_path self path s
      = S3FSStore.put (posixpath.join (FileStorage.folder_name self) path)
                      (pathlib.fspath (FileStorage.resource_group_path self)) 9 s1).
Proof.
  intros He. split; intros storage Hst; unfold FileStorage.push_path;
    rewrite (with_lock_run _ _ _ _ He), Hst; reflexivity.
Qed.

Import TreeFacts PlainFacts MakedirsFacts.

(** ** The remote store *)

Section remote_store_properties.
Context `{Libs}.
Variable gp : list string.
Variable fn : string.
Hypothesis Hgp : gp <> [].
Hypothesis Hpl : forallb plain_name gp = true.
Hypothesis Hfn : plain_name fn = true.

Let base := abs_str gp.
Let folder := gp ++ [fn].
Let zipped := gp ++ [fn +:+ ".tar.gz"].
Let marker := (gp ++ [fn]) ++ ["last_modified.txt"].

Lemma read_marker s text :
  Tree.lookup (os.root_node s) marker = Some (File (Bytes text)) ->
  S3FSStore._get_local_last_modified base fn s
  = (match strptime text with
     | Some d => Ok (Some d)
     | None => Raise ValueError
     end, s).
Proof.
  intros Hm. unfold S3FSStore._get_local_last_modified.
  unfold base. rewrite (marker_path gp fn Hgp Hpl Hfn).
  unfold PathM.is_file, PathM.read_text. rewrite fspath_abs.
  pose proof (snoc_not_nil (gp ++ [fn]) "last_modified.txt") as Hne.
  pose proof (plain_marker gp fn Hpl Hfn) as Hpm.
  rewrite (bind_Ok _ _ _ _ _ (isfile_plain _ s Hne Hpm)).
  fold marker. rewrite Hm. cbn [is_file_node negb].
  rewrite bind_Ok with (a := text) (s1 := s).
  - now destruct (strptime text).
  - fold marker in Hne, Hpm.
    now rewrite (bind_Ok _ _ _ _ _ (read_plain _ _ _ Hne Hpm Hm)).
Qed.

(** X7.  Where the marker of the resource directory parses to the
  timestamp that the store reports for the archive, [get] downloads
  nothing and changes nothing. *)
Theorem get_with_fresh_marker_is_no_op s o text :
s3_reachable s = true ->
bucket s !! (fn +:+ ".tar.gz") = Some o ->
Tree.lookup (os.root_node s) marker = Some (File (Bytes text)) ->
strptime text = Some (LastModified o) ->
S3FSStore.get fn base s = (Ok tt, s).
Proof.
intros Hreach Ho Hm Hparse. unfold S3FSStore.get.
pose proof (read_marker s text Hm) as Hl. rewrite Hparse in Hl.
rewrite (bind_Ok _ _ _ _ _ Hl).
unfold S3FSStore._get_remote_last_modified, s3.get_last_modified, s3.call.
unfold bind at 1. rewrite Hreach, Ho.
now rewrite bool_decide_eq_true_2.
Qed.

(** X8.  A marker whose text is no timestamp makes [get] fail with
  [ValueError] before the store is asked: nothing is downloaded and
  nothing is changed, also where the store holds a newer archive. *)
Theorem get_with_unreadable_marker_fails s text :
Tree.lookup (os.root_node s) marker = Some (File (Bytes text)) ->
strptime text = None ->
S3FSStore.get fn base s = (Raise ValueError, s).
Proof.
intros Hm Hparse. unfold S3FSStore.get.
rewrite bind_Raise with (e := ValueError) (s1 := s); [reflexivity|].
rewrite (read_marker s text Hm). now rewrite Hparse.
Qed.

(** X9.  After a successful [put] the marker holds the timestamp of the
  archive just stored, so a [get] that follows it downloads nothing and
  changes nothing, provided the timestamp is the same after it was
  formatted and parsed. *)
Theorem get_after_put_is_no_op cl s s1 :
S3FSStore.put fn base cl s = (Ok tt, s1) ->
strptime (strftime (s3_now s1)) = Some (s3_now s1) ->
S3FSStore.get fn base s1 = (Ok tt, s1).
Proof.
intros Hput Hcodec.
destruct (s3_put_marker gp fn Hgp Hpl Hfn _ _ _ Hput) as (o & Hreach & Ho & Hnow & Hm).
apply (s3_get_fresh gp fn Hgp Hpl Hfn s1 o Hreach Ho Hm). now rewrite Hnow.
Qed.

(** X10.  Whether it succeeds or fails, [put] changes the content of no
  file other than the archive it makes beside the resource directory
  and the marker in it. *)
Theorem put_changes_no_other_file cl s q c :
q <> zipped -> q <> marker ->
Tree.lookup (os.root_node s) q = Some (File c) ->
Tree.lookup (os.root_node (snd (S3FSStore.put fn base cl s))) q = Some (File c).
Proof.
intros Hz Hm Hq.
destruct (s3_put_kept gp fn Hgp Hpl Hfn q cl Hz Hm s) as [_ K]. now apply K.
Qed.

(** X11.  Whether it succeeds or fails, [get] takes no regular file away
  but the archive it downloads beside the resource directory: every
  other file is still a file afterwards (its content may be that of the
  archive). *)
Theorem get_removes_no_other_file s q :
q <> zipped ->
is_file_node (Tree.lookup (os.root_node s) q) = true ->
is_file_node (Tree.lookup (os.root_node (snd (S3FSStore.get fn base s))) q) = true.
Proof.
intros Hz Hq.
destruct (s3_get_file_kept gp fn Hgp Hpl Hfn q Hz s) as [_ K]. now apply K.
Qed.

Lemma stat_relative s c :
  cwd s = gp -> plain_name c = true ->
  is_dir_node (Tree.lookup (os.root_node s) gp) = true ->
  os.stat c s = (match Tree.lookup (os.root_node s) (gp ++ [c]) with
                 | Some n => Ok n
                 | None => Raise FileNotFoundError
                 end, s).
Proof.
  intros Hcwd Hc Hd.
  assert (Hr : os.resolve c s = (Ok (gp ++ [c]), s)).
  { unfold os.resolve.
    destruct (String.eqb_spec c EmptyString) as [->|_]; [discriminate|].
    rewrite (startswith_plain _ Hc), Hcwd.
    rewrite (split_no_slash _ (plain_no_slash _ Hc)). cbn [os.namei].
    destruct (Tree.lookup (os.root_node s) gp) as [[|es]|]; try discriminate.
    now destruct (plain_not_special _ Hc) as [-> ->]. }
  unfold os.stat. rewrite (bind_Ok _ _ _ _ _ Hr).
  unfold bind, os.node_at. now destruct (Tree.lookup _ (gp ++ [c])).
Qed.

Lemma add_entries_missing p (es : list (string * node)) tar c s :
  cwd s = gp ->
  is_dir_node (Tree.lookup (os.root_node s) gp) = true ->
  forallb plain_name (map fst es) = true ->
  In c (map fst es) ->
  Tree.lookup (os.root_node s) (gp ++ [c]) = None ->
  S3FSStore.add_entries
    (map (fun e => pathlib.joinpath p (mkPath false [fst e])) es) tar s
  = (Raise FileNotFoundError, s).
Proof.
  intros Hcwd Hd. revert tar.
  induction es as [|[k x] es IH]; intros tar Hpn Hin Hc; [destruct Hin|].
  simpl in Hpn. apply andb_prop in Hpn as [Hk Hpn].
  cbn [map S3FSStore.add_entries fst].
  destruct (PathM.is_file (pathlib.joinpath p (mkPath false [k])) s)
    as [[f|e] s'] eqn:Ef;
    pose proof (readonly_eq _ _ _ _ (Path_is_file_readonly _) Ef) as ->.
  2:{ unfold PathM.is_file, os.path.isfile, try_except, bind, ret in Ef.
      destruct (os.stat _ s) as [[?|?] ?]; discriminate. }
  rewrite (bind_Ok _ _ _ _ _ Ef).
  assert (Hname : pathlib.name (pathlib.joinpath p (mkPath false [k])) = k).
  { unfold pathlib.name, pathlib.joinpath. cbn [anchor parts]. apply last_last. }
  rewrite Hname.
  rewrite bind_Ok with (a := tt) (s1 := s); [|now destruct (_ && _)%bool].
  pose proof (stat_relative s k Hcwd Hk Hd) as Hs.
  destruct (Tree.lookup (os.root_node s) (gp ++ [k])) as [n|] eqn:Ek.
  - rewrite bind_Ok with (a := tarfile.members_of (tarfile.lstrip_slash k) n) (s1 := s);
      [|unfold tarfile.add; now rewrite (bind_Ok _ _ _ _ _ Hs)].
    apply IH; [exact Hpn | | exact Hc].
    simpl in Hin. destruct Hin as [<-|Hin]; [congruence | exact Hin].
  - rewrite bind_Raise with (e := FileNotFoundError) (s1 := s); [reflexivity|].
    unfold tarfile.add. now rewrite (bind_Raise _ _ _ _ _ Hs).
Qed.

(** X12.  Where twice the size of the resource directory is below the
  available memory, [put] adds every entry of the resource directory by
  its bare name from the group directory, which it has made the working
  directory.  When an entry bears a name that is not in the group
  directory, [put] fails with [FileNotFoundError], uploads nothing and
  leaves the process in the group directory. *)
Theorem put_in_memory_fails_on_a_missing_name cl s es c :
Tree.lookup (os.root_node s) folder = Some (Dir es) ->
forallb plain_name (map fst es) = true ->
In c (map fst es) ->
Tree.lookup (os.root_node s) (gp ++ [c]) = None ->
tree_size (Dir es) * 2 < available s ->
S3FSStore.put fn base cl s = (Raise FileNotFoundError, os.with_cwd gp s).
Proof.
intros Hf Hpn Hin Hc Hsize. unfold S3FSStore.put.
unfold bind at 1, os.getcwd.
unfold base. rewrite (folder_path_of_base gp fn Hgp Hpl Hfn).
pose proof (plain_folder gp fn Hpl Hfn) as Hpf.
pose proof (snoc_not_nil gp fn) as Hfne.
assert (Hst : forall s', root s' = root s ->
                os.stat (abs_str (gp ++ [fn])) s' = (Ok (Dir es), s')).
{ intros s' Hr. apply stat_plain; [assumption..|].
  unfold os.root_node. rewrite Hr. exact Hf. }
rewrite bind_Ok with (a := tree_size (Dir es)) (s1 := s).
2:{ unfold S3FSStore.glob_files_size, try_except. rewrite fspath_abs.
    now rewrite (bind_Ok _ _ _ _ _ (Hst s eq_refl)). }
unfold bind at 1, get_state.
apply Nat.ltb_lt in Hsize. rewrite Hsize.
assert (Hgd : is_dir_node (Tree.lookup (os.root_node s) gp) = true)
  by exact (lookup_above_dir _ _ _ _ _ Hf).
assert (Hcd : os.chdir (abs_str gp) s = (Ok tt, os.with_cwd gp s)).
{ unfold os.chdir.
  rewrite bind_Ok with (a := gp) (s1 := s).
  - unfold bind, os.node_at.
    now destruct (Tree.lookup (os.root_node s) gp) as [[|?]|].
  - apply resolve_abs_Ok; [assumption..|].
    intros x c0 t ->. rewrite lookup_path_app in Hgd.
    destruct (Tree.lookup (os.root_node s) x) as [[|?]|]; auto; discriminate. }
rewrite bind_Raise with (e := FileNotFoundError) (s1 := os.with_cwd gp s);
  [reflexivity|].
rewrite (bind_Ok _ _ _ _ _ Hcd).
rewrite bind_Ok
  with (a := map (fun e => pathlib.joinpath (mkPath true (gp ++ [fn]))
                             (mkPath false [fst e])) es)
       (s1 := os.with_cwd gp s).
2:{ unfold PathM.iterdir. rewrite fspath_abs.
    now rewrite (bind_Ok _ _ _ _ _ (Hst (os.with_cwd gp s) eq_refl)). }
rewrite bind_Raise with (e := FileNotFoundError) (s1 := os.with_cwd gp s);
  [reflexivity|].
now apply add_entries_missing with (c := c).
Qed.

End remote_store_properties.

(** X13.  A [get] that fails with [ClientError] (the archive is not in
    the bucket, or the store does not answer) has changed nothing: the
    error comes before the download. *)
Theorem get_client_error_changes_nothing `{Libs} local_name base_dir s s' :
  S3FSStore.get local_name base_dir s = (Raise ClientError, s') -> s' = s.
Proof. apply s3_get_client_error. Qed.

Import TreeFacts PlainFacts MakedirsFacts.

(** ** [copy] and the local store *)

(** X14.  [copy] of a source that cannot be read (it is not there) fails
    with the error of reading it and changes nothing: the destination is
    not removed first. *)
Theorem copy_of_missing_source_changes_nothing `{Libs} src dst s e :
  os.stat src s = (Raise e, s) -> copy src dst s = (Raise e, s).
Proof.
  intros E. pose proof (copy_missing_source src dst s e E) as Hs.
  destruct (copy src dst s) as [r s'] eqn:Ec. simpl in Hs. subst s'. f_equal.
  unfold copy in Ec.
  rewrite (bind_Ok _ _ _ _ _ (stat_Raise_isdir _ _ _ E)) in Ec.
  destruct (os.path.exists_ dst s) as [[[]|e'] s'] eqn:Ex;
    pose proof (readonly_eq _ _ _ _ (exists_readonly dst) Ex); subst s'.
  - rewrite (bind_Ok _ _ _ _ _ Ex) in Ec.
    rewrite bind_Raise with (e := e) (s1 := s) in Ec; [congruence|].
    rewrite bind_Raise with (e := e) (s1 := s); [reflexivity|].
    now apply stat_Raise_read_file.
  - rewrite (bind_Ok _ _ _ _ _ Ex) in Ec.
    unfold bind at 1, ret at 1 in Ec.
    apply exists_false_stat in Ex as [e' Ex].
    destruct (stat_Raise_remove _ _ _ Ex) as [e'' Er].
    rewrite bind_Ok with (a := tt) (s1 := s) in Ec;
      [|rewrite try_pass_Ok, Er; reflexivity].
    unfold shutil.copy2 in Ec.
    rewrite (bind_Ok _ _ _ _ _ (stat_Raise_isdir _ _ _ Ex)) in Ec.
    rewrite (bind_Ok _ _ _ _ _ (stat_Raise_samefile _ _ _ _ E)) in Ec.
    rewrite (bind_Raise _ _ _ _ _ (stat_Raise_read_file _ _ _ E)) in Ec.
    congruence.
  - unfold os.path.exists_, try_except, bind, ret in Ex.
    destruct (os.stat dst s) as [[?|?] ?]; discriminate.
Qed.

Section copy_properties.
Context `{Libs}.
Variables p q : list string.
Hypothesis Hp : forallb plain_name p = true.
Hypothesis Hq : forallb plain_name q = true.
Hypothesis Hpne : p <> [].
Hypothesis Hqne : q <> [].
Hypothesis Hdiv : diverge q p = true.

(** X15.  A successful [copy] of a directory either found the two
  directory hashes equal and changed nothing, or left the destination
  with exactly the entries of the source (what the destination held
  before is gone).  In both cases nothing beside the destination is
  changed. *)
Theorem copy_skips_or_replaces s s1 :
os.path.isdir (abs_str p) s = (Ok true, s) ->
copy (abs_str p) (abs_str q) s = (Ok tt, s1) ->
((s1 = s /\
  exists es es', os.stat (abs_str p) s = (Ok (Dir es), s) /\
                 os.stat (abs_str q) s = (Ok (Dir es'), s) /\
                 dirhash_of es = dirhash_of es')
 \/ exists es, os.stat (abs_str p) s1 = (Ok (Dir es), s1) /\
               os.stat (abs_str q) s1 = (Ok (Dir es), s1)) /\
(forall x, diverge q x = true ->
           Tree.lookup (os.root_node s1) x = Tree.lookup (os.root_node s) x).
Proof.
intros Hd H0.
destruct (copy_dir_result p q Hp Hq Hpne Hqne Hdiv s s1 Hd H0) as ((_ & _ & U) & _).
split; [|exact U].
unfold copy in H0. rewrite (bind_Ok _ _ _ _ _ Hd) in H0.
ro_step H0 present Eex. destruct present.
- ro_step H0 same Es.
  apply bind_Ok_inv in Es as (a & sx & Ea & Es).
  pose proof (readonly_eq _ _ _ _ (dirhash_readonly _) Ea) as ->.
  apply bind_Ok_inv in Es as (b & sx & Eb & Es).
  pose proof (readonly_eq _ _ _ _ (dirhash_readonly _) Eb) as ->.
  injection Es as <-.
  destruct (String.eqb_spec a b) as [->|Hne].
  + left. assert (s1 = s) by (now injection H0). subst s1.
    apply dirhash_inv in Ea as (es & Hs & Ha).
    apply dirhash_inv in Eb as (es' & Hs' & Hb).
    split; [reflexivity|]. exists es, es'. repeat split; auto. congruence.
  + right. now apply (recopied p q Hp Hq Hpne Hqne Hdiv) in H0 as (_ & H0).
- right. apply bind_Ok_inv in H0 as (same & sx & Es & H0).
  injection Es as <- <-.
  now apply (recopied p q Hp Hq Hpne Hqne Hdiv) in H0 as (_ & H0).
Qed.

End copy_properties.

Section local_store_properties.
Context `{Libs}.
Variables sp gp : list string.
Variable fn : string.
Hypothesis Hsp : sp <> [].
Hypothesis Hgp : gp <> [].
Hypothesis Hpsp : forallb plain_name sp = true.
Hypothesis Hpgp : forallb plain_name gp = true.
Hypothesis Hfn : plain_name fn = true.

Let storage := abs_str sp.
Let base := abs_str gp.
Let stored := sp ++ [fn].

(** X16.  After a successful [put] of a resource directory, a [get] of the
  same name copies nothing and changes nothing (the storage directory
  and the resource directory lying apart). *)
Theorem local_get_after_put_is_no_op cl s s1 :
diverge stored (gp ++ [fn]) = true ->
os.path.isdir (abs_str (gp ++ [fn])) s = (Ok true, s) ->
LocalFSStore.put storage fn base (Some cl) s = (Ok tt, s1) ->
LocalFSStore.get storage fn base s1 = (Ok tt, s1).
Proof.
intros Hdiv Hd Hput. unfold LocalFSStore.put, storage, base in Hput.
rewrite !join_abs in Hput by assumption.
destruct (copy_dir_result (gp ++ [fn]) (sp ++ [fn])
            (plain_snoc _ _ Hpgp Hfn) (plain_snoc _ _ Hpsp Hfn)
            (snoc_not_nil _ _) (snoc_not_nil _ _) Hdiv _ _ Hd Hput)
  as (_ & es & es' & Hs & Hd' & Hh).
exact (local_get_same_hash sp gp fn Hsp Hgp Hpsp Hpgp Hfn s1 es es' Hs Hd' Hh).
Qed.

Lemma stored_path : pathlib.of_str storage // fn = mkPath true stored.
Proof.
  unfold storage. rewrite of_str_abs by assumption. now rewrite joinpath_plain.
Qed.

Lemma lookup_none_stat l s :
  l <> [] -> forallb plain_name l = true ->
  Tree.lookup (os.root_node s) l = None ->
  exists e, os.stat (abs_str l) s = (Raise e, s).
Proof.
  intros Hne Hl Hn. destruct (stat_cases (abs_str l) s) as [[n E]|[e E]]; [|eauto].
  apply stat_plain_inv in E; [congruence | assumption..].
Qed.

(** X17.  [delete] of a name that is not in the storage directory is no
  error and changes nothing; and whenever [delete] returns normally,
  the name is not in the storage directory afterwards, were it a file
  or a directory with all below it. *)
Theorem local_delete_leaves_nothing s :
(os.stat (abs_str stored) s = (Raise FileNotFoundError, s) ->
 LocalFSStore.delete storage fn s = (Ok tt, s)) /\
(forall s', LocalFSStore.delete storage fn s = (Ok tt, s') ->
            Tree.lookup (os.root_node s') stored = None /\
            PathM.exists_ (pathlib.of_str storage // fn) s' = (Ok false, s')).
Proof.
pose proof (snoc_not_nil sp fn) as Hne.
pose proof (plain_snoc _ _ Hpsp Hfn) as Hpl.
assert (Hgone : forall s', Tree.lookup (os.root_node s') stored = None ->
          Tree.lookup (os.root_node s') stored = None /\
          PathM.exists_ (mkPath true stored) s' = (Ok false, s')).
{ intros s' Hn. split; [exact Hn|].
  unfold PathM.exists_. rewrite fspath_abs.
  destruct (lookup_none_stat stored s' Hne Hpl Hn) as [e E].
  exact (stat_Raise_exists _ _ _ E). }
unfold LocalFSStore.delete. rewrite stored_path.
unfold PathM.is_file, PathM.unlink. rewrite fspath_abs.
split.
- intros E. unfold try_except.
  rewrite (bind_Ok _ _ _ _ _ (stat_Raise_isfile _ _ _ E)).
  assert (Hrm : shutil.rmtree (abs_str stored) s = (Raise FileNotFoundError, s)).
  { unfold os.stat in E. unfold shutil.rmtree.
    destruct (os.resolve (abs_str stored) s) as [[x|e] s0] eqn:Er;
      pose proof (readonly_eq _ _ _ _ (resolve_readonly _) Er) as ->.
    - rewrite (bind_Ok _ _ _ _ _ Er) in E. rewrite (bind_Ok _ _ _ _ _ Er).
      unfold bind, os.node_at, ret, raise in *.
      destruct (Tree.lookup (os.root_node s) x); [discriminate | reflexivity].
    - rewrite (bind_Raise _ _ _ _ _ Er) in E. rewrite (bind_Raise _ _ _ _ _ Er). congruence. }
  now rewrite Hrm.
- intros s' Hdel. apply Hgone. unfold try_except in Hdel.
  rewrite (bind_Ok _ _ _ _ _ (isfile_plain _ s Hne Hpl)) in Hdel.
  fold stored in Hdel.
  destruct (Tree.lookup (os.root_node s) stored) as [[c|es]|] eqn:El;
    cbn [is_file_node] in Hdel.
  + destruct (os.remove (abs_str stored) s) as [[[]|e] s2] eqn:Er.
    * injection Hdel as <-.
      apply remove_inv in Er as (x & c0 & es' & Hr & _ & Hrem & ->).
      apply resolve_abs_inv in Hr as [-> _]; [|assumption..].
      pose proof (remove_lookup_same _ _ _ [] Hrem) as G.
      now rewrite app_nil_r in G.
    * pose proof (remove_Raise _ _ _ _ Er) as ->.
      destruct e; try discriminate.
      unfold os.remove in Er.
      rewrite (bind_Ok _ _ _ _ _ (resolve_abs_Ok _ _ Hne Hpl
                 (fun x c0 t E => lookup_above_dir _ x c0 t _
                    (eq_ind _ (fun l => Tree.lookup _ l = _) El _ E)))) in Er.
      unfold bind, os.node_at in Er. fold stored in Er. rewrite El in Er.
      unfold os.del_node in Er.
      destruct (Tree.remove _ _) as [[|?]|]; discriminate.
  + destruct (shutil.rmtree (abs_str stored) s) as [[[]|e] s2] eqn:Er.
    * injection Hdel as <-.
      apply rmtree_inv in Er as (x & es' & Hr & _ & Hrem & ->).
      apply resolve_abs_inv in Hr as [-> _]; [|assumption..].
      pose proof (remove_lookup_same _ _ _ [] Hrem) as G.
      now rewrite app_nil_r in G.
    * pose proof (rmtree_Raise _ _ _ _ Er) as ->.
      destruct e; try discriminate.
      unfold shutil.rmtree in Er.
      rewrite (bind_Ok _ _ _ _ _ (resolve_abs_Ok _ _ Hne Hpl
                 (fun x c0 t E => lookup_above_dir _ x c0 t _
                    (eq_ind _ (fun l => Tree.lookup _ l = _) El _ E)))) in Er.
      unfold bind, os.node_at in Er. fold stored in Er. rewrite El in Er.
      unfold os.del_node in Er.
      destruct (Tree.remove _ _) as [[|?]|]; discriminate.
  + destruct (shutil.rmtree (abs_str stored) s) as [[[]|e] s2] eqn:Er.
    * apply rmtree_inv in Er as (x & es' & Hr & Hdn & _).
      apply resolve_abs_inv in Hr as [-> _]; [|assumption..].
      rewrite El in Hdn. discriminate.
    * pose proof (rmtree_Raise _ _ _ _ Er) as ->.
      destruct e; try discriminate. unfold ret in Hdel. now injection Hdel as <-.
Qed.

End local_store_properties.

Import TreeFacts PlainFacts MakedirsFacts.

(** ** Paths below the resource directory, without synchronization *)

(** Removing a node with nothing below it leaves every other file as it
    is. *)
Lemma remove_leaf_keeps_files r p r' q c0 :
  Tree.remove r p = Some r' ->
  (forall c t, Tree.lookup r (p ++ c :: t) = None) ->
  q <> p -> Tree.lookup r q = Some (File c0) -> Tree.lookup r' q = Some (File c0).
Proof.
  intros Hr Hleaf Hne Hq.
  destruct (path_cases p q) as [->|[(d & t & ->)|[(d & t & ->)|Hd]]].
  - congruence.
  - pose proof (remove_lookup_above _ _ _ _ _ Hr) as [Hd _].
    rewrite Hq in Hd. discriminate.
  - rewrite Hleaf in Hq. discriminate.
  - now rewrite (remove_lookup_diverge _ _ _ _ Hr Hd).
Qed.

Section below_the_resource_directory.
Context `{Libs}.
Variable self : FileStorage.t.
Variable gp : list string.
Variable fn : string.
Hypothesis Hlayout : plain_layout self gp fn.
Hypothesis Hsync : FileStorage.sync self = false.
Variable rel : string.
Hypothesis Hrel : plain_relative rel = true.

Let lock := FileLock.init (FileStorage.folder_path self).
Let folder := gp ++ [fn].
Let target := folder ++ PyStr.split_slash rel.

Lemma target_plain : forallb plain_name target = true.
Proof. exact (plain_target self gp fn Hlayout rel Hrel). Qed.

Lemma target_nonempty : target <> [].
Proof. exact (target_not_nil gp fn rel). Qed.

Lemma target_not_folder : mkPath true target <> mkPath true folder.
Proof.
  intros [= E]. unfold target in E. rewrite <- (app_nil_r folder) in E at 2.
  apply app_inv_head in E. now apply split_slash_not_nil in E.
Qed.

Lemma rel_not_absolute : pathlib.is_absolute (pathlib.of_str rel) = false.
Proof. now rewrite of_str_plain_relative. Qed.

Lemma joined_path :
  pathlib.joinpath (FileStorage.folder_path self) (pathlib.of_str rel)
  = mkPath true target.
Proof. rewrite (folder_at _ _ _ Hlayout). now rewrite of_str_plain_relative. Qed.

Lemma resolved_path s :
  PathM.resolve (mkPath true target) s = (Ok (mkPath true target), s).
Proof.
  unfold PathM.resolve. cbn [anchor parts].
  now rewrite (collapse_plain [] _ target_plain).
Qed.

Lemma resolved_folder s :
  PathM.resolve (FileStorage.folder_path self) s = (Ok (mkPath true folder), s).
Proof.
  rewrite (folder_at _ _ _ Hlayout). unfold PathM.resolve. cbn [anchor parts].
  now rewrite (collapse_plain [] _ (layout_plain _ _ _ Hlayout)).
Qed.

(** [delete] of a path below the resource directory, once the lock is
    acquired *)
Lemma delete_below s sl :
  FileLock.enter lock s = (Ok tt, sl) ->
  FileStorage.delete self rel s
  = (let! ex := os.path.exists_ (abs_str target) in
     if negb ex then raise (Exception "Path does not exists")
     else let! f := os.path.isfile (abs_str target) in
          (if f then os.remove (abs_str target) else os.rmdir (abs_str target)) >>
          ret tt) sl.
Proof.
  intros He. unfold FileStorage.delete.
  rewrite (with_lock_run _ _ _ _ He). rewrite rel_not_absolute, joined_path.
  rewrite (bind_Ok _ _ _ _ _ (resolved_path sl)).
  rewrite (bind_Ok _ _ _ _ _ (resolved_folder sl)).
  rewrite bool_decide_eq_false_2 by exact target_not_folder.
  rewrite Hsync. reflexivity.
Qed.

(** X18.  Without synchronization, [get_path] of a relative path of plain
  names returns the path below the resource directory, and the path is
  there when it returns: left as it was if it was there when the lock
  was acquired, made as a directory (with those above it) if not. *)
Theorem get_path_returns_an_existing_path s p s' :
FileStorage.get_path self rel s = (Ok p, s') ->
p = mkPath true target /\
PathM.exists_ p s' = (Ok true, s') /\
exists sl,
  FileLock.enter lock s = (Ok tt, sl) /\
  (PathM.exists_ p sl = (Ok true, sl) -> s' = sl) /\
  (PathM.exists_ p sl = (Ok false, sl) -> PathM.is_dir p s' = (Ok true, s')).
Proof.
unfold FileStorage.get_path. intros H0.
apply with_lock_inv in H0 as (sl & He & H0).
rewrite Hsync, rel_not_absolute, joined_path in H0. cbn [when] in H0.
unfold bind at 1, ret at 1 in H0.
unfold PathM.exists_, PathM.is_dir in *. rewrite fspath_abs in H0.
ro_step H0 present Eex.
apply bind_Ok_inv in H0 as ([] & s2 & Hmk & H0). injection H0 as <- <-.
split; [reflexivity|]. rewrite fspath_abs.
destruct present; cbn [negb when] in Hmk.
- injection Hmk as <-. split; [exact Eex|]. exists sl.
  split; [exact He|]. split; [reflexivity|]. congruence.
- unfold os.makedirs in Hmk.
  apply (makedirs_rec_Ok_mkdir target _ _ _ target_nonempty target_plain) in Hmk
    as (sm & _ & _ & Hmk).
  pose proof (mkdir_isdir _ _ _ Hmk) as Hd.
  split; [now apply isdir_exists|]. exists sl.
  split; [exact He|]. split; [congruence | intros _; exact Hd].
Qed.

(** X19.  Without synchronization, [delete] of a path that is not there
  fails with the exception ['Path does not exists'] and changes nothing
  beyond the lock. *)
Theorem delete_of_missing_path_fails s sl :
FileLock.enter lock s = (Ok tt, sl) ->
Tree.lookup (os.root_node sl) target = None ->
FileStorage.delete self rel s = (Raise (Exception "Path does not exists"), sl).
Proof.
intros He Hn. rewrite (delete_below s sl He).
destruct (lookup_none_stat target sl target_nonempty target_plain Hn) as [e E].
now rewrite (bind_Ok _ _ _ _ _ (stat_Raise_exists _ _ _ E)).
Qed.

(** X20.  Without synchronization, [delete] of a directory below the
  resource directory that is not empty fails with [OSError] and removes
  nothing: only the resource directory itself is removed with what it
  holds. *)
Theorem delete_keeps_a_directory_that_is_not_empty s sl e es :
FileLock.enter lock s = (Ok tt, sl) ->
Tree.lookup (os.root_node sl) target = Some (Dir (e :: es)) ->
FileStorage.delete self rel s = (Raise OSError, sl).
Proof.
intros He Hn. rewrite (delete_below s sl He).
pose proof (stat_plain _ _ _ target_nonempty target_plain Hn) as Hs.
rewrite (bind_Ok _ _ _ _ _ (exists_intro _ _ _ Hs)). cbn [negb].
rewrite (bind_Ok _ _ _ _ _ (isfile_plain _ sl target_nonempty target_plain)).
fold target. rewrite Hn. cbn [is_file_node].
rewrite bind_Raise with (e := OSError) (s1 := sl); [reflexivity|].
unfold os.rmdir.
apply stat_inv in Hs as (_ & x & Hr & Hx).
rewrite (bind_Ok _ _ _ _ _ Hr). unfold bind, os.node_at. now rewrite Hx.
Qed.

(** X21.  Without synchronization, [delete] of a regular file or of an
  empty directory below the resource directory succeeds; afterwards the
  path is not there, and every other regular file is there with its
  content. *)
Theorem delete_removes_the_path_and_nothing_else s sl n :
FileLock.enter lock s = (Ok tt, sl) ->
Tree.lookup (os.root_node sl) target = Some n ->
(exists c, n = File c) \/ n = Dir [] ->
exists s',
  FileStorage.delete self rel s = (Ok tt, s') /\
  Tree.lookup (os.root_node s') target = None /\
  forall q c, q <> target ->
              Tree.lookup (os.root_node sl) q = Some (File c) ->
              Tree.lookup (os.root_node s') q = Some (File c).
Proof.
intros He Hn Hleaf. rewrite (delete_below s sl He).
pose proof (stat_plain _ _ _ target_nonempty target_plain Hn) as Hs.
rewrite (bind_Ok _ _ _ _ _ (exists_intro _ _ _ Hs)). cbn [negb].
rewrite (bind_Ok _ _ _ _ _ (isfile_plain _ sl target_nonempty target_plain)).
fold target. rewrite Hn.
destruct (remove_exists _ _ _ target_nonempty Hn) as [r' Hrem].
destruct (remove_root_dir _ _ _ Hrem) as [es' ->].
assert (Hbelow : forall c t, Tree.lookup (os.root_node sl) (target ++ c :: t) = None).
{ intros c t. rewrite lookup_path_app, Hn.
  destruct Hleaf as [[c0 ->]| ->]; reflexivity. }
assert (Hdel : os.del_node target sl = (Ok tt, os.with_root es' sl)).
{ unfold os.del_node. now rewrite Hrem. }
exists (os.with_root es' sl).
apply stat_inv in Hs as (_ & x & Hr & Hx).
pose proof Hr as Hr'.
apply resolve_abs_inv in Hr' as [-> _]; [|exact target_nonempty | exact target_plain].
split; [|split].
- destruct Hleaf as [[c0 ->]| ->]; cbn [is_file_node].
  + rewrite bind_Ok with (a := tt) (s1 := os.with_root es' sl); [reflexivity|].
    unfold os.remove. rewrite (bind_Ok _ _ _ _ _ Hr).
    unfold bind at 1, os.node_at. now rewrite Hn.
  + rewrite bind_Ok with (a := tt) (s1 := os.with_root es' sl); [reflexivity|].
    unfold os.rmdir. rewrite (bind_Ok _ _ _ _ _ Hr).
    unfold bind at 1, os.node_at. now rewrite Hn.
- pose proof (remove_lookup_same _ _ _ [] Hrem) as G.
  now rewrite app_nil_r in G.
- intros q c Hq Hc.
  exact (remove_leaf_keeps_files _ _ _ _ _ Hrem Hbelow Hq Hc).
Qed.

End below_the_resource_directory.

Import TreeFacts PlainFacts MakedirsFacts.

(** ** Adding a file to the resource directory *)

Section add_a_file.
Context `{Libs}.
Variable self : FileStorage.t.
Variable gp : list string.
Variable fn : string.
Hypothesis Hlayout : plain_layout self gp fn.
Hypothesis Hsync : FileStorage.sync self = false.
Variable dir : list string.
Variable name : string.
Hypothesis Hsrc : forallb plain_name (dir ++ [name]) = true.

Let lock := FileLock.init (FileStorage.folder_path self).
Let src := dir ++ [name].
Let dest := (gp ++ [fn]) ++ [name].

Lemma plain_added_name : plain_name name = true.
Proof.
  pose proof (forallb_app_r _ _ _ Hsrc) as Hn. simpl in Hn.
  now rewrite andb_true_r in Hn.
Qed.

Lemma plain_dest : forallb plain_name dest = true.
Proof.
  apply plain_snoc; [exact (layout_plain _ _ _ Hlayout) | exact plain_added_name].
Qed.

Lemma add_unfolded s sl :
  FileLock.enter lock s = (Ok tt, sl) ->
  FileStorage.add self (abs_str src) None s
  = (copy (abs_str src) (abs_str dest) >> ret tt) sl.
Proof.
  intros He. unfold FileStorage.add. rewrite (with_lock_run _ _ _ _ He).
  rewrite Hsync. cbn [when]. unfold bind at 1, ret at 1. unfold src, dest.
  cbv zeta. rewrite (of_str_abs _ (snoc_not_nil _ _) Hsrc).
  unfold pathlib.name. cbn [parts]. rewrite last_last.
  rewrite (folder_at _ _ _ Hlayout), (joinpath_plain _ _ _ plain_added_name).
  reflexivity.
Qed.

(** [copy2] of a file onto a path that is no directory *)
Lemma copy2_file a s s' :
  Tree.lookup (os.root_node s) src = Some (File a) ->
  is_dir_node (Tree.lookup (os.root_node s) dest) = false ->
  shutil.copy2 (abs_str src) (abs_str dest) s = (Ok tt, s') ->
  Tree.lookup (os.root_node s') dest = Some (File a).
Proof.
  intros Ha Hd H0. unfold shutil.copy2 in H0.
  rewrite (bind_Ok _ _ _ _ _ (isdir_plain _ s (snoc_not_nil _ _) plain_dest)) in H0.
  fold dest in H0. rewrite Hd in H0. cbv iota zeta in H0.
  apply bind_Ok_inv in H0 as (same & sx & Es & H0).
  pose proof (readonly_eq _ _ _ _ (samefile_readonly _ _) Es) as ->.
  destruct same; [discriminate|].
  rewrite (bind_Ok _ _ _ _ _ (read_plain _ _ _ (snoc_not_nil _ _) Hsrc Ha)) in H0.
  apply write_file_inv in H0 as (x & es' & Hr & _ & Hp & ->).
  apply resolve_abs_inv in Hr as [-> _]; [|apply snoc_not_nil | exact plain_dest].
  exact (place_lookup_same _ _ _ _ Hp).
Qed.

(** X22.  Without synchronization, when [add] of a regular file returns
  normally, the resource directory holds a file of the source's name
  whose file hash is that of the source: the source's own content where
  the name was free, and possibly an older file of equal hash where the
  copy was skipped.  (The destination is not a directory, and is not the
  source itself.) *)
Theorem add_stores_the_file_under_its_name s sl s' a :
FileLock.enter lock s = (Ok tt, sl) ->
Tree.lookup (os.root_node sl) src = Some (File a) ->
is_dir_node (Tree.lookup (os.root_node sl) dest) = false ->
src <> dest ->
FileStorage.add self (abs_str src) None s = (Ok tt, s') ->
exists b,
  Tree.lookup (os.root_node s') dest = Some (File b) /\
  md5_hexdigest b = md5_hexdigest a /\
  (Tree.lookup (os.root_node sl) dest = None -> b = a).
Proof.
intros He Ha Hd Hne Hadd. rewrite (add_unfolded s sl He) in Hadd.
apply bind_Ok_inv in Hadd as ([] & s2 & Hcopy & Hret). injection Hret as <-.
pose proof (snoc_not_nil dir name) as Hsne.
pose proof (snoc_not_nil (gp ++ [fn]) name) as Hdne.
pose proof plain_dest as Hpd.
unfold copy in Hcopy.
rewrite (bind_Ok _ _ _ _ _ (isdir_plain _ sl Hsne Hsrc)) in Hcopy.
fold src in Hcopy. rewrite Ha in Hcopy. cbn [is_dir_node] in Hcopy.
assert (Hcopied : forall s3,
           (try_pass (os.remove (abs_str dest)) >>
            shutil.copy2 (abs_str src) (abs_str dest)) sl = (Ok tt, s3) ->
           Tree.lookup (os.root_node s3) dest = Some (File a)).
{ intros s3 H0. apply bind_Ok_inv in H0 as ([] & sr & Hrm & Hcp).
  rewrite try_pass_Ok in Hrm. injection Hrm as <-.
  apply (copy2_file a _ _) in Hcp; [exact Hcp | |].
  - pose proof (remove_kept src dest Hdne Hpd (fun E => Hne (eq_sym E)) sl) as [_ K].
    now apply K.
  - destruct (os.remove (abs_str dest) sl) as [[[]|e] sr] eqn:Er; cbn [snd].
    + apply remove_inv in Er as (x & c0 & es' & Hr & _ & Hrem & ->).
      apply resolve_abs_inv in Hr as [-> _]; [|assumption..].
      pose proof (remove_lookup_same _ _ _ [] Hrem) as G.
      rewrite app_nil_r in G.
      change (os.root_node (os.with_root es' sl)) with (Dir es'). now rewrite G.
    + now apply remove_Raise in Er as ->. }
ro_step Hcopy present Eex. destruct present.
- ro_step Hcopy same Es.
  apply bind_Ok_inv in Es as (a' & sx & Ea & Es).
  pose proof (readonly_eq _ _ _ _ (read_file_readonly _) Ea) as ->.
  apply bind_Ok_inv in Es as (b & sx & Eb & Es).
  pose proof (readonly_eq _ _ _ _ (read_file_readonly _) Eb) as ->.
  injection Es as <-.
  pose proof (read_plain _ _ _ Hsne Hsrc Ha) as Ea'. fold src in Ea'.
  rewrite Ea' in Ea. injection Ea as <-.
  apply read_file_inv, stat_plain_inv in Eb; [|assumption..].
  destruct (String.eqb_spec (md5_hexdigest a) (md5_hexdigest b)) as [Heq|_].
  + assert (s2 = sl) by (now injection Hcopy). subst s2.
    exists b. split; [exact Eb|]. split; [now symmetry|]. fold dest. congruence.
  + exists a. split; [now apply Hcopied|]. now split.
- apply bind_Ok_inv in Hcopy as (same & sx & Es & Hcopy).
  injection Es as <- <-.
  exists a. split; [now apply Hcopied|]. now split.
Qed.

End add_a_file.

Import TreeFacts PlainFacts MakedirsFacts.

(** * Reading and writing a single file *)

(** Path resolution fails in two ways only. *)
Lemma namei_errors r l cur e :
  os.namei r cur l = Raise e -> e = FileNotFoundError \/ e = NotADirectoryError.
Proof.
  revert cur. induction l as [|c l IH]; intros cur; simpl; [discriminate|].
  destruct (Tree.lookup r cur) as [[|]|].
  - intros [= <-]. now right.
  - destruct (_ || _)%bool; [apply IH|]. destruct (String.eqb c ".."); apply IH.
  - intros [= <-]. now left.
Qed.

Lemma resolve_errors l s e s' :
  l <> [] -> forallb plain_name l = true ->
  os.resolve (abs_str l) s = (Raise e, s') ->
  s' = s /\ (e = FileNotFoundError \/ e = NotADirectoryError).
Proof.
  intros Hne Hl. rewrite resolve_abs by assumption.
  intros [= E <-]. split; [reflexivity|]. exact (namei_errors _ _ _ _ E).
Qed.

Lemma stat_errors l s e s' :
  l <> [] -> forallb plain_name l = true ->
  os.stat (abs_str l) s = (Raise e, s') ->
  s' = s /\ (e = FileNotFoundError \/ e = NotADirectoryError).
Proof.
  intros Hne Hl. unfold os.stat, bind. rewrite resolve_abs by assumption.
  destruct (os.namei (os.root_node s) [] l) as [p|e0] eqn:E.
  - unfold os.node_at. destruct (Tree.lookup (os.root_node s) p);
      unfold ret, raise; intros [= <- <-]; split; [reflexivity | now left].
  - intros [= <- <-]. split; [reflexivity|]. exact (namei_errors _ _ _ _ E).
Qed.

(** The directory that is to hold the last component is missing: the
    path does not resolve. *)
Lemma resolve_without_parent d c s :
  forallb plain_name (d ++ [c]) = true ->
  is_dir_node (Tree.lookup (os.root_node s) d) = false ->
  exists e, (e = FileNotFoundError \/ e = NotADirectoryError) /\
            os.resolve (abs_str (d ++ [c])) s = (Raise e, s).
Proof.
  intros Hl Hd. pose proof (snoc_not_nil d c) as Hne.
  rewrite resolve_abs by assumption.
  destruct (os.namei (os.root_node s) [] (d ++ [c])) as [p|e] eqn:E.
  - apply namei_plain_inv in E as [_ Hdirs]; [|assumption].
    specialize (Hdirs d c [] eq_refl). simpl in Hdirs. congruence.
  - exists e. split; [exact (namei_errors _ _ _ _ E) | reflexivity].
Qed.

Section a_single_file.
Context `{Libs}.
Variable self : FileStorage.t.
Variable gp : list string.
Variable fn : string.
Hypothesis Hlayout : plain_layout self gp fn.
Hypothesis Hsync : FileStorage.sync self = false.
Variable rel : string.
Hypothesis Hrel : plain_relative rel = true.

Let lock := FileLock.init (FileStorage.folder_path self).
Let target := (gp ++ [fn]) ++ PyStr.split_slash rel.

Lemma file_get_unfolded s sl :
  FileLock.enter lock s = (Ok tt, sl) ->
  FileStorage.file_get self rel s = os.read_file (abs_str target) sl.
Proof.
  intros He. unfold FileStorage.file_get.
  rewrite (with_lock_run _ _ _ _ He), Hsync.
  rewrite (target_path self gp fn Hlayout rel Hrel). reflexivity.
Qed.

Lemma file_set_unfolded content s sl :
  FileLock.enter lock s = (Ok tt, sl) ->
  FileStorage.file_set self rel content s
  = (os.write_file (abs_str target) (Bytes content) >> ret tt) sl.
Proof.
  intros He. unfold FileStorage.file_set.
  rewrite (with_lock_run _ _ _ _ He), Hsync.
  rewrite (target_path self gp fn Hlayout rel Hrel). reflexivity.
Qed.

(** X23.  Without synchronization, [file_get] reads and changes nothing
  beyond the lock: it returns the content of a regular file, fails with
  [IsADirectoryError] on a directory, and with [FileNotFoundError] (or
  [NotADirectoryError], a component above being a regular file) where
  the name is not there. *)
Theorem file_get_reads_and_changes_nothing s sl :
FileLock.enter lock s = (Ok tt, sl) ->
(forall c, Tree.lookup (os.root_node sl) target = Some (File c) ->
           FileStorage.file_get self rel s = (Ok c, sl)) /\
(forall es, Tree.lookup (os.root_node sl) target = Some (Dir es) ->
            FileStorage.file_get self rel s = (Raise IsADirectoryError, sl)) /\
(Tree.lookup (os.root_node sl) target = None ->
 exists e, (e = FileNotFoundError \/ e = NotADirectoryError) /\
           FileStorage.file_get self rel s = (Raise e, sl)).
Proof.
intros He. rewrite (file_get_unfolded s sl He).
pose proof (target_nonempty gp fn rel) as Hne.
pose proof (target_plain self gp fn Hlayout rel Hrel) as Hpl.
fold target in Hne, Hpl.
split; [|split].
- intros c Hc. now apply read_plain.
- intros es Hd. unfold os.read_file.
  now rewrite (bind_Ok _ _ _ _ _ (stat_plain _ _ _ Hne Hpl Hd)).
- intros Hn.
  destruct (lookup_none_stat target sl Hne Hpl Hn) as [e E].
  exists e. split; [exact (proj2 (stat_errors _ _ _ _ Hne Hpl E))|].
  unfold os.read_file. now rewrite (bind_Raise _ _ _ _ _ E).
Qed.

(** X24.  Without synchronization, whenever [file_set] returns normally
  the file holds the content given, every other regular file has its
  content, and nothing beside the path is changed; the directory that
  holds the file was there before (none is made), and the name was not
  that of a directory. *)
Theorem file_set_writes_one_file content s sl s' :
FileLock.enter lock s = (Ok tt, sl) ->
FileStorage.file_set self rel content s = (Ok tt, s') ->
Tree.lookup (os.root_node s') target = Some (File (Bytes content)) /\
(forall q a, q <> target ->
             Tree.lookup (os.root_node sl) q = Some (File a) ->
             Tree.lookup (os.root_node s') q = Some (File a)) /\
(forall q, diverge target q = true ->
           Tree.lookup (os.root_node s') q = Tree.lookup (os.root_node sl) q) /\
(forall d c, target = d ++ [c] ->
             is_dir_node (Tree.lookup (os.root_node sl) d) = true) /\
is_dir_node (Tree.lookup (os.root_node sl) target) = false.
Proof.
intros He Hset. rewrite (file_set_unfolded content s sl He) in Hset.
pose proof (target_nonempty gp fn rel) as Hne.
pose proof (target_plain self gp fn Hlayout rel Hrel) as Hpl.
fold target in Hne, Hpl.
apply bind_Ok_inv in Hset as ([] & s2 & Hw & Hret).
unfold ret in Hret. injection Hret as <-.
pose proof (write_file_kept) as Hkept.
pose proof Hw as Hw'.
apply write_file_inv in Hw' as (p & es' & Hr & Hnd & Hp & ->).
apply resolve_abs_inv in Hr as [-> Hdirs]; [|assumption..].
change (os.root_node (os.with_root es' sl)) with (Dir es').
split; [exact (place_lookup_same _ _ _ _ Hp)|]. split; [|split; [|split]].
- intros q a Hq Ha.
  pose proof (Hkept q target (Bytes content) Hne Hpl (fun E => Hq (eq_sym E)) sl)
    as [_ Hk].
  rewrite Hw in Hk. exact (Hk a Ha).
- intros q Hq. exact (place_lookup_diverge _ _ _ _ _ Hp Hq).
- intros d c Hsplit. exact (Hdirs d c [] Hsplit).
- exact Hnd.
Qed.

(** X25.  [file_set] makes no directory: without synchronization, where
  the directory that is to hold the file is not there, it fails with
  [FileNotFoundError] (or [NotADirectoryError]), and where the name is
  that of a directory, with [IsADirectoryError]; in both cases nothing
  is changed beyond the lock. *)
Theorem file_set_makes_no_directory content s sl d c :
FileLock.enter lock s = (Ok tt, sl) ->
target = d ++ [c] ->
(is_dir_node (Tree.lookup (os.root_node sl) d) = false ->
 exists e, (e = FileNotFoundError \/ e = NotADirectoryError) /\
           FileStorage.file_set self rel content s = (Raise e, sl)) /\
(is_dir_node (Tree.lookup (os.root_node sl) target) = true ->
 FileStorage.file_set self rel content s = (Raise IsADirectoryError, sl)).
Proof.
intros He Hsplit. rewrite (file_set_unfolded content s sl He).
pose proof (target_nonempty gp fn rel) as Hne.
pose proof (target_plain self gp fn Hlayout rel Hrel) as Hpl.
fold target in Hne, Hpl.
split.
- intros Hd. rewrite Hsplit in Hpl |- *.
  destruct (resolve_without_parent d c sl Hpl Hd) as (e & Hs & Er).
  exists e. split; [exact Hs|].
  unfold os.write_file. unfold bind at 1 2. now rewrite Er.
- intros Ht.
  destruct (Tree.lookup (os.root_node sl) target) as [[|es]|] eqn:E;
    try discriminate.
  assert (Hr : os.resolve (abs_str target) sl = (Ok target, sl)).
  { apply resolve_abs_Ok; [assumption..|].
    intros x c0 t ->. exact (lookup_above_dir _ _ _ _ _ E). }
  unfold os.write_file. rewrite bind_Raise with (e := IsADirectoryError) (s1 := sl);
    [reflexivity|].
  rewrite (bind_Ok _ _ _ _ _ Hr). unfold bind, os.node_at. now rewrite E.
Qed.

End a_single_file.

(** * The local store compares sizes *)

Section local_store_sizes.
Context `{Libs}.
Variables sp gp : list string.
Variable fn : string.
Hypothesis Hsp : sp <> [].
Hypothesis Hgp : gp <> [].
Hypothesis Hpsp : forallb plain_name sp = true.
Hypothesis Hpgp : forallb plain_name gp = true.
Hypothesis Hfn : plain_name fn = true.

Let storage := abs_str sp.
Let base := abs_str gp.

(** X26.  Where the local copy is there, [get] of the local store looks at
  the two directory sizes only: with equal sizes it copies nothing,
  whatever the two directories hold; and where the stored resource or
  the local copy is a regular file it fails with [NotADirectoryError]
  and changes nothing, so a file that is there is never refreshed. *)
Theorem local_get_compares_sizes_only s :
(forall es es',
    Tree.lookup (os.root_node s) (sp ++ [fn]) = Some (Dir es) ->
    Tree.lookup (os.root_node s) (gp ++ [fn]) = Some (Dir es') ->
    tree_size (Dir es) = tree_size (Dir es') ->
    LocalFSStore.get storage fn base s = (Ok tt, s)) /\
(forall c n,
    Tree.lookup (os.root_node s) (sp ++ [fn]) = Some (File c) ->
    Tree.lookup (os.root_node s) (gp ++ [fn]) = Some n ->
    LocalFSStore.get storage fn base s = (Raise NotADirectoryError, s)) /\
(forall es c,
    Tree.lookup (os.root_node s) (sp ++ [fn]) = Some (Dir es) ->
    Tree.lookup (os.root_node s) (gp ++ [fn]) = Some (File c) ->
    LocalFSStore.get storage fn base s = (Raise NotADirectoryError, s)).
Proof.
pose proof (snoc_not_nil sp fn) as Hsne.
pose proof (snoc_not_nil gp fn) as Hgne.
pose proof (plain_snoc _ _ Hpsp Hfn) as Hps.
pose proof (plain_snoc _ _ Hpgp Hfn) as Hpg.
unfold LocalFSStore.get, storage, base. rewrite !join_abs by assumption.
split; [|split].
- intros es es' Hs Hl Hsz.
  pose proof (stat_plain _ _ _ Hsne Hps Hs) as Ss.
  pose proof (stat_plain _ _ _ Hgne Hpg Hl) as Sl.
  rewrite (bind_Ok _ _ _ _ _ (exists_intro _ _ _ Sl)). cbn [negb].
  rewrite bind_Ok with (a := false) (s1 := s); [reflexivity|].
  rewrite (bind_Ok _ _ _ _ _ (get_dir_size_dir _ _ _ Ss)).
  rewrite (bind_Ok _ _ _ _ _ (get_dir_size_dir _ _ _ Sl)).
  rewrite Hsz, Nat.eqb_refl. reflexivity.
- intros c n Hs Hl.
  pose proof (stat_plain _ _ _ Hsne Hps Hs) as Ss.
  pose proof (stat_plain _ _ _ Hgne Hpg Hl) as Sl.
  rewrite (bind_Ok _ _ _ _ _ (exists_intro _ _ _ Sl)). cbn [negb].
  rewrite bind_Raise with (e := NotADirectoryError) (s1 := s); [reflexivity|].
  rewrite bind_Raise with (e := NotADirectoryError) (s1 := s); [reflexivity|].
  unfold get_dir_size. now rewrite (bind_Ok _ _ _ _ _ Ss).
- intros es c Hs Hl.
  pose proof (stat_plain _ _ _ Hsne Hps Hs) as Ss.
  pose proof (stat_plain _ _ _ Hgne Hpg Hl) as Sl.
  rewrite (bind_Ok _ _ _ _ _ (exists_intro _ _ _ Sl)). cbn [negb].
  rewrite bind_Raise with (e := NotADirectoryError) (s1 := s); [reflexivity|].
  rewrite (bind_Ok _ _ _ _ _ (get_dir_size_dir _ _ _ Ss)).
  rewrite bind_Raise with (e := NotADirectoryError) (s1 := s); [reflexivity|].
  unfold get_dir_size. now rewrite (bind_Ok _ _ _ _ _ Sl).
Qed.

End local_store_sizes.

(** * The marker of the remote store *)

Section marker_properties.
Context `{Libs}.
Variable gp : list string.
Variable fn : string.
Hypothesis Hgp : gp <> [].
Hypothesis Hpl : forallb plain_name gp = true.
Hypothesis Hfn : plain_name fn = true.

Let base := abs_str gp.
Let marker := (gp ++ [fn]) ++ ["last_modified.txt"].

(** X27.  The marker round trip: a timestamp saved by
  [_save_local_last_modified] is the one [_get_local_last_modified]
  reads (the timestamp being the same after it is formatted and
  parsed); and where there is no marker file, it reads [None] and
  raises nothing. *)
Theorem marker_round_trip s :
(forall t s',
    S3FSStore._save_local_last_modified base fn t s = (Ok tt, s') ->
    strptime (strftime t) = Some t ->
    S3FSStore._get_local_last_modified base fn s' = (Ok (Some t), s')) /\
(is_file_node (Tree.lookup (os.root_node s) marker) = false ->
 S3FSStore._get_local_last_modified base fn s = (Ok None, s)).
Proof.
pose proof (snoc_not_nil (gp ++ [fn]) "last_modified.txt") as Hne.
pose proof (plain_marker gp fn Hpl Hfn) as Hpm.
split.
- intros t s' Hsave Hcodec.
  unfold S3FSStore._save_local_last_modified, base in Hsave.
  rewrite (marker_path gp fn Hgp Hpl Hfn) in Hsave.
  unfold PathM.write_text in Hsave. rewrite fspath_abs in Hsave.
  apply write_file_inv in Hsave as (p & es' & Hr & _ & Hp & ->).
  apply resolve_abs_inv in Hr as [-> _]; [|assumption..].
  pose proof (place_lookup_same _ _ _ _ Hp) as Hm.
  unfold base.
  rewrite (read_marker gp fn Hgp Hpl Hfn (os.with_root es' s) (strftime t)).
  + now rewrite Hcodec.
  + exact Hm.
- intros Hm. unfold S3FSStore._get_local_last_modified, base.
  rewrite (marker_path gp fn Hgp Hpl Hfn).
  unfold PathM.is_file. rewrite fspath_abs.
  rewrite (bind_Ok _ _ _ _ _ (isfile_plain _ s Hne Hpm)).
  fold marker. now rewrite Hm.
Qed.

End marker_properties.

Import TreeFacts PlainFacts MakedirsFacts.

(** ** The further properties on sample states *)

Section further_witnesses.
Import Example.
#[local] Existing Instance Example.libs.

Let group : list string := ["content"; "predictor"].
Let folder : list string := ["content"; "predictor"; "predictor_1_5"].
Let locked : node := Dir [("dir.lock", File (Bytes EmptyString))].

Lemma init_rejects_unknown_location_witness :
  let s := machine [] 8 ∅ in
  location (cfg "ftp") <> "local" /\ location (cfg "ftp") <> "s3" /\
  FileStorage.init (cfg "ftp") "predictor" 5 "content" true s
  = (Raise (Exception "Location: 'ftp' not supported"), s).
Proof.
  intros s. split; [discriminate|]. split; [discriminate|].
  apply (init_rejects_unknown_location (cfg "ftp") "predictor" 5 "content" true s);
    discriminate.
Defined.

Lemma init_rejects_unknown_root_dir_witness :
  let s := machine [] 8 ∅ in
  FsStore (cfg "local") s = (Ok (LocalStore "/storage"), s) /\
  (forall v, ~ In ("cache", v) (paths (cfg "local"))) /\
  FileStorage.init (cfg "local") "predictor" 5 "cache" true s = (Raise KeyError, s).
Proof.
  intros s.
  assert (Hk : forall v, ~ In ("cache", v) (paths (cfg "local"))).
  { intros v Hin. simpl in Hin. destruct Hin as [E|[E|[]]]; discriminate. }
  split; [reflexivity|]. split; [exact Hk|].
  apply (init_rejects_unknown_root_dir (cfg "local") "predictor" 5 "cache" true s
           (LocalStore "/storage")); [reflexivity | exact Hk].
Defined.

Lemma init_makes_the_directory_once_witness :
  let s := machine [] 8 ∅ in
  let s0 := machine [("predictor_1_5", Dir [])] 8 ∅ in
  FileStorage.init (cfg "local") "predictor" 5 "content" true s = (Ok (local true), s0) /\
  FileStorage.folder_name (local true) = "predictor_1_5" /\
  PathM.exists_ (FileStorage.folder_path (local true)) s0 = (Ok true, s0) /\
  FileStorage.init (cfg "local") "predictor" 5 "content" true s0 = (Ok (local true), s0).
Proof.
  intros s s0.
  assert (Hi : FileStorage.init (cfg "local") "predictor" 5 "content" true s
               = (Ok (local true), s0)) by (vm_compute; reflexivity).
  split; [exact Hi|].
  destruct (init_makes_the_directory_once _ _ _ _ _ _ _ _ Hi)
    as (_ & Hn & _ & Hex & Hre).
  split; [exact Hn|]. split; [exact Hex | exact Hre].
Defined.

Lemma enter_twice_changes_nothing_witness :
  let l := FileLock.init (mkPath true folder) in
  let s := machine [("predictor_1_5", Dir [])] 8 ∅ in
  let s1 := machine [("predictor_1_5", locked)] 8 ∅ in
  FileLock.enter l s = (Ok tt, s1) /\ FileLock.enter l s1 = (Ok tt, s1).
Proof.
  intros l s s1.
  assert (He : FileLock.enter l s = (Ok tt, s1)) by (vm_compute; reflexivity).
  split; [exact He | exact (enter_twice_changes_nothing l s s1 He)].
Defined.

Lemma push_path_fails_with_local_store_witness :
  let s := machine [("predictor_1_5", Dir [])] 8 ∅ in
  let s1 := machine [("predictor_1_5", locked)] 8 ∅ in
  FileLock.enter (FileLock.init (FileStorage.folder_path (local true))) s = (Ok tt, s1) /\
  FileStorage.push_path (local true) "model.pkl" s
  = (Raise (TypeError "put() missing 1 required positional argument"), s1).
Proof.
  intros s s1.
  assert (He : FileLock.enter (FileLock.init (FileStorage.folder_path (local true))) s
               = (Ok tt, s1)) by (vm_compute; reflexivity).
  split; [exact He|].
  exact (proj1 (push_path_fails_with_local_store (local true) "model.pkl" s s1 He)
           "/storage" eq_refl).
Defined.

Lemma get_with_fresh_marker_is_no_op_witness :
  let s := machine [("predictor_1_5", stamped_resource)] 100
                   {[ "predictor_1_5.tar.gz" := pushed_archive ]} in
  strptime "05.03.24 14:02:11.000000" = Some (LastModified pushed_archive) /\
  S3FSStore.get "predictor_1_5" "/content/predictor" s = (Ok tt, s).
Proof.
  intros s. split; [vm_compute; reflexivity|].
  apply (get_with_fresh_marker_is_no_op group "predictor_1_5")
    with (o := pushed_archive) (text := "05.03.24 14:02:11.000000");
    [discriminate | reflexivity | reflexivity | reflexivity
    | vm_compute; reflexivity | reflexivity | vm_compute; reflexivity].
Defined.

Lemma get_with_unreadable_marker_fails_witness :
  let s := machine [("predictor_1_5",
                     Dir [("last_modified.txt", File (Bytes "yesterday"))])] 100
                   {[ "predictor_1_5.tar.gz" := pushed_archive ]} in
  strptime "yesterday" = None /\
  S3FSStore.get "predictor_1_5" "/content/predictor" s = (Raise ValueError, s).
Proof.
  intros s. split; [vm_compute; reflexivity|].
  apply (get_with_unreadable_marker_fails group "predictor_1_5")
    with (text := "yesterday");
    [discriminate | reflexivity | reflexivity | reflexivity | vm_compute; reflexivity].
Defined.

Lemma get_after_put_is_no_op_witness :
  let s := machine [("predictor_1_5", resource)] 8 ∅ in
  let s1 := snd (S3FSStore.put "predictor_1_5" "/content/predictor" 9 s) in
  S3FSStore.put "predictor_1_5" "/content/predictor" 9 s = (Ok tt, s1) /\
  strptime (strftime (s3_now s1)) = Some (s3_now s1) /\
  S3FSStore.get "predictor_1_5" "/content/predictor" s1 = (Ok tt, s1).
Proof.
  intros s s1.
  assert (Hp : S3FSStore.put "predictor_1_5" "/content/predictor" 9 s = (Ok tt, s1))
    by (vm_compute; reflexivity).
  assert (Hc : strptime (strftime (s3_now s1)) = Some (s3_now s1))
    by (vm_compute; reflexivity).
  split; [exact Hp|]. split; [exact Hc|].
  apply (get_after_put_is_no_op group "predictor_1_5") with (cl := 9) (s := s);
    [discriminate | reflexivity | reflexivity | exact Hp | exact Hc].
Defined.

Lemma put_changes_no_other_file_witness :
  let s := machine [("predictor_1_5", resource)] 8 ∅ in
  let q := folder ++ ["model.pkl"] in
  Tree.lookup (os.root_node s) q = Some (File (Bytes "weights")) /\
  Tree.lookup (os.root_node (snd (S3FSStore.put "predictor_1_5" "/content/predictor" 9 s))) q
  = Some (File (Bytes "weights")).
Proof.
  intros s q. split; [reflexivity|].
  apply (put_changes_no_other_file group "predictor_1_5");
    [discriminate | reflexivity | reflexivity | discriminate | discriminate
    | reflexivity].
Defined.

Lemma get_removes_no_other_file_witness :
  let s := machine [("predictor_1_5", resource)] 100
                   {[ "predictor_1_5.tar.gz" := pushed_archive ]} in
  let q := folder ++ ["model.pkl"] in
  is_file_node (Tree.lookup (os.root_node s) q) = true /\
  is_file_node
    (Tree.lookup (os.root_node (snd (S3FSStore.get "predictor_1_5" "/content/predictor" s))) q)
  = true.
Proof.
  intros s q. split; [reflexivity|].
  apply (get_removes_no_other_file group "predictor_1_5");
    [discriminate | reflexivity | reflexivity | discriminate | reflexivity].
Defined.

Lemma put_in_memory_fails_on_a_missing_name_witness :
  let s := machine [("predictor_1_5", resource)] 100 ∅ in
  Tree.lookup (os.root_node s) (group ++ ["dir.lock"]) = None /\
  S3FSStore.put "predictor_1_5" "/content/predictor" 9 s
  = (Raise FileNotFoundError, os.with_cwd group s).
Proof.
  intros s. split; [reflexivity|].
  apply (put_in_memory_fails_on_a_missing_name group "predictor_1_5")
    with (es := [("dir.lock", File (Bytes EmptyString));
                 ("model.pkl", File (Bytes "weights"))])
         (c := "dir.lock");
    [discriminate | reflexivity | reflexivity | reflexivity | reflexivity
    | simpl; tauto | reflexivity | vm_compute; lia].
Defined.

Lemma get_client_error_changes_nothing_witness :
  let s := machine [("predictor_1_5", locked)] 8 ∅ in
  let r := S3FSStore.get "predictor_1_5" "/content/predictor" s in
  r = (Raise ClientError, snd r) /\ snd r = s.
Proof.
  intros s r.
  assert (Hr : r = (Raise ClientError, snd r)) by (vm_compute; reflexivity).
  split; [exact Hr|].
  exact (get_client_error_changes_nothing "predictor_1_5" "/content/predictor" s
           (snd r) Hr).
Defined.

Lemma copy_of_missing_source_changes_nothing_witness :
  let s := machine [("predictor_1_5", resource)] 8 ∅ in
  os.stat "/storage/predictor_1_5" s = (Raise FileNotFoundError, s) /\
  copy "/storage/predictor_1_5" "/content/predictor/predictor_1_5" s
  = (Raise FileNotFoundError, s).
Proof.
  intros s.
  assert (Hs : os.stat "/storage/predictor_1_5" s = (Raise FileNotFoundError, s))
    by (vm_compute; reflexivity).
  split; [exact Hs|].
  exact (copy_of_missing_source_changes_nothing _ _ s FileNotFoundError Hs).
Defined.

Lemma copy_skips_or_replaces_witness :
  let s := machine [("predictor_1_5", resource)] 8 ∅ in
  let s1 := snd (copy "/content/predictor/predictor_1_5" "/storage/predictor_1_5" s) in
  os.path.isdir "/content/predictor/predictor_1_5" s = (Ok true, s) /\
  copy "/content/predictor/predictor_1_5" "/storage/predictor_1_5" s = (Ok tt, s1) /\
  forall x, diverge ["storage"; "predictor_1_5"] x = true ->
            Tree.lookup (os.root_node s1) x = Tree.lookup (os.root_node s) x.
Proof.
  intros s s1.
  assert (Hd : os.path.isdir "/content/predictor/predictor_1_5" s = (Ok true, s))
    by (vm_compute; reflexivity).
  assert (Hc : copy "/content/predictor/predictor_1_5" "/storage/predictor_1_5" s
               = (Ok tt, s1)) by (vm_compute; reflexivity).
  split; [exact Hd|]. split; [exact Hc|].
  apply (copy_skips_or_replaces folder ["storage"; "predictor_1_5"]) with (s := s);
    [reflexivity | reflexivity | discriminate | discriminate | reflexivity
    | exact Hd | exact Hc].
Defined.

Lemma local_get_after_put_is_no_op_witness :
  let s := machine [("predictor_1_5", resource)] 8 ∅ in
  let s1 := snd (LocalFSStore.put "/storage" "predictor_1_5" "/content/predictor"
                   (Some 9) s) in
  LocalFSStore.put "/storage" "predictor_1_5" "/content/predictor" (Some 9) s
  = (Ok tt, s1) /\
  LocalFSStore.get "/storage" "predictor_1_5" "/content/predictor" s1 = (Ok tt, s1).
Proof.
  intros s s1.
  assert (Hp : LocalFSStore.put "/storage" "predictor_1_5" "/content/predictor"
                 (Some 9) s = (Ok tt, s1)) by (vm_compute; reflexivity).
  split; [exact Hp|].
  apply (local_get_after_put_is_no_op ["storage"] group "predictor_1_5")
    with (cl := 9) (s := s);
    [discriminate | discriminate | reflexivity | reflexivity | reflexivity
    | reflexivity | vm_compute; reflexivity | exact Hp].
Defined.

Lemma local_delete_leaves_nothing_witness :
  let s := machine [] 8 ∅ in
  let s1 := mkState [("content", Dir [("predictor", Dir [])]);
                     ("storage", Dir [("predictor_1_5", resource)])]
                    [] true 8 ∅ true t0 in
  LocalFSStore.delete "/storage" "predictor_1_5" s = (Ok tt, s) /\
  LocalFSStore.delete "/storage" "predictor_1_5" s1 = (Ok tt, s) /\
  Tree.lookup (os.root_node s) ["storage"; "predictor_1_5"] = None.
Proof.
  intros s s1.
  assert (Hd : LocalFSStore.delete "/storage" "predictor_1_5" s1 = (Ok tt, s))
    by (vm_compute; reflexivity).
  split; [|split; [exact Hd|]].
  - apply (proj1 (local_delete_leaves_nothing ["storage"] "predictor_1_5"
                    ltac:(discriminate) eq_refl eq_refl s)).
    vm_compute; reflexivity.
  - exact (proj1 (proj2 (local_delete_leaves_nothing ["storage"] "predictor_1_5"
                           ltac:(discriminate) eq_refl eq_refl s1) s Hd)).
Defined.

Lemma get_path_returns_an_existing_path_witness :
  let self := local false in
  let s := machine [("predictor_1_5", resource)] 8 ∅ in
  let p := mkPath true (folder ++ ["cache"; "tmp"]) in
  let s' := snd (FileStorage.get_path self "cache/tmp" s) in
  FileStorage.get_path self "cache/tmp" s = (Ok p, s') /\
  PathM.exists_ p s = (Ok false, s) /\
  PathM.is_dir p s' = (Ok true, s').
Proof.
  intros self s p s'.
  assert (Hg : FileStorage.get_path self "cache/tmp" s = (Ok p, s'))
    by (vm_compute; reflexivity).
  split; [exact Hg|]. split; [vm_compute; reflexivity|].
  destruct (get_path_returns_an_existing_path self group "predictor_1_5"
              (example_layout _ _) eq_refl "cache/tmp" eq_refl s p s' Hg)
    as (_ & _ & sl & He & _ & Hmade).
  assert (Hsl : sl = s).
  { assert (He' : FileLock.enter (FileLock.init (FileStorage.folder_path self)) s
                  = (Ok tt, s)) by (vm_compute; reflexivity).
    congruence. }
  subst sl. apply Hmade. vm_compute; reflexivity.
Defined.

Lemma delete_of_missing_path_fails_witness :
  let self := local false in
  let s := machine [("predictor_1_5", resource)] 8 ∅ in
  FileLock.enter (FileLock.init (FileStorage.folder_path self)) s = (Ok tt, s) /\
  Tree.lookup (os.root_node s) (folder ++ ["args.json"]) = None /\
  FileStorage.delete self "args.json" s
  = (Raise (Exception "Path does not exists"), s).
Proof.
  intros self s.
  assert (He : FileLock.enter (FileLock.init (FileStorage.folder_path self)) s
               = (Ok tt, s)) by (vm_compute; reflexivity).
  split; [exact He|]. split; [reflexivity|].
  exact (delete_of_missing_path_fails self group "predictor_1_5"
           (example_layout _ _) eq_refl "args.json" eq_refl s s He eq_refl).
Defined.

Lemma delete_keeps_a_directory_that_is_not_empty_witness :
  let self := local false in
  let s := machine [("predictor_1_5",
                     Dir [("dir.lock", File (Bytes EmptyString));
                          ("cache", Dir [("tmp", File (Bytes "x"))])])] 8 ∅ in
  FileLock.enter (FileLock.init (FileStorage.folder_path self)) s = (Ok tt, s) /\
  FileStorage.delete self "cache" s = (Raise OSError, s).
Proof.
  intros self s.
  assert (He : FileLock.enter (FileLock.init (FileStorage.folder_path self)) s
               = (Ok tt, s)) by (vm_compute; reflexivity).
  split; [exact He|].
  exact (delete_keeps_a_directory_that_is_not_empty self group "predictor_1_5"
           (example_layout _ _) eq_refl "cache" eq_refl s s
           ("tmp", File (Bytes "x")) [] He eq_refl).
Defined.

Lemma delete_removes_the_path_and_nothing_else_witness :
  let self := local false in
  let s := machine [("predictor_1_5", resource)] 8 ∅ in
  FileLock.enter (FileLock.init (FileStorage.folder_path self)) s = (Ok tt, s) /\
  Tree.lookup (os.root_node s) (folder ++ ["model.pkl"])
  = Some (File (Bytes "weights")) /\
  exists s',
    FileStorage.delete self "model.pkl" s = (Ok tt, s') /\
    Tree.lookup (os.root_node s') (folder ++ ["model.pkl"]) = None /\
    Tree.lookup (os.root_node s') (folder ++ ["dir.lock"])
    = Some (File (Bytes EmptyString)).
Proof.
  intros self s.
  assert (He : FileLock.enter (FileLock.init (FileStorage.folder_path self)) s
               = (Ok tt, s)) by (vm_compute; reflexivity).
  split; [exact He|]. split; [reflexivity|].
  destruct (delete_removes_the_path_and_nothing_else self group "predictor_1_5"
              (example_layout _ _) eq_refl "model.pkl" eq_refl s s
              (File (Bytes "weights")) He eq_refl
              (or_introl (ex_intro _ (Bytes "weights") eq_refl)))
    as (s' & Hd & Hgone & Hkept).
  exists s'. split; [exact Hd|]. split; [exact Hgone|].
  apply Hkept; [discriminate | reflexivity].
Defined.

Lemma add_stores_the_file_under_its_name_witness :
  let self := local false in
  let s := machine [("predictor_1_5", resource);
                    ("args.json", File (Bytes "{}"))] 8 ∅ in
  let s' := snd (FileStorage.add self "/content/predictor/args.json" None s) in
  FileLock.enter (FileLock.init (FileStorage.folder_path self)) s = (Ok tt, s) /\
  FileStorage.add self "/content/predictor/args.json" None s = (Ok tt, s') /\
  Tree.lookup (os.root_node s') (folder ++ ["args.json"]) = Some (File (Bytes "{}")).
Proof.
  intros self s s'.
  assert (He : FileLock.enter (FileLock.init (FileStorage.folder_path self)) s
               = (Ok tt, s)) by (vm_compute; reflexivity).
  assert (Ha : FileStorage.add self "/content/predictor/args.json" None s = (Ok tt, s'))
    by (vm_compute; reflexivity).
  split; [exact He|]. split; [exact Ha|].
  destruct (add_stores_the_file_under_its_name self group "predictor_1_5"
              (example_layout _ _) eq_refl group "args.json" eq_refl s s s'
              (Bytes "{}") He eq_refl eq_refl ltac:(discriminate) Ha)
    as (b & Hb & _ & Hfree).
  rewrite (Hfree eq_refl) in Hb. exact Hb.
Defined.

Lemma file_get_reads_and_changes_nothing_witness :
  let self := local false in
  let s := machine [("predictor_1_5", resource)] 8 ∅ in
  FileLock.enter (FileLock.init (FileStorage.folder_path self)) s = (Ok tt, s) /\
  FileStorage.file_get self "model.pkl" s = (Ok (Bytes "weights"), s) /\
  exists e, (e = FileNotFoundError \/ e = NotADirectoryError) /\
            FileStorage.file_get self "model.pkl/args.json" s = (Raise e, s).
Proof.
  intros self s.
  assert (He : FileLock.enter (FileLock.init (FileStorage.folder_path self)) s
               = (Ok tt, s)) by (vm_compute; reflexivity).
  split; [exact He|]. split.
  - exact (proj1 (file_get_reads_and_changes_nothing self group "predictor_1_5"
                    (example_layout _ _) eq_refl "model.pkl" eq_refl s s He)
             (Bytes "weights") eq_refl).
  - exact (proj2 (proj2 (file_get_reads_and_changes_nothing self group "predictor_1_5"
                           (example_layout _ _) eq_refl "model.pkl/args.json" eq_refl
                           s s He)) eq_refl).
Defined.

Lemma file_set_writes_one_file_witness :
  let self := local false in
  let s := machine [("predictor_1_5", resource)] 8 ∅ in
  let s' := snd (FileStorage.file_set self "args.json" "{}" s) in
  FileLock.enter (FileLock.init (FileStorage.folder_path self)) s = (Ok tt, s) /\
  FileStorage.file_set self "args.json" "{}" s = (Ok tt, s') /\
  Tree.lookup (os.root_node s') (folder ++ ["args.json"]) = Some (File (Bytes "{}")) /\
  Tree.lookup (os.root_node s') (folder ++ ["model.pkl"])
  = Some (File (Bytes "weights")).
Proof.
  intros self s s'.
  assert (He : FileLock.enter (FileLock.init (FileStorage.folder_path self)) s
               = (Ok tt, s)) by (vm_compute; reflexivity).
  assert (Hset : FileStorage.file_set self "args.json" "{}" s = (Ok tt, s'))
    by (vm_compute; reflexivity).
  split; [exact He|]. split; [exact Hset|].
  destruct (file_set_writes_one_file self group "predictor_1_5"
              (example_layout _ _) eq_refl "args.json" eq_refl "{}" s s s' He Hset)
    as (Hnew & Hkept & _).
  split; [exact Hnew|].
  apply Hkept; [discriminate | reflexivity].
Defined.

Lemma file_set_makes_no_directory_witness :
  let self := local false in
  let s := machine [("predictor_1_5", resource)] 8 ∅ in
  FileLock.enter (FileLock.init (FileStorage.folder_path self)) s = (Ok tt, s) /\
  is_dir_node (Tree.lookup (os.root_node s) (folder ++ ["cache"])) = false /\
  exists e, (e = FileNotFoundError \/ e = NotADirectoryError) /\
            FileStorage.file_set self "cache/args.json" "{}" s = (Raise e, s).
Proof.
  intros self s.
  assert (He : FileLock.enter (FileLock.init (FileStorage.folder_path self)) s
               = (Ok tt, s)) by (vm_compute; reflexivity).
  split; [exact He|]. split; [reflexivity|].
  exact (proj1 (file_set_makes_no_directory self group "predictor_1_5"
                  (example_layout _ _) eq_refl "cache/args.json" eq_refl "{}" s s
                  (folder ++ ["cache"]) "args.json" He eq_refl) eq_refl).
Defined.

Lemma local_get_compares_sizes_only_witness :
  let s := mkState [("content", Dir [("predictor", Dir [("predictor_1_5", resource)])]);
                    ("storage", Dir [("predictor_1_5",
                                      Dir [("model.pkl", File (Bytes "WEIGHTS"))])])]
                   [] true 8 ∅ true t0 in
  LocalFSStore.get "/storage" "predictor_1_5" "/content/predictor" s = (Ok tt, s).
Proof.
  intros s.
  exact (proj1 (local_get_compares_sizes_only ["storage"] group "predictor_1_5"
                  ltac:(discriminate) ltac:(discriminate) eq_refl eq_refl eq_refl s)
           _ _ eq_refl eq_refl eq_refl).
Defined.

Lemma marker_round_trip_witness :
  let s := machine [("predictor_1_5", resource)] 8 ∅ in
  let s' := snd (S3FSStore._save_local_last_modified "/content/predictor"
                   "predictor_1_5" t0 s) in
  S3FSStore._save_local_last_modified "/content/predictor" "predictor_1_5" t0 s
  = (Ok tt, s') /\
  strptime (strftime t0) = Some t0 /\
  S3FSStore._get_local_last_modified "/content/predictor" "predictor_1_5" s'
  = (Ok (Some t0), s').
Proof.
  intros s s'.
  assert (Hs : S3FSStore._save_local_last_modified "/content/predictor"
                 "predictor_1_5" t0 s = (Ok tt, s')) by (vm_compute; reflexivity).
  assert (Hc : strptime (strftime t0) = Some t0) by (vm_compute; reflexivity).
  split; [exact Hs|]. split; [exact Hc|].
  exact (proj1 (marker_round_trip group "predictor_1_5" ltac:(discriminate)
                  eq_refl eq_refl s) t0 s' Hs Hc).
Defined.


End further_witnesses.
